(** * scamp: Session listeners and the Playcorder, embedded in Rocq

    The development follows [src/scamp/session.py] (class [Session]) and
    [src/source/playcorderNew.py] (class [Playcorder]).

    Python methods become functions in a small monad [Py] that threads the
    object state, logs the calls made to collaborators (clock, listener
    libraries, logging) in a trace, and propagates exceptions.  The two
    [while True] loops are interaction trees. *)

From Stdlib Require Import ZArith QArith List Ascii String Lia.
From Stdlib Require Floats.
From stdpp Require Import gmap strings list fin_maps.
From ITree Require Import ITree ITreeFacts Props.Leaf.

Set Default Proof Using "Type".
Local Open Scope Z_scope.

(** ** Exceptions and the effect monad *)

(** The exception classes the two source files raise or let through.
    [UserException] stands for whatever a user callback raises. *)
Inductive exn : Type :=
| ImportError
| ValueError
| TypeError
| AssertionError
| AttributeError
| KeyError
| UserException (tag : string).

Inductive outcome (A : Type) : Type :=
| Returned (a : A)
| Raised (e : exn).
Arguments Returned {A} a.
Arguments Raised {A} e.

(** One run of a method: the collaborator calls it made, in order, the
    state it left, and how it ended. *)
Record run (St Ev A : Type) : Type := Run {
  trace : list Ev;
  final : St;
  out : outcome A
}.
Arguments Run {St Ev A} trace final out.
Arguments trace {St Ev A} r.
Arguments final {St Ev A} r.
Arguments out {St Ev A} r.

Definition Py (St Ev A : Type) : Type := St -> run St Ev A.

Section PyMonad.
Context {St Ev : Type}.

Definition ret {A} (a : A) : Py St Ev A := fun s => Run [] s (Returned a).

Definition bind {A B} (m : Py St Ev A) (k : A -> Py St Ev B) : Py St Ev B :=
  fun s =>
    let r := m s in
    match out r with
    | Returned a =>
        let r' := k a (final r) in
        Run (trace r ++ trace r') (final r') (out r')
    | Raised e => Run (trace r) (final r) (Raised e)
    end.

Definition raise {A} (e : exn) : Py St Ev A := fun s => Run [] s (Raised e).
Definition emit (ev : Ev) : Py St Ev unit := fun s => Run [ev] s (Returned tt).
Definition get : Py St Ev St := fun s => Run [] s (Returned s).
Definition gets {A} (f : St -> A) : Py St Ev A := fun s => Run [] s (Returned (f s)).
Definition modify (f : St -> St) : Py St Ev unit := fun s => Run [] (f s) (Returned tt).

(** [for x in xs: body x] *)
Fixpoint for_each {A} (xs : list A) (body : A -> Py St Ev unit) : Py St Ev unit :=
  match xs with
  | [] => ret tt
  | x :: rest => bind (body x) (fun _ => for_each rest body)
  end.

(** Calling a value that may be [None]: Python raises [TypeError]. *)
Definition call {A} (f : option (Py St Ev A)) : Py St Ev A :=
  match f with
  | Some g => g
  | None => raise TypeError
  end.
End PyMonad.

Declare Scope py_scope.
Delimit Scope py_scope with py.
Notation "x <- c ;; k" := (bind c (fun x => k))
  (at level 100, c at next level, right associativity) : py_scope.
Notation "c ;; k" := (bind c (fun _ => k))
  (at level 100, right associativity) : py_scope.

(** ** Values shared by both classes *)

(** [x is not None] *)
Definition is_not_None {A} (x : option A) : bool :=
  match x with
  | Some _ => true
  | None => false
  end.

(** Python numbers that are floats in the source (times, tempi, mouse
    coordinates) are rationals here; no claim depends on rounding. *)
Abbreviation num := Q.

Inductive PyVal : Type :=
| PNone
| PInt (z : Z)
| PFloat (q : num)
| PStr (s : string).

#[warnings="-register-all"]
Inductive Json : Type :=
| JNull
| JNum (q : num)
| JStr (s : string)
| JArr (items : list Json)
| JObj (fields : list (string * Json)).

(** ** The Session ([src/scamp/session.py]) *)

Module Session.

(** What [current_thread().__clock__] can hold: the session itself (it is
    the master clock) or some other clock. *)
Inductive ClockRef : Type :=
| SessionClock
| OtherClock (id : nat).

(** [self._listeners]: the ["midi"] and ["osc"] dicts created by
    [__init__], and the ["keyboard"] and ["mouse"] entries that exist only
    while such a listener is registered.  Listener and server objects are
    handles (allocation numbers). *)
Record OscEntry : Type := {
  server : nat;
  dispatcher : nat
}.

Record Listeners : Type := {
  midi : gmap Z nat;
  osc : gmap (string * Z) OscEntry;
  keyboard : option nat;
  mouse : option nat
}.

(** The Ensemble part of the session. *)
Record Ensemble : Type := {
  default_soundfont : string;
  default_audio_driver : string;
  default_midi_output_device : string;
  default_spelling_policy : option string;
  instruments : list string
}.

(** [Session(Clock, Ensemble, Transcriber, SavesToJSON)]: one record with
    the attributes of each base class that the methods below touch, then
    the session's own, then what the running thread holds. *)
Record Session : Type := {
  (* Clock *)
  tempo : num;
  suspension_depth : nat;
  children : list string;
  (* Ensemble *)
  ensemble : Ensemble;
  (* Transcriber *)
  transcriptions : list nat;
  (* Session *)
  _listeners : Listeners;
  (* closure variable [keys_down] of the registered keyboard wrappers *)
  keys_down : list (option string);
  (* [current_thread().__clock__] of the thread running the method *)
  thread_clock : option ClockRef;
  (* MIDI input ports currently held open by a listener object *)
  open_ports : list (nat * Z);
  (* allocation counter for listener, server and dispatcher objects *)
  next_handle : nat
}.

(** pynput's key events: [None], a [Key] (special key) or a [KeyCode]. *)
Inductive KeyArg : Type :=
| NoKey
| Key (name : string) (vk : option Z)
| KeyCode (char : option string) (vk : option Z).

(** Calls that leave the session object, in the order they are made.  A
    call that hands functions to a listener library records them: they are
    what the library calls when an event arrives. *)
#[warnings="-register-all"]
Inductive Event : Type :=
| RouseAndHold
| ReleaseFromSuspension
| SetThreadClock (c : option ClockRef)
| UserCode (tag : string)
| StartMidiListener (port : Z) (h : nat)
| ClosePort (h : nat)
| NewDispatcher (h : nat)
| NewOscServer (ip : string) (port : Z) (h : nat)
| ForkUnsynchronized (target : string)
| OscMap (h : nat) (pattern : string)
    (handler : list PyVal -> list (string * PyVal) -> Session -> run Session Event unit)
| OscShutdown (h : nat)
| StartKeyboardListener (h : nat)
    (on_press : option (KeyArg -> Session -> run Session Event unit))
    (on_release : option (KeyArg -> Session -> run Session Event unit))
    (suppress : bool)
| StartMouseListener (h : nat)
    (on_move : option (num -> num -> Session -> run Session Event unit))
    (on_click : option (num -> num -> string -> bool -> Session -> run Session Event unit))
    (on_scroll : option (num -> num -> num -> num -> Session -> run Session Event unit))
    (suppress : bool)
| StopListener (h : nat)
| TkRoot.

#[global] Instance ClockRef_eq_dec : EqDecision ClockRef.
Proof. solve_decision. Defined.

Abbreviation M := (Py Session Event).

(** Attribute assignments. *)
Definition with_suspension_depth (d : nat) (s : Session) : Session :=
  {| tempo := tempo s; suspension_depth := d; children := children s;
     ensemble := ensemble s; transcriptions := transcriptions s;
     _listeners := _listeners s; keys_down := keys_down s;
     thread_clock := thread_clock s; open_ports := open_ports s;
     next_handle := next_handle s |}.

Definition with_children (c : list string) (s : Session) : Session :=
  {| tempo := tempo s; suspension_depth := suspension_depth s; children := c;
     ensemble := ensemble s; transcriptions := transcriptions s;
     _listeners := _listeners s; keys_down := keys_down s;
     thread_clock := thread_clock s; open_ports := open_ports s;
     next_handle := next_handle s |}.

Definition with_transcriptions (t : list nat) (s : Session) : Session :=
  {| tempo := tempo s; suspension_depth := suspension_depth s;
     children := children s;
     ensemble := ensemble s; transcriptions := t;
     _listeners := _listeners s; keys_down := keys_down s;
     thread_clock := thread_clock s; open_ports := open_ports s;
     next_handle := next_handle s |}.

Definition with_listeners (l : Listeners) (s : Session) : Session :=
  {| tempo := tempo s; suspension_depth := suspension_depth s;
     children := children s;
     ensemble := ensemble s; transcriptions := transcriptions s;
     _listeners := l; keys_down := keys_down s;
     thread_clock := thread_clock s; open_ports := open_ports s;
     next_handle := next_handle s |}.

Definition with_keys_down (k : list (option string)) (s : Session) : Session :=
  {| tempo := tempo s; suspension_depth := suspension_depth s;
     children := children s;
     ensemble := ensemble s; transcriptions := transcriptions s;
     _listeners := _listeners s; keys_down := k;
     thread_clock := thread_clock s; open_ports := open_ports s;
     next_handle := next_handle s |}.

Definition with_thread_clock (c : option ClockRef) (s : Session) : Session :=
  {| tempo := tempo s; suspension_depth := suspension_depth s;
     children := children s;
     ensemble := ensemble s; transcriptions := transcriptions s;
     _listeners := _listeners s; keys_down := keys_down s;
     thread_clock := c; open_ports := open_ports s;
     next_handle := next_handle s |}.

Definition with_open_ports (p : list (nat * Z)) (s : Session) : Session :=
  {| tempo := tempo s; suspension_depth := suspension_depth s;
     children := children s;
     ensemble := ensemble s; transcriptions := transcriptions s;
     _listeners := _listeners s; keys_down := keys_down s;
     thread_clock := thread_clock s; open_ports := p;
     next_handle := next_handle s |}.

Definition with_next_handle (n : nat) (s : Session) : Session :=
  {| tempo := tempo s; suspension_depth := suspension_depth s;
     children := children s;
     ensemble := ensemble s; transcriptions := transcriptions s;
     _listeners := _listeners s; keys_down := keys_down s;
     thread_clock := thread_clock s; open_ports := open_ports s;
     next_handle := n |}.

Definition with_midi (m : gmap Z nat) (l : Listeners) : Listeners :=
  {| midi := m; osc := osc l; keyboard := keyboard l; mouse := mouse l |}.
Definition with_osc (o : gmap (string * Z) OscEntry) (l : Listeners) : Listeners :=
  {| midi := midi l; osc := o; keyboard := keyboard l; mouse := mouse l |}.
Definition with_keyboard (k : option nat) (l : Listeners) : Listeners :=
  {| midi := midi l; osc := osc l; keyboard := k; mouse := mouse l |}.
Definition with_mouse (m : option nat) (l : Listeners) : Listeners :=
  {| midi := midi l; osc := osc l; keyboard := keyboard l; mouse := m |}.

(** A fresh object: its handle is the next allocation number. *)
Definition fresh : M nat :=
  (h <- gets next_handle ;;
   modify (with_next_handle (S h)) ;;
   ret h)%py.

(** [threading.current_thread().__clock__ = c].  The file imports only
    [Thread] and [current_thread] by name; [threading] is taken to be bound
    (the star import of [._midi] is where it can come from). *)
Definition set_thread_clock (c : option ClockRef) : M unit :=
  (emit (SetThreadClock c) ;;
   modify (with_thread_clock c))%py.

(** Modelled from the spec: [Clock.rouse_and_hold] and
    [Clock.release_from_suspension] belong to the clock class the session
    inherits from, which is not under src/.  The spec gives a clock a
    suspension count (its "suspension depth"), describes the two as paired
    primitives that hold a clock roused for the length of a callback and
    hand it back afterwards, and allows the pairs to nest: rousing adds one
    level of hold, releasing removes one. *)
Definition rouse_and_hold : M unit :=
  (emit RouseAndHold ;;
   modify (fun s => with_suspension_depth (S (suspension_depth s)) s))%py.

(** Modelled from the spec: [Clock.release_from_suspension], the other
    half of the pair above; it removes one level of hold. *)
Definition release_from_suspension : M unit :=
  (emit ReleaseFromSuspension ;;
   modify (fun s => with_suspension_depth (Nat.pred (suspension_depth s)) s))%py.

(** Modelled from the spec: [Clock.fork_unsynchronized] is not under src/.
    The spec's unsynchronized fork starts a free-running child of the
    clock (used for listeners and servers); the child is recorded under
    the name of its target. *)
Definition fork_unsynchronized (target : string) : M unit :=
  (emit (ForkUnsynchronized target) ;;
   modify (fun s => with_children (children s ++ [target]) s))%py.

(** *** What the session finds installed

    [pythonosc] and [pynput] are [None] when the optional package is
    missing; [tkinter] gives the screen size when it can be imported; the
    two MIDI queries come from [._midi], which is not under src/ and is
    taken as given. *)
Record Dependencies : Type := {
  pythonosc : bool;
  pynput : bool;
  tkinter : option (positive * positive);
  get_available_midi_input_devices : list (Z * string);
  get_port_number_of_midi_device : string -> option Z
}.

(** [port_number_or_device_name]: a string names a device, anything else
    is used as the port number. *)
Inductive PortArg : Type :=
| PortNumber (n : Z)
| DeviceName (name : string).

Definition _name_and_number_from_key (key_or_key_code : KeyArg)
  : option string * option Z :=
  match key_or_key_code with
  | NoKey => (None, None)
  | Key name vk => (Some name, vk)
  | KeyCode char vk => (char, vk)
  end.

(** [keys_down.remove(name)]: drops the first occurrence. *)
Fixpoint list_remove (name : option string) (l : list (option string))
  : list (option string) :=
  match l with
  | [] => []
  | x :: rest => if decide (x = name) then rest else x :: list_remove name rest
  end.

Abbreviation OscCallback := (list PyVal -> list (string * PyVal) -> M unit).
Abbreviation KeyCallback := (option string -> option Z -> M unit).
Abbreviation MoveCallback := (num -> num -> M unit).
Abbreviation ScrollCallback := (num -> num -> num -> num -> M unit).
Abbreviation ClickCallback := (num -> num -> string -> M unit).

(** *** The callback wrappers

    Each is a nested function of its [register_*_listener]; the variables
    it closes over are parameters here. *)

(** [register_osc_listener.callback_wrapper] *)
Definition callback_wrapper (callback_function : OscCallback)
    (args : list PyVal) (kwargs : list (string * PyVal)) : M unit :=
  (rouse_and_hold ;;
   set_thread_clock (Some SessionClock) ;;
   callback_function args kwargs ;;
   set_thread_clock None ;;
   release_from_suspension)%py.

(** [register_keyboard_listener.on_press_wrapper]; [None] when no
    [on_press] was given. *)
Definition on_press_wrapper (on_press : option KeyCallback)
  : option (KeyArg -> M unit) :=
  match on_press with
  | Some on_press => Some (fun key_argument =>
      (rouse_and_hold ;;
       set_thread_clock (Some SessionClock) ;;
       let '(name, number) := _name_and_number_from_key key_argument in
       down <- gets keys_down ;;
       (if bool_decide (name ∈ down) then ret tt
        else (modify (with_keys_down (down ++ [name])) ;;
              on_press name number)) ;;
       set_thread_clock None ;;
       release_from_suspension)%py)
  | None => None
  end.

(** [register_keyboard_listener.on_release_wrapper]: with an [on_release]
    it brackets the call; without one it only keeps [keys_down] right. *)
Definition on_release_wrapper (on_release : option KeyCallback)
  : KeyArg -> M unit :=
  match on_release with
  | Some on_release => fun key_argument =>
      (rouse_and_hold ;;
       set_thread_clock (Some SessionClock) ;;
       let '(name, number) := _name_and_number_from_key key_argument in
       down <- gets keys_down ;;
       (if bool_decide (name ∈ down)
        then modify (with_keys_down (list_remove name down))
        else ret tt) ;;
       on_release name number ;;
       set_thread_clock None ;;
       release_from_suspension)%py
  | None => fun key_argument =>
      (let '(name, number) := _name_and_number_from_key key_argument in
       down <- gets keys_down ;;
       if bool_decide (name ∈ down)
       then modify (with_keys_down (list_remove name down))
       else ret tt)%py
  end.

(** [register_mouse_listener.on_move_wrapper] *)
Definition on_move_wrapper (on_move : option MoveCallback) (x_scale y_scale : num)
  : option (num -> num -> M unit) :=
  match on_move with
  | Some on_move => Some (fun x y =>
      (rouse_and_hold ;;
       set_thread_clock (Some SessionClock) ;;
       on_move (x * x_scale)%Q (y * y_scale)%Q ;;
       set_thread_clock None ;;
       release_from_suspension)%py)
  | None => None
  end.

(** [register_mouse_listener.on_scroll_wrapper] *)
Definition on_scroll_wrapper (on_scroll : option ScrollCallback)
    (x_scale y_scale : num) : option (num -> num -> num -> num -> M unit) :=
  match on_scroll with
  | Some on_scroll => Some (fun x y dx dy =>
      (rouse_and_hold ;;
       set_thread_clock (Some SessionClock) ;;
       on_scroll (x * x_scale)%Q (y * y_scale)%Q dx dy ;;
       set_thread_clock None ;;
       release_from_suspension)%py)
  | None => None
  end.

(** [register_mouse_listener.on_click_wrapper]: defined as soon as one of
    [on_press], [on_release] is given, and calls whichever the event asks
    for, given or not. *)
Definition on_click_wrapper (on_press on_release : option ClickCallback)
    (x_scale y_scale : num) : option (num -> num -> string -> bool -> M unit) :=
  if is_not_None on_press || is_not_None on_release then
    Some (fun x y button_name pressed =>
      (rouse_and_hold ;;
       set_thread_clock (Some SessionClock) ;;
       (if pressed : bool
        then call (option_map (fun f => f (x * x_scale)%Q (y * y_scale)%Q button_name) on_press)
        else call (option_map (fun f => f (x * x_scale)%Q (y * y_scale)%Q button_name) on_release)) ;;
       set_thread_clock None ;;
       release_from_suspension)%py)
  else None.

(** *** Registering and removing listeners *)

(** Modelled from the spec: [start_midi_listener] and the listener
    object's [close_port] come from [._midi], which is not under src/; the
    spec leaves MIDI device I/O to that layer.  Recorded here: the first
    opens the port under a new listener object, the second closes that
    object's port. *)
Definition start_midi_listener (port_number : Z) : M nat :=
  (h <- fresh ;;
   emit (StartMidiListener port_number h) ;;
   modify (fun s => with_open_ports (open_ports s ++ [(h, port_number)]) s) ;;
   ret h)%py.

(** Modelled from the spec: the listener object's [close_port] (same
    module); the object no longer holds its port. *)
Definition close_port (h : nat) : M unit :=
  (emit (ClosePort h) ;;
   modify (fun s =>
     with_open_ports (filter (fun hp => hp.1 ≠ h) (open_ports s)) s))%py.

Abbreviation set_midi m :=
  (modify (fun s => with_listeners (with_midi m (_listeners s)) s)).
Abbreviation set_osc o :=
  (modify (fun s => with_listeners (with_osc o (_listeners s)) s)).
Abbreviation set_keyboard k :=
  (modify (fun s => with_listeners (with_keyboard k (_listeners s)) s)).
Abbreviation set_mouse m :=
  (modify (fun s => with_listeners (with_mouse m (_listeners s)) s)).

Section Registration.
Variable deps : Dependencies.

Definition remove_midi_listener (port_number_or_device_name : PortArg) : M unit :=
  let port_number :=
    match port_number_or_device_name with
    | DeviceName name => get_port_number_of_midi_device deps name
    | PortNumber n => Some n
    end in
  (registry <- gets (fun s => midi (_listeners s)) ;;
   match port_number with
   | None => raise ValueError
   | Some port_number =>
       match registry !! port_number with
       | None => raise ValueError
       | Some listener =>
           close_port listener ;;
           set_midi (delete port_number registry)
       end
   end)%py.

Definition register_midi_listener (port_number_or_device_name : PortArg)
    (callback_function : PyVal -> M unit) : M unit :=
  let port_number :=
    match port_number_or_device_name with
    | DeviceName name => get_port_number_of_midi_device deps name
    | PortNumber n => Some n
    end in
  match port_number with
  | None => raise ValueError
  | Some port_number =>
      if bool_decide (port_number ∈ (get_available_midi_input_devices deps).*1)
      then
        (registry <- gets (fun s => midi (_listeners s)) ;;
         (if is_not_None (registry !! port_number)
          then remove_midi_listener (PortNumber port_number)
          else ret tt) ;;
         listener <- start_midi_listener port_number ;;
         registry <- gets (fun s => midi (_listeners s)) ;;
         set_midi (<[port_number := listener]> registry))%py
      else raise ValueError
  end.

Definition register_osc_listener (port : Z) (osc_address_pattern : string)
    (callback_function : OscCallback) (ip_address : string) : M unit :=
  if pythonosc deps then
    (registry <- gets (fun s => osc (_listeners s)) ;;
     (match registry !! (ip_address, port) with
      | None =>
          d <- fresh ;;
          emit (NewDispatcher d) ;;
          srv <- fresh ;;
          emit (NewOscServer ip_address port srv) ;;
          set_osc (<[(ip_address, port) := {| server := srv; dispatcher := d |}]> registry) ;;
          fork_unsynchronized "serve_forever"
      | Some _ => ret tt
      end) ;;
     registry <- gets (fun s => osc (_listeners s)) ;;
     match registry !! (ip_address, port) with
     | Some entry =>
         emit (OscMap (dispatcher entry) osc_address_pattern
                 (callback_wrapper callback_function))
     | None => raise KeyError
     end)%py
  else raise ImportError.

Definition remove_osc_listener (port : Z) (ip_address : string) : M unit :=
  (registry <- gets (fun s => osc (_listeners s)) ;;
   match registry !! (ip_address, port) with
   | Some entry =>
       emit (OscShutdown (server entry)) ;;
       set_osc (delete (ip_address, port) registry)
   | None => ret tt
   end)%py.

Definition remove_keyboard_listener : M unit :=
  (k <- gets (fun s => keyboard (_listeners s)) ;;
   match k with
   | Some listener => emit (StopListener listener) ;; set_keyboard None
   | None => ret tt
   end)%py.

Definition register_keyboard_listener (on_press on_release : option KeyCallback)
    (suppress : bool) : M unit :=
  if pynput deps then
    (remove_keyboard_listener ;;
     modify (with_keys_down []) ;;
     listener <- fresh ;;
     emit (StartKeyboardListener listener
             (on_press_wrapper on_press)
             (Some (on_release_wrapper on_release))
             suppress) ;;
     set_keyboard (Some listener))%py
  else raise ImportError.

Definition remove_mouse_listener : M unit :=
  (m <- gets (fun s => mouse (_listeners s)) ;;
   match m with
   | Some listener => emit (StopListener listener) ;; set_mouse None
   | None => ret tt
   end)%py.

Definition register_mouse_listener (on_move : option MoveCallback)
    (on_press on_release : option ClickCallback)
    (on_scroll : option ScrollCallback)
    (suppress relative_coordinates : bool) : M unit :=
  if pynput deps then
    (remove_mouse_listener ;;
     scale <- (if relative_coordinates then
                 match tkinter deps with
                 | None => raise ImportError
                 | Some (screenwidth, screenheight) =>
                     emit TkRoot ;;
                     ret (1 # screenwidth, 1 # screenheight)%Q
                 end
               else ret (1, 1)%Q) ;;
     let '(x_scale, y_scale) := scale in
     listener <- fresh ;;
     emit (StartMouseListener listener
             (on_move_wrapper on_move x_scale y_scale)
             (on_click_wrapper on_press on_release x_scale y_scale)
             (on_scroll_wrapper on_scroll x_scale y_scale)
             suppress) ;;
     set_mouse (Some listener))%py
  else raise ImportError.
End Registration.

(** *** Transcription and persistence *)

(** [instrument_or_instruments]: one instrument or a list of them. *)
Inductive InstrumentsArg : Type :=
| OneInstrument (i : string)
| InstrumentList (l : list string).

Section Inherited.
(** [Transcriber.start_transcribing] and [Ensemble._to_json] are the
    inherited methods [Session] calls, the second on the session itself;
    their classes are not under src/ and they are taken as given. *)
Variable Transcriber_start_transcribing :
  InstrumentsArg -> ClockRef -> string -> M nat.
Variable Ensemble_to_json : Session -> gmap string Json.

Definition start_transcribing (instrument_or_instruments : option InstrumentsArg)
    (clock : option ClockRef) (units : string) : M nat :=
  (session_instruments <- gets (fun s => instruments (ensemble s)) ;;
   if negb (is_not_None instrument_or_instruments)
      && (length session_instruments =? 0)%nat
   then raise ValueError
   else
     Transcriber_start_transcribing
       (match instrument_or_instruments with
        | None => InstrumentList session_instruments
        | Some given => given
        end)
       (match clock with
        | None => SessionClock
        | Some given => given
        end)
       units)%py.

Definition _to_json (self : Session) : gmap string Json :=
  let json_object := Ensemble_to_json self in
  <["tempo" := JNum (tempo self)]> json_object.
End Inherited.

(** Modelled from the spec: [Ensemble._to_json] is defined in
    [.instruments], which is not under src/.  The spec has the session
    serialise "only top-level tempo and ensemble configuration": what the
    inherited serialiser returns is the ensemble configuration of the
    object it is called on, so it is decided by that object's ensemble
    attributes. *)
Definition ensemble_configuration
    (Ensemble_to_json : Session -> gmap string Json) : Prop :=
  forall s s', ensemble s = ensemble s' -> Ensemble_to_json s = Ensemble_to_json s'.

(** One such serialiser: the attributes [Ensemble.__init__] is given, the
    default spelling policy and the instruments, the keys [_from_json]
    reads back. *)
Definition ensemble_json (self : Session) : gmap string Json :=
  list_to_map
    [("default_soundfont", JStr (default_soundfont (ensemble self)));
     ("default_audio_driver", JStr (default_audio_driver (ensemble self)));
     ("default_midi_output_device",
      JStr (default_midi_output_device (ensemble self)));
     ("default_spelling_policy",
      match default_spelling_policy (ensemble self) with
      | Some policy => JStr policy
      | None => JNull
      end);
     ("instruments", JArr (JStr <$> instruments (ensemble self)))].

(** *** The server thread *)

(** Modelled from the spec: [current_clock] and [Clock.wait_forever]
    belong to the clock library, which is not under src/.  The spec has
    [wait_forever] suspend the calling unit of execution indefinitely
    while it stays responsive to external wake signals, and has a
    suspended clock run again on an explicit release.  So the call is an
    interaction with the clock: the thread is suspended in it, control is
    with the clock, and the call comes back when a wake signal releases
    the thread.  The thread's three calls are the events of its tree. *)
Variant serverE : Type -> Type :=
| SetCurrentThreadClock (c : option ClockRef) : serverE unit
| CurrentClock : serverE ClockRef
| ClockWaitForever (c : ClockRef) : serverE unit.

(** [run_as_server.run_server]: the [while True] loop, and the function. *)
Definition server_loop : itree serverE unit :=
  ITree.iter (fun _ : unit =>
    ITree.bind (ITree.trigger CurrentClock) (fun clock =>
    ITree.bind (ITree.trigger (ClockWaitForever clock)) (fun _ =>
    Ret (inl tt)))) tt.

Definition run_server : itree serverE unit :=
  ITree.bind (ITree.trigger (SetCurrentThreadClock (Some SessionClock)))
    (fun _ => server_loop).

(** *** Vocabulary for the statements about listeners *)

(** One delivery of an event to a wrapper the session registered: the user
    callbacks given at registration, what the wrapper closed over, and the
    arguments the listener library passes. *)
Inductive ListenerCall : Type :=
| OscMessage (callback_function : OscCallback)
    (args : list PyVal) (kwargs : list (string * PyVal))
| KeyPress (on_press : KeyCallback) (key_argument : KeyArg)
| KeyRelease (on_release : KeyCallback) (key_argument : KeyArg)
| MouseMove (on_move : MoveCallback) (x_scale y_scale x y : num)
| MouseScroll (on_scroll : ScrollCallback) (x_scale y_scale x y dx dy : num)
| MouseClick (on_press on_release : option ClickCallback)
    (x_scale y_scale x y : num) (button_name : string) (pressed : bool).

(** The registered wrapper applied to the delivered arguments; [None] when
    the registration installed no wrapper for that kind of event. *)
Definition wrapper_of (c : ListenerCall) : option (M unit) :=
  match c with
  | OscMessage f args kwargs => Some (callback_wrapper f args kwargs)
  | KeyPress f key => (fun w => w key) <$> on_press_wrapper (Some f)
  | KeyRelease f key => Some (on_release_wrapper (Some f) key)
  | MouseMove f xs ys x y => (fun w => w x y) <$> on_move_wrapper (Some f) xs ys
  | MouseScroll f xs ys x y dx dy =>
      (fun w => w x y dx dy) <$> on_scroll_wrapper (Some f) xs ys
  | MouseClick p r xs ys x y b pressed =>
      (fun w => w x y b pressed) <$> on_click_wrapper p r xs ys
  end.

(** The state right after the wrapper's first two lines. *)
Definition entered (s : Session) : Session :=
  with_thread_clock (Some SessionClock)
    (with_suspension_depth (S (suspension_depth s)) s).

(** The state in which the user callback is entered: the key wrappers have
    brought [keys_down] up to date by then. *)
Definition callback_state (c : ListenerCall) (s : Session) : Session :=
  match c with
  | KeyPress _ key =>
      let name := (_name_and_number_from_key key).1 in
      if bool_decide (name ∈ keys_down s) then entered s
      else with_keys_down (keys_down s ++ [name]) (entered s)
  | KeyRelease _ key =>
      let name := (_name_and_number_from_key key).1 in
      if bool_decide (name ∈ keys_down s)
      then with_keys_down (list_remove name (keys_down s)) (entered s)
      else entered s
  | _ => entered s
  end.

(** The call the wrapper makes to user code when it starts from [s]: a
    repeated key press makes none, a click for which no callback was given
    calls [None]. *)
Definition user_callback (c : ListenerCall) (s : Session) : M unit :=
  match c with
  | OscMessage f args kwargs => f args kwargs
  | KeyPress f key =>
      let '(name, number) := _name_and_number_from_key key in
      if bool_decide (name ∈ keys_down s) then ret tt else f name number
  | KeyRelease f key =>
      let '(name, number) := _name_and_number_from_key key in f name number
  | MouseMove f xs ys x y => f (x * xs)%Q (y * ys)%Q
  | MouseScroll f xs ys x y dx dy => f (x * xs)%Q (y * ys)%Q dx dy
  | MouseClick p r xs ys x y b pressed =>
      call ((fun f => f (x * xs)%Q (y * ys)%Q b) <$> (if pressed then p else r))
  end.

(** What a wrapper's last two lines do to the state the callback left. *)
Definition handed_back (s : Session) : Session :=
  with_suspension_depth (Nat.pred (suspension_depth s)) (with_thread_clock None s).

(** The run of a wrapper put together from the run of the user callback
    inside it. *)
Definition bracketed (r : run Session Event unit) : run Session Event unit :=
  match out r with
  | Returned _ =>
      Run ([RouseAndHold; SetThreadClock (Some SessionClock)] ++ trace r
             ++ [SetThreadClock None; ReleaseFromSuspension])
          (handed_back (final r)) (Returned tt)
  | Raised e =>
      Run ([RouseAndHold; SetThreadClock (Some SessionClock)] ++ trace r)
          (final r) (Raised e)
  end.

(** One call of a registration method, with its arguments. *)
Inductive Registration : Type :=
| MidiListener (port_number_or_device_name : PortArg)
    (callback_function : PyVal -> M unit)
| OscListener (port : Z) (osc_address_pattern : string)
    (callback_function : OscCallback) (ip_address : string)
| KeyboardListener (on_press on_release : option KeyCallback) (suppress : bool)
| MouseListener (on_move : option MoveCallback)
    (on_press on_release : option ClickCallback)
    (on_scroll : option ScrollCallback) (suppress relative_coordinates : bool).

Definition register (deps : Dependencies) (r : Registration) : M unit :=
  match r with
  | MidiListener p f => register_midi_listener deps p f
  | OscListener port pattern f ip => register_osc_listener deps port pattern f ip
  | KeyboardListener on_press on_release suppress =>
      register_keyboard_listener deps on_press on_release suppress
  | MouseListener on_move on_press on_release on_scroll suppress relative =>
      register_mouse_listener deps on_move on_press on_release on_scroll
        suppress relative
  end.

(** A listener library (python-osc, pynput) calling, with the arguments
    of one event, a function it was handed in the call [e].  A MIDI
    callback is not among these: [register_midi_listener] passes it on to
    [start_midi_listener] as it is, together with the session as clock. *)
Inductive delivers : Event -> M unit -> Prop :=
| osc_message h pattern handler args kwargs :
    delivers (OscMap h pattern handler) (handler args kwargs)
| key_pressed h on_press on_release suppress key :
    delivers (StartKeyboardListener h (Some on_press) on_release suppress)
      (on_press key)
| key_released h on_press on_release suppress key :
    delivers (StartKeyboardListener h on_press (Some on_release) suppress)
      (on_release key)
| mouse_moved h on_move on_click on_scroll suppress x y :
    delivers (StartMouseListener h (Some on_move) on_click on_scroll suppress)
      (on_move x y)
| mouse_clicked h on_move on_click on_scroll suppress x y button pressed :
    delivers (StartMouseListener h on_move (Some on_click) on_scroll suppress)
      (on_click x y button pressed)
| mouse_scrolled h on_move on_click on_scroll suppress x y dx dy :
    delivers (StartMouseListener h on_move on_click (Some on_scroll) suppress)
      (on_scroll x y dx dy).

(** The scale [register_mouse_listener] gives its wrappers. *)
Definition scale (deps : Dependencies) (relative_coordinates : bool) : num * num :=
  if relative_coordinates then
    match tkinter deps with
    | Some (screenwidth, screenheight) => (1 # screenwidth, 1 # screenheight)%Q
    | None => (1, 1)%Q
    end
  else (1, 1)%Q.

(** The listener call [c] reaches a user callback that the registration
    [r] was given. *)
Definition given (deps : Dependencies) (r : Registration) (c : ListenerCall) : Prop :=
  match r, c with
  | OscListener _ _ f _, OscMessage f' _ _ => f' = f
  | KeyboardListener (Some f) _ _, KeyPress f' _ => f' = f
  | KeyboardListener _ (Some f) _, KeyRelease f' _ => f' = f
  | MouseListener (Some f) _ _ _ _ relative, MouseMove f' xs ys _ _ =>
      f' = f /\ (xs, ys) = scale deps relative
  | MouseListener _ _ _ (Some f) _ relative, MouseScroll f' xs ys _ _ _ _ =>
      f' = f /\ (xs, ys) = scale deps relative
  | MouseListener _ on_press on_release _ _ relative, MouseClick p r xs ys _ _ _ _ =>
      p = on_press /\ r = on_release /\
      is_not_None on_press || is_not_None on_release = true /\
      (xs, ys) = scale deps relative
  | _, _ => False
  end.

(** How a registration fails at set-up on a machine, when it does: the
    exception, and whether the method has got as far as stopping the mouse
    listener that was running. *)
Definition setup_failure (deps : Dependencies) (r : Registration)
  : option (exn * bool) :=
  match r with
  | MidiListener p _ =>
      match (match p with
             | DeviceName name => get_port_number_of_midi_device deps name
             | PortNumber n => Some n
             end) with
      | None => Some (ValueError, false)
      | Some n =>
          if bool_decide (n ∈ (get_available_midi_input_devices deps).*1)
          then None else Some (ValueError, false)
      end
  | OscListener _ _ _ _ =>
      if pythonosc deps then None else Some (ImportError, false)
  | KeyboardListener _ _ _ =>
      if pynput deps then None else Some (ImportError, false)
  | MouseListener _ _ _ _ _ relative =>
      if pynput deps then
        if relative && negb (is_not_None (tkinter deps))
        then Some (ImportError, true) else None
      else Some (ImportError, false)
  end.

(** User code that leaves the thread's current clock alone. *)
Definition keeps_thread_clock {A} (code : M A) : Prop :=
  forall s, thread_clock (final (code s)) = thread_clock s.

(** A machine with neither optional package and one MIDI input port. *)
Definition bare_machine : Dependencies :=
  {| pythonosc := false; pynput := false; tkinter := None;
     get_available_midi_input_devices := [(0, "Midi Through")];
     get_port_number_of_midi_device :=
       fun name => if String.eqb name "Midi Through" then Some 0 else None |}.

(** *** Vocabulary for the statements about the MIDI registry *)

(** A call on the MIDI registry, and the session after a sequence of such
    calls; a call that raises leaves the session where the exception left
    it and the next call goes on from there. *)
Inductive MidiCall : Type :=
| Register (port_number_or_device_name : PortArg) (callback_function : PyVal -> M unit)
| Remove (port_number_or_device_name : PortArg).

Definition midi_call (deps : Dependencies) (c : MidiCall) : M unit :=
  match c with
  | Register p f => register_midi_listener deps p f
  | Remove p => remove_midi_listener deps p
  end.

Fixpoint after_calls (deps : Dependencies) (calls : list MidiCall) (s : Session)
  : Session :=
  match calls with
  | [] => s
  | c :: rest => after_calls deps rest (final (midi_call deps c s))
  end.

(** The registry and the ports held open agree: a listener object holds
    port [p] open exactly when the registry has it under [p]; listener
    objects are distinct and were allocated before [next]. *)
Definition consistent (open : list (nat * Z)) (registry : gmap Z nat) (next : nat)
  : Prop :=
  (forall h p, (h, p) ∈ open <-> registry !! p = Some h) /\
  NoDup open.*1 /\
  (forall h, h ∈ open.*1 -> (h < next)%nat).

Definition midi_consistent (s : Session) : Prop :=
  consistent (open_ports s) (midi (_listeners s)) (next_handle s).

(** The listener objects holding port [p] open. *)
Definition listeners_on (p : Z) (s : Session) : list (nat * Z) :=
  filter (fun hp => hp.2 = p) (open_ports s).

(** A machine with both optional packages and two MIDI input ports. *)
Definition studio_machine : Dependencies :=
  {| pythonosc := true; pynput := true; tkinter := Some (1920, 1080)%positive;
     get_available_midi_input_devices := [(0, "Midi Through"); (1, "Launchpad")];
     get_port_number_of_midi_device :=
       fun name => if String.eqb name "Launchpad" then Some 1
                   else if String.eqb name "Midi Through" then Some 0 else None |}.

(** User code that calls back into wrapped callbacks: plain work, one
    piece after another, or an OSC-wrapped callback run from inside. *)
Inductive Reentry : Type :=
| UserWork (tag : string)
| Then (first second : Reentry)
| Wrapped (body : Reentry).

Fixpoint perform (p : Reentry) : M unit :=
  match p with
  | UserWork tag => emit (UserCode tag)
  | Then a b => (perform a ;; perform b)%py
  | Wrapped body => callback_wrapper (fun _ _ => perform body) [] []
  end.

(** A session as [__init__] leaves it, with an empty ensemble. *)
Definition new_session (tempo : num) : Session :=
  {| tempo := tempo; suspension_depth := 0; children := [];
     ensemble := {| default_soundfont := "default";
                    default_audio_driver := "default";
                    default_midi_output_device := "default";
                    default_spelling_policy := None;
                    instruments := [] |};
     transcriptions := [];
     _listeners := {| midi := ∅; osc := ∅; keyboard := None; mouse := None |};
     keys_down := [];
     thread_clock := None;
     open_ports := [];
     next_handle := 0 |}.

(** A user callback that fails. *)
Definition failing_callback : OscCallback :=
  fun _ _ => raise (UserException "boom").

(** *** Vocabulary for further statements *)

(** A key callback cannot reach [keys_down], which is local to the
    registration that made the wrappers. *)
Definition keeps_keys_down (f : KeyCallback) : Prop :=
  forall name number s, keys_down (final (f name number s)) = keys_down s.

(** The bare bracket: what a wrapper logs when it calls no user code. *)
Definition bare_bracket : list Event :=
  [RouseAndHold; SetThreadClock (Some SessionClock);
   SetThreadClock None; ReleaseFromSuspension].

(** Calls on the keyboard and mouse entries of the registry, the log and
    session after a sequence of them (a call that raises leaves its log
    and state behind and the next call goes on from there). *)
Inductive InputCall : Type :=
| RegisterKeyboard (on_press on_release : option KeyCallback) (suppress : bool)
| RemoveKeyboard
| RegisterMouse (on_move : option MoveCallback)
    (on_press on_release : option ClickCallback)
    (on_scroll : option ScrollCallback) (suppress relative_coordinates : bool)
| RemoveMouse.

Definition input_call (deps : Dependencies) (c : InputCall) : M unit :=
  match c with
  | RegisterKeyboard p r suppress => register_keyboard_listener deps p r suppress
  | RemoveKeyboard => remove_keyboard_listener
  | RegisterMouse m p r sc suppress rel =>
      register_mouse_listener deps m p r sc suppress rel
  | RemoveMouse => remove_mouse_listener
  end.

Fixpoint after_input_calls (deps : Dependencies) (calls : list InputCall)
    (log : list Event) (s : Session) : list Event * Session :=
  match calls with
  | [] => (log, s)
  | c :: rest =>
      let r := input_call deps c s in
      after_input_calls deps rest (log ++ trace r) (final r)
  end.

(** Input listeners a log has started, and those it has stopped. *)
Definition started (log : list Event) : list nat :=
  omap (fun e => match e with
                 | StartKeyboardListener h _ _ _ => Some h
                 | StartMouseListener h _ _ _ _ => Some h
                 | _ => None
                 end) log.

Definition stopped (log : list Event) : list nat :=
  omap (fun e => match e with
                 | StopListener h => Some h
                 | _ => None
                 end) log.

(** Every input listener started and not stopped is the one the registry
    holds, and the other way round; the handles in the log are older than
    [next]; keyboard and mouse never hold the same listener. *)
Definition accounted (log : list Event) (kb ms : option nat) (next : nat) : Prop :=
  (forall h, (h ∈ started log /\ h ∉ stopped log) <-> (kb = Some h \/ ms = Some h)) /\
  (forall h, h ∈ started log \/ h ∈ stopped log -> (h < next)%nat) /\
  (kb = ms -> kb = None).

Definition inputs_accounted (log : list Event) (s : Session) : Prop :=
  accounted log (keyboard (_listeners s)) (mouse (_listeners s)) (next_handle s).

End Session.

(** ** The Playcorder ([src/source/playcorderNew.py]) *)

Module Playcorder.

(** A clock of the tree: name, rate, the readings [time()] and [beats()]
    would give now, and the clocks forked from it. *)
#[warnings="-register-all"]
Inductive Clock : Type :=
| MkClock (name : string) (rate time beats : num) (children : list Clock).

Definition clock_name (c : Clock) : string := let 'MkClock n _ _ _ _ := c in n.
Definition clock_rate (c : Clock) : num := let 'MkClock _ r _ _ _ := c in r.
Definition clock_time (c : Clock) : num := let 'MkClock _ _ t _ _ := c in t.
Definition clock_beats (c : Clock) : num := let 'MkClock _ _ _ b _ := c in b.
Definition clock_children (c : Clock) : list Clock := let 'MkClock _ _ _ _ k := c in k.

(** Instruments are shared objects (the ensemble and the performance
    parts point at the same ones), so they live in a store keyed by
    identity. *)
Record PerformancePart : Type := {
  part_id : nat;
  instrument : nat
}.

Record Performance : Type := {
  performance_id : nat;
  parts : list PerformancePart
}.

Record Instrument : Type := {
  sounding : list nat;
  _performance_part : option PerformancePart
}.

(** The [clock] argument of [start_recording]: a string or a clock. *)
Inductive ClockArg : Type :=
| ClockStr (s : string)
| ClockObj (c : Clock).

(** What [process_function] shows to [inspect.signature]. *)
Record Action : Type := {
  action_name : string;
  parameters : nat
}.

Record Playcorder : Type := {
  instruments : gmap nat Instrument;
  ensemble_instruments : list nat;
  master_clock : Clock;
  _recording_clock : option ClockArg;
  _recording_start_time : option num;
  performance : option Performance;
  next_object : nat
}.

Inductive Event : Type :=
| Warning (message : string)
| Scheduled (action : Action) (clock : Clock)
| EndAllNotes (instrument : nat).

Abbreviation M := (Py Playcorder Event).

Definition with_instruments (i : gmap nat Instrument) (s : Playcorder) : Playcorder :=
  {| instruments := i; ensemble_instruments := ensemble_instruments s;
     master_clock := master_clock s; _recording_clock := _recording_clock s;
     _recording_start_time := _recording_start_time s;
     performance := performance s; next_object := next_object s |}.

Definition with_master_clock (c : Clock) (s : Playcorder) : Playcorder :=
  {| instruments := instruments s; ensemble_instruments := ensemble_instruments s;
     master_clock := c; _recording_clock := _recording_clock s;
     _recording_start_time := _recording_start_time s;
     performance := performance s; next_object := next_object s |}.

Definition with_recording_clock (c : option ClockArg) (s : Playcorder) : Playcorder :=
  {| instruments := instruments s; ensemble_instruments := ensemble_instruments s;
     master_clock := master_clock s; _recording_clock := c;
     _recording_start_time := _recording_start_time s;
     performance := performance s; next_object := next_object s |}.

Definition with_recording_start_time (t : option num) (s : Playcorder) : Playcorder :=
  {| instruments := instruments s; ensemble_instruments := ensemble_instruments s;
     master_clock := master_clock s; _recording_clock := _recording_clock s;
     _recording_start_time := t;
     performance := performance s; next_object := next_object s |}.

Definition with_performance (p : option Performance) (s : Playcorder) : Playcorder :=
  {| instruments := instruments s; ensemble_instruments := ensemble_instruments s;
     master_clock := master_clock s; _recording_clock := _recording_clock s;
     _recording_start_time := _recording_start_time s;
     performance := p; next_object := next_object s |}.

Definition with_next_object (n : nat) (s : Playcorder) : Playcorder :=
  {| instruments := instruments s; ensemble_instruments := ensemble_instruments s;
     master_clock := master_clock s; _recording_clock := _recording_clock s;
     _recording_start_time := _recording_start_time s;
     performance := performance s; next_object := n |}.

Definition fresh : M nat :=
  (n <- gets next_object ;;
   modify (with_next_object (S n)) ;;
   ret n)%py.

Definition with_part (p : option PerformancePart) (i : Instrument) : Instrument :=
  {| sounding := sounding i; _performance_part := p |}.

(** [instrument._performance_part = p] on the shared object. *)
Definition set_performance_part (i : nat) (p : option PerformancePart) : M unit :=
  modify (fun s => with_instruments (alter (with_part p) i (instruments s)) s).

(** *** Collaborators that are not under src/ *)

(** Modelled from the spec: [Clock.fork] of [.clock].  The spec's [fork]
    creates a child clock and schedules the action to run concurrently,
    passing the child clock to the action, and returns the child clock
    immediately. *)
Definition Clock_fork (process_function : Action) (name : string)
    (initial_rate : num) : M Clock :=
  (master <- gets master_clock ;;
   let child := MkClock name initial_rate 0 0 [] in
   modify (with_master_clock
             (MkClock (clock_name master) (clock_rate master) (clock_time master)
                (clock_beats master) (clock_children master ++ [child]))) ;;
   emit (Scheduled process_function child) ;;
   ret child)%py.

(** Modelled from the spec: [Performance()] of [.performance].  The spec
    only names the recorder that collects what instruments play; the model
    of a performance is what [stop_recording] reads back from it, its
    parts and their instruments.  A new performance has no parts. *)
Definition new_performance : M unit :=
  (n <- fresh ;;
   modify (with_performance (Some {| performance_id := n; parts := [] |})))%py.

(** Modelled from the spec: [Performance.new_part] (same module); a part
    for the instrument joins the performance's parts and is returned. *)
Definition new_part (instrument : nat) : M PerformancePart :=
  (perf <- gets performance ;;
   match perf with
   | None => raise AttributeError
   | Some perf =>
       n <- fresh ;;
       let part := {| part_id := n; instrument := instrument |} in
       modify (with_performance
                 (Some {| performance_id := performance_id perf;
                          parts := parts perf ++ [part] |})) ;;
       ret part
   end)%py.

(** Modelled from the spec: [end_all_notes] of the instrument class
    ([.instruments]); the instrument stops sounding, its performance part
    is left alone. *)
Definition end_all_notes (i : nat) : M unit :=
  (emit (EndAllNotes i) ;;
   modify (fun s =>
     with_instruments
       (alter (fun x => {| sounding := []; _performance_part := _performance_part x |})
          i (instruments s)) s))%py.

(** *** Clock stuff *)

Definition time : M num := gets (fun s => clock_time (master_clock s)).
Definition beats : M num := gets (fun s => clock_beats (master_clock s)).

Definition more_than_one_parameter : string :=
  "The function passed to fork should take one argument, which is the clock used for that thread. Additional arguments are not used.".
Definition no_parameter : string :=
  "The function passed to fork must take one argument, which is the clock used for that thread, but none were given.".

Definition fork (process_function : Action) (name : string) (initial_rate : num)
  : M (option Clock) :=
  let num_params := parameters process_function in
  (if (1 <? num_params)%nat then
     emit (Warning more_than_one_parameter) ;;
     child <- Clock_fork process_function name initial_rate ;;
     ret (Some child)
   else if (num_params =? 0)%nat then
     emit (Warning no_parameter) ;;
     ret None
   else
     child <- Clock_fork process_function name initial_rate ;;
     ret (Some child))%py.

(** Modelled from the spec: [Clock.wait] is not under src/.  The spec has
    [wait] suspend the calling unit of execution until the time has
    elapsed on the clock, a suspended clock running again on timer expiry
    or on an explicit release.  So the call is an interaction with the
    master clock: the thread is suspended in it, control is with the
    clock, and the call comes back when the clock lets the thread run. *)
Variant clockE : Type -> Type :=
| MasterClockWait (seconds : num) : clockE unit.

(** [wait] hands over to the master clock; [wait_forever] is
    [while True: self.wait(1.0)]. *)
Definition wait (seconds : num) : itree clockE unit :=
  ITree.trigger (MasterClockWait seconds).

Definition wait_forever : itree clockE unit :=
  ITree.iter (fun _ : unit => ITree.bind (wait 1) (fun _ => Ret (inl tt))) tt.

(** *** Recording stuff *)

Definition start_recording (which_parts : option (list nat)) (clock : ClockArg)
  : M unit :=
  (master <- gets master_clock ;;
   let clock :=
     match clock with
     | ClockStr s => if String.eqb s "master" then ClockObj master else clock
     | ClockObj _ => clock
     end in
   (if match clock with
       | ClockStr s => String.eqb s "absolute"
       | ClockObj _ => true
       end
    then ret tt else raise AssertionError) ;;
   modify (with_recording_clock (Some clock)) ;;
   start <- match clock with
            | ClockStr s => if String.eqb s "absolute" then time
                            else raise AttributeError
            | ClockObj c => ret (clock_beats c)
            end ;;
   modify (with_recording_start_time (Some start)) ;;
   ensemble <- gets ensemble_instruments ;;
   let which_parts :=
     match which_parts with
     | None => ensemble
     | Some given => given
     end in
   new_performance ;;
   for_each which_parts (fun instrument =>
     new_part <- new_part instrument ;;
     set_performance_part instrument (Some new_part)))%py.

Definition is_recording (self : Playcorder) : bool :=
  is_not_None (_recording_start_time self).

Definition stop_recording : M Performance :=
  (perf <- gets performance ;;
   match perf with
   | None => raise AttributeError
   | Some perf =>
       for_each (parts perf) (fun part =>
         let instrument := instrument part in
         end_all_notes instrument ;;
         set_performance_part instrument None) ;;
       modify (with_recording_start_time None) ;;
       perf <- gets performance ;;
       match perf with
       | None => raise AttributeError
       | Some perf => ret perf
       end
   end)%py.

(** *** Vocabulary for the statements *)

(** A playcorder as [__init__] leaves it, over the given instruments. *)
Definition new_playcorder (ensemble : list nat) : Playcorder :=
  {| instruments :=
       list_to_map ((fun i => (i, {| sounding := []; _performance_part := None |}))
                      <$> ensemble);
     ensemble_instruments := ensemble;
     master_clock := MkClock "MASTER" 1 0 0 [];
     _recording_clock := None;
     _recording_start_time := None;
     performance := None;
     next_object := 0 |}.

(** The instrument, if it is in the store, has no performance part. *)
Definition cleared (i : nat) (s : Playcorder) : Prop :=
  forall x, instruments s !! i = Some x -> _performance_part x = None.

(** The playcorder when [start_recording] reaches its loop: recording
    clock and start time are set and the new performance has no part. *)
Definition about_to_record (clock : ClockArg) (start : num) (s : Playcorder)
  : Playcorder :=
  with_performance (Some {| performance_id := next_object s; parts := [] |})
    (with_next_object (S (next_object s))
       (with_recording_start_time (Some start)
          (with_recording_clock (Some clock) s))).

(** The two loop bodies of the recording methods. *)
Definition give_part (instrument : nat) : M unit :=
  (new_part <- new_part instrument ;;
   set_performance_part instrument (Some new_part))%py.

Definition take_part (part : PerformancePart) : M unit :=
  (let instrument := instrument part in
   end_all_notes instrument ;;
   set_performance_part instrument None)%py.

(** *** More of the recording methods *)

(** [get_recording_beat]: the reading of the recording clock less the
    start time.  A string other than ["absolute"] has no [beats], [None]
    has none either, and a number less [None] is a [TypeError]. *)
Definition get_recording_beat : M num :=
  (recording_clock <- gets _recording_clock ;;
   start <- gets _recording_start_time ;;
   now <- match recording_clock with
          | Some (ClockStr s) =>
              if String.eqb s "absolute" then time else raise AttributeError
          | Some (ClockObj c) => ret (clock_beats c)
          | None => raise AttributeError
          end ;;
   match start with
   | Some start => ret (now - start)%Q
   | None => raise TypeError
   end)%py.

(** The clock arguments [start_recording] accepts. *)
Definition accepted_clock (clock : ClockArg) : bool :=
  match clock with
  | ClockStr s => String.eqb s "master" || String.eqb s "absolute"
  | ClockObj _ => true
  end.

(** A recording clock that [get_recording_beat] can read: the string
    ["absolute"] or a clock object. *)
Definition readable (clock : option ClockArg) : Prop :=
  match clock with
  | Some (ClockStr str) => String.eqb str "absolute" = true
  | Some (ClockObj _) => True
  | None => False
  end.

End Playcorder.

(** ** The MusicXML components ([src/source/music_xml.py]) *)

Module MusicXML.

(** The exceptions this file raises or lets through, and results. *)
Inductive error : Type :=
| ZeroDivisionError
| XKeyError
| IndexError
| XAssertionError
| XValueError
| XAttributeError
| OverflowError.

Inductive result (A : Type) : Type :=
| Ok (a : A)
| Err (e : error).
Arguments Ok {A} a.
Arguments Err {A} e.

(** [args[0] * args[1] // math.gcd(args[0], args[1])] *)
Definition lcm_of_two (a b : Z) : result Z :=
  if Z.gcd a b =? 0 then Err ZeroDivisionError
  else Ok (a * b / Z.gcd a b).

(** [least_common_multiple], on its tuple of integer arguments. *)
Fixpoint least_common_multiple (args : list Z) : result Z :=
  match args with
  | [] => Ok 1
  | [a] => Ok a
  | [a; b] => lcm_of_two a b
  | a :: rest =>
      match least_common_multiple rest with
      | Ok m => lcm_of_two a m
      | Err e => Err e
      end
  end.

(** [Duration.length_to_note_type], lengths in quarter notes (all of them
    powers of two, so exact), and [Duration.note_type_to_num_beams] as the
    file spells it. *)
Definition length_to_note_type : list (num * string) :=
  [(8, "breve"); (4, "whole"); (2, "half"); (1, "quarter");
   (1 # 2, "eighth"); (1 # 4, "16th"); (1 # 8, "32nd"); (1 # 16, "64th");
   (1 # 32, "128th"); (1 # 64, "256th"); (1 # 128, "512th");
   (1 # 256, "1024th")]%Q.

Definition note_type_to_num_beams : gmap string nat :=
  list_to_map
    [("breve", 0); ("whole", 0); ("half", 0); ("quarter", 0); ("eighth", 1);
     ("16th", 2); ("32nd:", 3); ("64th", 4); ("128th", 5); ("256th", 6);
     ("512th", 7); ("1024th", 8)]%nat.

(** A [Duration]: the constructor accepts the note types that are values
    of [length_to_note_type]. *)
Record Duration : Type := {
  note_type : string;
  num_dots : nat;
  tuplet_ratio : option (list num);
  duration_divisions : Z
}.

Definition valid_note_type (t : string) : bool :=
  bool_decide (t ∈ length_to_note_type.*2).

(** [Duration.num_beams] *)
Definition Duration_num_beams (self : Duration) : result nat :=
  match note_type_to_num_beams !! note_type self with
  | Some n => Ok n
  | None => Err XKeyError
  end.

(** A [Pitch]. *)
Record Pitch : Type := {
  step : string;
  octave : Z;
  alteration : num
}.

(** What an [_XMLNote] holds as its pitch: [None] for a rest, the string
    ["bar rest"], or a [Pitch]; and as its duration: a [Duration], or a
    plain length for a bar rest. *)
Inductive PitchArg : Type :=
| NoPitch
| BarRestPitch
| APitch (p : Pitch).

Inductive DurationArg : Type :=
| ADuration (d : Duration)
| ALength (quarters : num).

Record XMLNote : Type := {
  pitch : PitchArg;
  duration : DurationArg;
  divisions : Z;
  ties : option string;
  notations : list string;
  articulations : list string;
  tuplet_bracket : option string;
  notehead : option string;
  beams : gmap nat string;
  is_chord_member : bool;
  voice : option Z;
  staff : option Z
}.

(** [_XMLNote.num_beams]: [0 if self.pitch is None else
    self.duration.num_beams()]; a plain length has no [num_beams]. *)
Definition XMLNote_num_beams (self : XMLNote) : result nat :=
  match pitch self with
  | NoPitch => Ok 0%nat
  | _ =>
      match duration self with
      | ADuration d => Duration_num_beams d
      | ALength _ => Err XAttributeError
      end
  end.

(** *** Chords *)

(** A [Chord] owns the tuple of notes its constructor made.  The class
    declares no [tuplet_bracket]; [Tuplet] sets one on the chord object all
    the same. *)
Record Chord : Type := {
  notes : list XMLNote;
  chord_tuplet_bracket : option string
}.

(** What the [ties] property returns and what its setter takes: one tie
    state, or one per note. *)
Inductive Ties : Type :=
| OneTie (t : option string)
| TiesPerNote (l : list (option string)).

Definition with_ties (t : option string) (n : XMLNote) : XMLNote :=
  {| pitch := pitch n; duration := duration n; divisions := divisions n;
     ties := t; notations := notations n; articulations := articulations n;
     tuplet_bracket := tuplet_bracket n; notehead := notehead n;
     beams := beams n; is_chord_member := is_chord_member n;
     voice := voice n; staff := staff n |}.

Definition tie_states : list (option string) :=
  [Some "start"; Some "continue"; Some "stop"; None].

(** [Chord.ties], the getter. *)
Definition Chord_ties (self : Chord) : result Ties :=
  match notes self with
  | [] => Err IndexError
  | first :: rest =>
      if forallb (fun note => bool_decide (ties note = ties first)) rest
      then Ok (OneTie (ties first))
      else Ok (TiesPerNote (ties <$> notes self))
  end.

(** [Chord.ties], the setter. *)
Definition Chord_set_ties (self : Chord) (value : Ties) : result Chord :=
  match value with
  | TiesPerNote l =>
      if (length l =? length (notes self))%nat
      then Ok {| notes := zip_with with_ties l (notes self);
                 chord_tuplet_bracket := chord_tuplet_bracket self |}
      else Err XAssertionError
  | OneTie t =>
      if bool_decide (t ∈ tie_states)
      then Ok {| notes := with_ties t <$> notes self;
                 chord_tuplet_bracket := chord_tuplet_bracket self |}
      else Err XAssertionError
  end.

(** [Chord.num_beams] *)
Definition Chord_num_beams (self : Chord) : result nat :=
  match notes self with
  | [] => Err IndexError
  | first :: _ => XMLNote_num_beams first
  end.

(** *** Tuplets *)

(** The contents of a beamed group or tuplet: notes, rests and chords.
    The list is taken with one object per position. *)
Inductive Element : Type :=
| ENote (n : XMLNote)
| EChord (c : Chord).

Definition bracket_of (e : Element) : option string :=
  match e with
  | ENote n => tuplet_bracket n
  | EChord c => chord_tuplet_bracket c
  end.

Definition with_bracket (b : option string) (e : Element) : Element :=
  match e with
  | ENote n =>
      ENote {| pitch := pitch n; duration := duration n; divisions := divisions n;
               ties := ties n; notations := notations n;
               articulations := articulations n;
               tuplet_bracket := b; notehead := notehead n;
               beams := beams n; is_chord_member := is_chord_member n;
               voice := voice n; staff := staff n |}
  | EChord c => EChord {| notes := notes c; chord_tuplet_bracket := b |}
  end.

(** [note.duration.tuplet_ratio = ratio]; a plain length has no such
    attribute. *)
Definition with_ratio (ratio : list num) (n : XMLNote) : result XMLNote :=
  match duration n with
  | ADuration d =>
      Ok {| pitch := pitch n;
            duration := ADuration {| note_type := note_type d; num_dots := num_dots d;
                                     tuplet_ratio := Some ratio;
                                     duration_divisions := duration_divisions d |};
            divisions := divisions n;
            ties := ties n; notations := notations n;
            articulations := articulations n;
            tuplet_bracket := tuplet_bracket n; notehead := notehead n;
            beams := beams n; is_chord_member := is_chord_member n;
            voice := voice n; staff := staff n |}
  | ALength _ => Err XAttributeError
  end.

(** A loop whose body may raise. *)
Fixpoint map_result {A B} (f : A -> result B) (l : list A) : result (list B) :=
  match l with
  | [] => Ok []
  | x :: rest =>
      match f x with
      | Ok y =>
          match map_result f rest with
          | Ok ys => Ok (y :: ys)
          | Err e => Err e
          end
      | Err e => Err e
      end
  end.

Definition element_with_ratio (ratio : list num) (e : Element) : result Element :=
  match e with
  | EChord c =>
      match map_result (with_ratio ratio) (notes c) with
      | Ok ns => Ok (EChord {| notes := ns;
                               chord_tuplet_bracket := chord_tuplet_bracket c |})
      | Err e => Err e
      end
  | ENote n =>
      match with_ratio ratio n with
      | Ok n' => Ok (ENote n')
      | Err e => Err e
      end
  end.

(** [Tuplet.set_tuplet_info_for_contents] *)
Definition set_tuplet_info_for_contents (contents : list Element)
    (ratio : list num) : result (list Element) :=
  match contents with
  | [] => Err IndexError
  | _ =>
      let contents := alter (with_bracket (Some "start")) 0%nat contents in
      let contents :=
        alter (with_bracket
                 (Some (if (0 <? length contents)%nat then "stop" else "both")))
          (length contents - 1)%nat contents in
      map_result (element_with_ratio ratio) contents
  end.

(** *** Parts and their numbers *)

(** Parts are objects the score points at, directly or through a group;
    [set_part_numbers] writes into them, so they live in a store keyed by
    identity.  Measures are kept as references. *)
Record Part : Type := {
  part_id : Z;
  part_name : string;
  measures : list nat
}.

Inductive PartOrGroup : Type :=
| SinglePart (ref : nat)
| PartGroup (refs : list nat) (has_bracket has_group_bar_line : bool).

Definition with_part_id (id : Z) (p : Part) : Part :=
  {| part_id := id; part_name := part_name p; measures := measures p |}.

(** The inner loop of [set_part_numbers]: number the parts of one group. *)
Fixpoint number_group (refs : list nat) (next_id : Z) (store : gmap nat Part)
  : Z * gmap nat Part :=
  match refs with
  | [] => (next_id, store)
  | part :: rest =>
      number_group rest (next_id + 1) (alter (with_part_id next_id) part store)
  end.

Fixpoint number_parts (parts : list PartOrGroup) (next_id : Z)
    (store : gmap nat Part) : Z * gmap nat Part :=
  match parts with
  | [] => (next_id, store)
  | PartGroup refs _ _ :: rest =>
      let '(next_id, store) := number_group refs next_id store in
      number_parts rest next_id store
  | SinglePart part :: rest =>
      number_parts rest (next_id + 1) (alter (with_part_id next_id) part store)
  end.

(** [Score.set_part_numbers] *)
Definition set_part_numbers (parts : list PartOrGroup) (store : gmap nat Part)
  : gmap nat Part :=
  (number_parts parts 1 store).2.

(** The parts of a score in the order [set_part_numbers] visits them. *)
Definition parts_in_order (parts : list PartOrGroup) : list nat :=
  parts ≫= (fun p => match p with
                     | SinglePart ref => [ref]
                     | PartGroup refs _ _ => refs
                     end).

(** *** Pitch strings *)

(** [str.lower], [str.upper], slicing from an index and [startswith]
    with a tuple of prefixes, on strings of ASCII characters. *)
Definition lower_char (c : ascii) : ascii :=
  let n := nat_of_ascii c in
  if (65 <=? n)%nat && (n <=? 90)%nat then ascii_of_nat (n + 32) else c.

Definition upper_char (c : ascii) : ascii :=
  let n := nat_of_ascii c in
  if (97 <=? n)%nat && (n <=? 122)%nat then ascii_of_nat (n - 32) else c.

Fixpoint lower (s : string) : string :=
  match s with
  | EmptyString => EmptyString
  | String c rest => String (lower_char c) (lower rest)
  end.

Fixpoint slice_from (n : nat) (s : string) : string :=
  match n, s with
  | O, _ => s
  | S n, String _ rest => slice_from n rest
  | S _, EmptyString => EmptyString
  end.

Definition startswith (s : string) (prefixes : list string) : bool :=
  existsb (fun p => String.prefix p s) prefixes.

(** [all(x == c for x in s)] *)
Fixpoint all_chars (c : ascii) (s : string) : bool :=
  match s with
  | EmptyString => true
  | String x rest => bool_decide (x = c) && all_chars c rest
  end.

Definition note_letters : list ascii :=
  ["c"; "d"; "e"; "f"; "g"; "a"; "b"]%char.

Section FromString.
(** The builtin [int] on a string: [None] when it raises [ValueError]. *)
Variable int : string -> option Z.

(** [Pitch.from_string] *)
Definition Pitch_from_string (pitch_string : string) : result Pitch :=
  let pitch_string := lower pitch_string in
  match pitch_string with
  | EmptyString => Err IndexError
  | String first _ =>
      if bool_decide (first ∈ note_letters) then
        let step := String (upper_char first) EmptyString in
        let '(alteration, octave_string) :=
          if startswith (slice_from 1 pitch_string) ["b"; "f"; "#"; "s"] then
            (if startswith (slice_from 1 pitch_string) ["b"; "f"] then (-1)%Q else 1%Q,
             slice_from 2 pitch_string)
          else if startswith (slice_from 1 pitch_string) ["qb"; "qf"; "q#"; "qs"] then
            (if startswith (slice_from 1 pitch_string) ["qb"; "qf"]
             then (-1 # 2)%Q else (1 # 2)%Q,
             slice_from 3 pitch_string)
          else (0%Q, slice_from 1 pitch_string) in
        match int octave_string with
        | Some octave =>
            Ok {| step := step; octave := octave; alteration := alteration |}
        | None =>
            if all_chars "'" octave_string then
              Ok {| step := step; octave := 3 + Z.of_nat (String.length octave_string);
                    alteration := alteration |}
            else if all_chars "," octave_string then
              Ok {| step := step; octave := 3 - Z.of_nat (String.length octave_string);
                    alteration := alteration |}
            else Err XValueError
        end
      else Err XAssertionError
  end.
End FromString.

(** *** Vocabulary for the statements *)

(** The accidentals [from_string] knows, with the alteration each gives,
    and a run of [n] octave marks. *)
Definition accidentals : list (string * num) :=
  [("", 0); ("b", -1); ("f", -1); ("#", 1); ("s", 1);
   ("qb", -1 # 2); ("qf", -1 # 2); ("q#", 1 # 2); ("qs", 1 # 2)]%Q.

Fixpoint marks (c : ascii) (n : nat) : string :=
  match n with
  | O => EmptyString
  | S n => String c (marks c n)
  end.

(** Plain decimal numerals, the strings on which the builtin [int] is
    used in the examples: digits, with an optional minus sign. *)
Fixpoint digits_value (s : string) (acc : Z) : option Z :=
  match s with
  | EmptyString => Some acc
  | String c rest =>
      let n := nat_of_ascii c in
      if (48 <=? n)%nat && (n <=? 57)%nat
      then digits_value rest (10 * acc + Z.of_nat (n - 48))
      else None
  end.

Definition decimal_int (s : string) : option Z :=
  match s with
  | EmptyString => None
  | String "-" (String c rest) => Z.opp <$> digits_value (String c rest) 0
  | _ => digits_value s 0
  end.

(** Every note of the element is timed by a [Duration], as the
    constructors of notes, rests and chords leave it. *)
Definition has_duration (e : Element) : bool :=
  let timed (n : XMLNote) :=
    match duration n with
    | ADuration _ => true
    | ALength _ => false
    end in
  match e with
  | ENote n => timed n
  | EChord c => forallb timed (notes c)
  end.

(** What the [ties] getter makes of a value given to the setter: a list
    with the same state throughout reads back as that one state. *)
Definition read_back (value : Ties) : Ties :=
  match value with
  | OneTie t => OneTie t
  | TiesPerNote [] => TiesPerNote []
  | TiesPerNote (first :: rest) =>
      if forallb (fun t => bool_decide (t = first)) rest
      then OneTie first
      else TiesPerNote (first :: rest)
  end.

(** A value the [ties] setter accepts for a chord of [n] notes. *)
Definition accepted_ties (n : nat) (value : Ties) : Prop :=
  match value with
  | OneTie t => t ∈ tie_states
  | TiesPerNote l => length l = n
  end.

(** *** Lengths as floats *)

(** Sequencing of calls that may raise, and a loop over a list that
    threads a value through its body. *)
#[global] Instance result_bind : MBind result :=
  fun A B f r => match r with Ok a => f a | Err e => Err e end.

Fixpoint for_result {A S} (body : A -> S -> result S) (l : list A) (s : S)
  : result S :=
  match l with
  | [] => Ok s
  | x :: rest => s ← body x s; for_result body rest s
  end.

Section Floats.
Import PrimFloat FloatOps SpecFloat.
Local Open Scope float_scope.

(** [base ** n] for a float and an integer [n >= 0].  The file raises 2.0
    and 0.5 to such powers; these are exact, so repeated multiplication
    gives them, and the infinity it ends in is where Python raises
    [OverflowError]. *)
Fixpoint float_power (base : float) (n : nat) : float :=
  match n with
  | O => 1
  | S n => base * float_power base n
  end.

Definition pow (base : float) (n : nat) : result float :=
  let p := float_power base n in
  if is_infinity p then Err OverflowError else Ok p.

(** [a / b] on floats. *)
Definition truediv (a b : float) : result float :=
  if b =? 0 then Err ZeroDivisionError else Ok (a / b).

(** [int(round(x))]: to the nearest integer, a tie to the even one. *)
Definition round (x : float) : result Z :=
  match Prim2SF x with
  | S754_zero _ => Ok 0%Z
  | S754_finite s m e =>
      let v :=
        if (0 <=? e)%Z then (Z.pos m * 2 ^ e)%Z
        else
          let d := (2 ^ (- e))%Z in
          let q := (Z.pos m / d)%Z in
          let r := (Z.pos m mod d)%Z in
          if (2 * r <? d)%Z then q
          else if (d <? 2 * r)%Z then (q + 1)%Z
          else if Z.even q then q else (q + 1)%Z in
      Ok (if s then (- v)%Z else v)
  | S754_infinity _ => Err OverflowError
  | S754_nan => Err XValueError
  end.

(** [Duration.length_to_note_type] once more, with its keys as the floats
    they are, the lookup [length_to_note_type[length]] ([None] when the
    length is no key) and [Duration.note_type_to_length], the same table
    read from note type to length. *)
Definition Duration_length_to_note_type : list (float * string) :=
  [(8, "breve"); (4, "whole"); (2, "half"); (1, "quarter"); (0.5, "eighth");
   (0.25, "16th"); (1 / 8, "32nd"); (1 / 16, "64th"); (1 / 32, "128th");
   (1 / 64, "256th"); (1 / 128, "512th"); (1 / 256, "1024th")].

Definition note_type_of_length (length : float) : option string :=
  snd <$> List.find (fun kv => kv.1 =? length) Duration_length_to_note_type.

Definition Duration_note_type_to_length (t : string) : option float :=
  fst <$> List.find (fun kv => String.eqb kv.2 t) Duration_length_to_note_type.

(** [Duration._dot_multiplier] *)
Definition _dot_multiplier (num_dots : nat) : result float :=
  a ← pow 2 (num_dots + 1);
  b ← pow 2 num_dots;
  truediv (a - 1) b.

(** [Duration.written_length] *)
Definition Duration_written_length (self : Duration) : result float :=
  match Duration_note_type_to_length (note_type self) with
  | None => Err XKeyError
  | Some length =>
      m ← _dot_multiplier (num_dots self);
      Ok (length * m)
  end.

(** The [while] loop of [get_note_type_and_number_of_dots], entered with
    the current [dots] and [dots_multiplier].  [dots] only grows and the
    loop raises once it passes [max_dots_allowed]: [room] is how many more
    dots are allowed, [max_dots_allowed - dots]. *)
Fixpoint more_dots (room : nat) (length : float) (dots : nat)
    (dots_multiplier : float) : result (string * nat) :=
  q ← truediv length dots_multiplier;
  match note_type_of_length q with
  | Some t => Ok (t, dots)
  | None =>
      let dots := S dots in
      dots_multiplier ← _dot_multiplier dots;
      match room with
      | O => Err XValueError
      | S room => more_dots room length dots dots_multiplier
      end
  end.

(** [Duration.get_note_type_and_number_of_dots] *)
Definition get_note_type_and_number_of_dots (length : float)
    (max_dots_allowed : Z) : result (string * nat) :=
  match note_type_of_length length with
  | Some t => Ok (t, 0%nat)
  | None => more_dots (Z.to_nat (max_dots_allowed - 1)) length 1 1.5
  end.

(** *** Beams *)

(** The float a plain length (the duration of a bar rest) is. *)
Variable plain_length : num -> float.

(** [_XMLNote.written_length], [Chord.written_length] and [num_beams],
    [written_length] and [beams] of a leaf of either kind; a chord answers
    with its first note's. *)
Definition XMLNote_written_length (self : XMLNote) : result float :=
  match duration self with
  | ADuration d => Duration_written_length d
  | ALength quarters => Ok (plain_length quarters)
  end.

Definition Chord_written_length (self : Chord) : result float :=
  match notes self with
  | [] => Err IndexError
  | first :: _ => XMLNote_written_length first
  end.

Definition leaf_num_beams (leaf : Element) : result nat :=
  match leaf with
  | ENote n => XMLNote_num_beams n
  | EChord c => Chord_num_beams c
  end.

Definition leaf_written_length (leaf : Element) : result float :=
  match leaf with
  | ENote n => XMLNote_written_length n
  | EChord c => Chord_written_length c
  end.

Definition with_beams (b : gmap nat string) (n : XMLNote) : XMLNote :=
  {| pitch := pitch n; duration := duration n; divisions := divisions n;
     ties := ties n; notations := notations n; articulations := articulations n;
     tuplet_bracket := tuplet_bracket n; notehead := notehead n;
     beams := b; is_chord_member := is_chord_member n;
     voice := voice n; staff := staff n |}.

Definition leaf_beams (leaf : Element) : result (gmap nat string) :=
  match leaf with
  | ENote n => Ok (beams n)
  | EChord c =>
      match notes c with
      | [] => Err IndexError
      | first :: _ => Ok (beams first)
      end
  end.

Definition leaf_set_beams (b : gmap nat string) (leaf : Element) : result Element :=
  match leaf with
  | ENote n => Ok (ENote (with_beams b n))
  | EChord c =>
      match notes c with
      | [] => Err IndexError
      | first :: rest =>
          Ok (EChord {| notes := with_beams b first :: rest;
                        chord_tuplet_bracket := chord_tuplet_bracket c |})
      end
  end.

(** [sub in s] on strings. *)
Fixpoint contains (sub s : string) : bool :=
  String.prefix sub s ||
  match s with
  | EmptyString => false
  | String _ rest => contains sub rest
  end.

(** The hook a leaf gets that stands alone at [beam_depth]. *)
Definition hook (leaf_start_time : float) (beam_depth : nat) : result string :=
  p ← pow 0.5 beam_depth;
  q ← truediv leaf_start_time p;
  r ← round q;
  Ok (if Z.even r then "forward hook" else "backward hook")%string.

(** [contents[j].num_beams() >= beam_depth] *)
Definition active (contents : list Element) (j beam_depth : nat) : result bool :=
  match contents !! j with
  | None => Err IndexError
  | Some leaf => n ← leaf_num_beams leaf; Ok (beam_depth <=? n)%nat
  end.

(** The body of the inner loop of [render_contents_beaming], for leaf [i]
    at [beam_depth]: it works on the contents and the running
    [leaf_start_time]. *)
Definition beam_leaf (beam_depth i : nat) (state : list Element * float)
  : result (list Element * float) :=
  let '(contents, leaf_start_time) := state in
  match contents !! i with
  | None => Err IndexError
  | Some leaf =>
      last_note_active ←
        (if (0 <? i)%nat then active contents (i - 1) beam_depth else Ok false);
      this_note_active ← active contents i beam_depth;
      next_note_active ←
        (if (i <? length contents - 1)%nat
         then active contents (i + 1) beam_depth else Ok false);
      leaf ←
        (if this_note_active : bool then
           value ←
             (if last_note_active && next_note_active then Ok "continue"%string
              else if last_note_active : bool then Ok "end"%string
              else if next_note_active : bool then Ok "begin"%string
              else hook leaf_start_time beam_depth);
           b ← leaf_beams leaf;
           leaf_set_beams (<[beam_depth := value]> b) leaf
         else Ok leaf);
      length ← leaf_written_length leaf;
      Ok (<[i := leaf]> contents, leaf_start_time + length)
  end.

(** One round of the outer loop: all leaves at [beam_depth]. *)
Definition beam_at_depth (beam_depth : nat) (contents : list Element)
  : result (list Element) :=
  state ← for_result (beam_leaf beam_depth) (seq 0 (length contents)) (contents, 0);
  Ok state.1.

(** The last loop: a leaf with nothing but hooks loses its beams. *)
Definition clear_hooks (leaf : Element) : result Element :=
  b ← leaf_beams leaf;
  if forallb (contains "hook") (map_to_list b).*2
  then leaf_set_beams ∅ leaf
  else Ok leaf.

(** [BeamedGroup.render_contents_beaming], on the contents of the group. *)
Definition render_contents_beaming (contents : list Element)
  : result (list Element) :=
  counts ← map_result leaf_num_beams contents;
  match counts with
  | [] => Err XValueError
  | _ =>
      contents ← for_result beam_at_depth (seq 1 (max_list counts)) contents;
      map_result clear_hooks contents
  end.

End Floats.

(** *** Vocabulary for the statements on lengths and beams *)

#[global] Instance error_eq_dec : EqDecision error.
Proof. solve_decision. Defined.

#[global] Instance result_eq_dec {A} `{EqDecision A} : EqDecision (result A).
Proof. solve_decision. Defined.

Section DotsVocabulary.
Import PrimFloat.
Local Open Scope float_scope.

(** A duration of note type [t] with [n] dots reads back from its written
    length: the length is no key of the table unless [n] is 0, the loop
    finds [t] after going up to [n] dots, and gives up when allowed fewer. *)
Definition reads_back_dots (t : string) (n : nat) : bool :=
  match Duration_written_length
          {| note_type := t; num_dots := n; tuplet_ratio := None;
             duration_divisions := 0 |} with
  | Err _ => false
  | Ok w =>
      match n with
      | O%nat => bool_decide (note_type_of_length w = Some t)
      | S k =>
          bool_decide (note_type_of_length w = None) &&
          bool_decide (more_dots k w 1 1.5%float = Ok (t, n)) &&
          match k with
          | O%nat => true
          | S j => bool_decide (more_dots j w 1 1.5%float = Err XValueError)
          end
      end
  end.

End DotsVocabulary.

(** The beams a leaf carries: a chord's are its first note's. *)
Definition beams_of (leaf : Element) : gmap nat string :=
  match leaf with
  | ENote n => beams n
  | EChord c =>
      match notes c with
      | [] => ∅
      | first :: _ => beams first
      end
  end.

(** A leaf with its beams taken away: what rendering the beaming leaves alone. *)
Definition without_beams (leaf : Element) : Element :=
  match leaf with
  | ENote n => ENote (with_beams ∅ n)
  | EChord c =>
      EChord {| notes := match notes c with
                         | [] => []
                         | first :: rest => with_beams ∅ first :: rest
                         end;
                chord_tuplet_bracket := chord_tuplet_bracket c |}
  end.

(** With [counts] the leaves' numbers of beams: leaf [j] has a beam at
    [depth]; no leaf, no beam. *)
Definition beamed (counts : list nat) (j depth : nat) : bool :=
  match counts !! j with
  | Some n => (depth <=? n)%nat
  | None => false
  end.

(** The beam value of leaf [j] at [depth] when a neighbour shares the
    beam, [None] when the leaf stands alone there. *)
Definition joined (counts : list nat) (j depth : nat) : option string :=
  let last := (0 <? j)%nat && beamed counts (j - 1) depth in
  let next := beamed counts (j + 1) depth in
  if last && next then Some "continue"
  else if last then Some "end"
  else if next then Some "begin"
  else None.

Definition is_hook (entry : option string) : Prop :=
  entry = Some "forward hook" \/ entry = Some "backward hook".

(** [counts] are the numbers of beams of [contents], leaf by leaf. *)
Definition counted (contents : list Element) (counts : list nat) : Prop :=
  Forall2 (fun leaf n => leaf_num_beams leaf = Ok n) contents counts.

(** The entry of leaf [j] at [depth] after the inner loop has passed it,
    [entry0] being the entry before. *)
Definition entry_ok (counts : list nat) (j depth : nat)
    (entry entry0 : option string) : Prop :=
  if beamed counts j depth then
    match joined counts j depth with
    | Some v => entry = Some v
    | None => is_hook entry
    end
  else entry = entry0.

(** Leaf [j] before and after one round of the outer loop at [depth]. *)
Definition step_ok (counts : list nat) (depth j : nat) (l0 l : Element) : Prop :=
  without_beams l = without_beams l0 /\
  (forall d, d <> depth -> beams_of l !! d = beams_of l0 !! d) /\
  entry_ok counts j depth (beams_of l !! depth) (beams_of l0 !! depth).

(** Two lists of leaves of one length, related position by position. *)
Definition related (R : nat -> Element -> Element -> Prop)
    (cur0 cur : list Element) : Prop :=
  length cur = length cur0 /\
  forall j l0 l, cur0 !! j = Some l0 -> cur !! j = Some l -> R j l0 l.

(** Leaf [j] before and after the rounds for the depths below [upto]. *)
Definition depth_ok (counts : list nat) (upto j : nat) (l0 l : Element) : Prop :=
  without_beams l = without_beams l0 /\
  forall d,
    if (1 <=? d)%nat && (d <? upto)%nat
    then entry_ok counts j d (beams_of l !! d) (beams_of l0 !! d)
    else beams_of l !! d = beams_of l0 !! d.

(** The entry of leaf [j] at depth [d] once the hooks are cleared. *)
Definition final_entry (counts : list nat) (j d : nat) (entry : option string) : Prop :=
  if (1 <=? d)%nat && beamed counts j d && bool_decide (is_Some (joined counts j 1))
  then match joined counts j d with
       | Some v => entry = Some v
       | None => is_hook entry
       end
  else entry = None.

Definition final_ok (counts : list nat) (j : nat) (l0 l : Element) : Prop :=
  without_beams l = without_beams l0 /\
  forall d, final_entry counts j d (beams_of l !! d).

(** Leaf [i] has no neighbour with a beam. *)
Definition stands_alone (contents : list Element) (i : nat) : Prop :=
  forall j l, S j = i \/ j = S i ->
    contents !! j = Some l -> leaf_num_beams l = Ok 0%nat.

(** A note or rest as its constructor leaves it, with no beams yet; and a
    pitched one. *)
Definition a_leaf (p : PitchArg) (t : string) (dots : nat) : Element :=
  ENote {| pitch := p;
           duration := ADuration {| note_type := t; num_dots := dots;
                                    tuplet_ratio := None; duration_divisions := 1 |};
           divisions := 1; ties := None; notations := []; articulations := [];
           tuplet_bracket := None; notehead := None; beams := ∅;
           is_chord_member := false; voice := None; staff := None |}.

Definition a_note : string -> nat -> Element :=
  a_leaf (APitch {| step := "C"; octave := 4; alteration := 0 |}).

End MusicXML.

(** * Theorems *)

(** ** Runs of the monad *)

Section PyFacts.
Context {St Ev : Type}.

Lemma run_eta {A} (r : run St Ev A) : Run (trace r) (final r) (out r) = r.
Proof. by destruct r. Qed.

Lemma bind_returned {A B} (m : Py St Ev A) (k : A -> Py St Ev B) s a :
  out (m s) = Returned a ->
  bind m k s = Run (trace (m s) ++ trace (k a (final (m s))))
                   (final (k a (final (m s)))) (out (k a (final (m s)))).
Proof. intros H. unfold bind. by rewrite H. Qed.

Lemma bind_raised {A B} (m : Py St Ev A) (k : A -> Py St Ev B) s e :
  out (m s) = Raised e ->
  bind m k s = Run (trace (m s)) (final (m s)) (Raised e).
Proof. intros H. unfold bind. by rewrite H. Qed.
End PyFacts.

Section Listeners.
Import Session.

Lemma bracket_run (body : M unit) s :
  (rouse_and_hold ;; set_thread_clock (Some SessionClock) ;;
   body ;; set_thread_clock None ;; release_from_suspension)%py s
  = bracketed (body (entered s)).
Proof.
  unfold bracketed, entered, bind at 1 2 3; cbn.
  destruct (body _) as [tr sf [[]|e]]; cbn; reflexivity.
Qed.

Ltac run_callback f :=
  match goal with
  | |- context [f ?a ?b ?c ?d ?st] => destruct (f a b c d st) as [? ? [[]|?]]
  | |- context [f ?a ?b ?c ?st] => destruct (f a b c st) as [? ? [[]|?]]
  | |- context [f ?a ?b ?st] => destruct (f a b st) as [? ? [[]|?]]
  end.

Lemma wrapper_run c w s :
  wrapper_of c = Some w ->
  w s = bracketed (user_callback c s (callback_state c s)).
Proof.
  intros Hw. destruct c; cbn in Hw.
  - inversion Hw; subst; clear Hw. apply bracket_run.
  - inversion Hw; subst; clear Hw.
    unfold bracketed, callback_state, user_callback, entered.
    destruct (_name_and_number_from_key key_argument) as [name number]; cbn.
    case_bool_decide; unfold bind; cbn; [reflexivity|].
    run_callback on_press; reflexivity.
  - inversion Hw; subst; clear Hw.
    unfold bracketed, callback_state, user_callback, entered, on_release_wrapper.
    destruct (_name_and_number_from_key key_argument) as [name number]; cbn.
    case_bool_decide; unfold bind; cbn; run_callback on_release; reflexivity.
  - inversion Hw; subst; clear Hw. apply bracket_run.
  - inversion Hw; subst; clear Hw. apply bracket_run.
  - unfold on_click_wrapper in Hw.
    destruct (is_not_None on_press || is_not_None on_release); [|discriminate].
    inversion Hw; subst; clear Hw.
    rewrite bracket_run. destruct pressed; reflexivity.
Qed.

Lemma delivers_osc h pattern handler w :
  delivers (OscMap h pattern handler) w ->
  exists args kwargs, w = handler args kwargs.
Proof. inversion 1; subst; eauto. Qed.

Lemma delivers_keyboard h on_press on_release suppress w :
  delivers (StartKeyboardListener h on_press on_release suppress) w ->
  (exists f key, on_press = Some f /\ w = f key) \/
  (exists f key, on_release = Some f /\ w = f key).
Proof. inversion 1; subst; eauto. Qed.

Lemma delivers_mouse h on_move on_click on_scroll suppress w :
  delivers (StartMouseListener h on_move on_click on_scroll suppress) w ->
  (exists f x y, on_move = Some f /\ w = f x y) \/
  (exists f x y button pressed, on_click = Some f /\ w = f x y button pressed) \/
  (exists f x y dx dy, on_scroll = Some f /\ w = f x y dx dy).
Proof.
  inversion 1; subst; [left|right; left|right; right]; eauto 10.
Qed.

Lemma register_keyboard_trace deps on_press on_release suppress s :
  pynput deps = true ->
  out (register_keyboard_listener deps on_press on_release suppress s) = Returned tt /\
  trace (register_keyboard_listener deps on_press on_release suppress s)
    = trace (remove_keyboard_listener s)
      ++ [StartKeyboardListener (next_handle s) (on_press_wrapper on_press)
            (Some (on_release_wrapper on_release)) suppress].
Proof.
  intros Hdep. unfold register_keyboard_listener, remove_keyboard_listener, bind.
  rewrite Hdep. cbn. destruct (keyboard (_listeners s)); cbn; split; reflexivity.
Qed.

Lemma register_mouse_trace deps on_move on_press on_release on_scroll suppress
    relative s :
  setup_failure deps
    (MouseListener on_move on_press on_release on_scroll suppress relative) = None ->
  out (register_mouse_listener deps on_move on_press on_release on_scroll
         suppress relative s) = Returned tt /\
  trace (register_mouse_listener deps on_move on_press on_release on_scroll
           suppress relative s)
  = (trace (remove_mouse_listener s) ++ if relative then [TkRoot] else [])
    ++ [StartMouseListener (next_handle s)
          (on_move_wrapper on_move (scale deps relative).1 (scale deps relative).2)
          (on_click_wrapper on_press on_release
             (scale deps relative).1 (scale deps relative).2)
          (on_scroll_wrapper on_scroll
             (scale deps relative).1 (scale deps relative).2)
          suppress].
Proof.
  unfold setup_failure, register_mouse_listener, remove_mouse_listener, scale, bind.
  destruct (pynput deps); [|discriminate].
  destruct relative, (tkinter deps) as [[width height]|]; cbn; try discriminate;
    intros _; destruct (mouse (_listeners s)); cbn; split; reflexivity.
Qed.

Lemma mouse_preamble_delivers_nothing (relative : bool) s e w :
  e ∈ trace (remove_mouse_listener s) ++ (if relative then [TkRoot] else []) ->
  ~ delivers e w.
Proof.
  unfold remove_mouse_listener, bind. cbn.
  destruct (mouse (_listeners s)), relative; cbn; intros He Hd;
    repeat (apply elem_of_cons in He as [->|He]; [by inversion Hd|]);
    by apply elem_of_nil in He.
Qed.

Lemma register_osc_trace deps port pattern f ip s :
  pythonosc deps = true ->
  out (register_osc_listener deps port pattern f ip s) = Returned tt /\
  exists before d,
    (forall e w, e ∈ before -> ~ delivers e w) /\
    trace (register_osc_listener deps port pattern f ip s)
    = before ++ [OscMap d pattern (callback_wrapper f)].
Proof.
  intros Hdep. unfold register_osc_listener, bind. rewrite Hdep. cbn.
  destruct (osc (_listeners s) !! (ip, port)) as [entry|] eqn:Hentry; cbn.
  - rewrite Hentry. cbn. split; [reflexivity|]. exists [], (dispatcher entry).
    split; [|reflexivity]. intros e w He. by apply elem_of_nil in He.
  - rewrite lookup_insert_eq. cbn. split; [reflexivity|].
    exists [NewDispatcher (next_handle s); NewOscServer ip port (S (next_handle s));
            ForkUnsynchronized "serve_forever"], (next_handle s).
    split; [|reflexivity]. intros e w He Hd.
    repeat (apply elem_of_cons in He as [->|He]; [by inversion Hd|]).
    by apply elem_of_nil in He.
Qed.

Lemma register_midi_trace deps p f s e w :
  e ∈ trace (register_midi_listener deps p f s) -> ~ delivers e w.
Proof.
  unfold register_midi_listener, remove_midi_listener, bind.
  destruct (match p with
            | PortNumber n => Some n
            | DeviceName name => get_port_number_of_midi_device deps name
            end) as [n|]; cbn; [|by intros He%elem_of_nil].
  case_bool_decide; cbn; [|by intros He%elem_of_nil].
  destruct (midi (_listeners s) !! n) eqn:Hn; cbn; rewrite ?Hn; cbn;
    intros He Hd;
    repeat (apply elem_of_cons in He as [->|He]; [by inversion Hd|]);
    by apply elem_of_nil in He.
Qed.

(** C2, as the code has it: what the session hands to python-osc or
    pynput for a user callback (OSC message, key press and release, mouse
    move, scroll and click) is the wrapper of that callback, and nothing
    else is handed over but the key-release bookkeeping of a keyboard
    listener without [on_release].  A wrapper calls [rouse_and_hold], then sets the
    thread's current clock to the session, then runs the user callback: it
    starts with that clock set and one more level of hold, and code in it
    that leaves the thread's clock alone ends with the clock still set.
    When the callback returns, the wrapper clears the thread's clock and
    then calls [release_from_suspension], on the state the callback left;
    when it raises, the wrapper ends there and the closing half does not
    run. *)
Theorem listener_callback_runs_inside_bracket deps r s :
  (setup_failure deps r = None ->
   forall c, given deps r c ->
     exists e w, e ∈ trace (register deps r s) /\ delivers e w /\
                 wrapper_of c = Some w) /\
  (forall e w,
     e ∈ trace (register deps r s) -> delivers e w ->
     (exists c, given deps r c /\ wrapper_of c = Some w) \/
     (exists on_press suppress key,
        r = KeyboardListener on_press None suppress /\
        w = on_release_wrapper None key)) /\
  (forall c w s',
     wrapper_of c = Some w ->
     thread_clock (callback_state c s') = Some SessionClock /\
     suspension_depth (callback_state c s') = S (suspension_depth s') /\
     (forall A (code : M A),
        keeps_thread_clock code ->
        thread_clock (final (code (callback_state c s'))) = Some SessionClock) /\
     match out (user_callback c s' (callback_state c s')) with
     | Returned _ =>
         trace (w s') =
           [RouseAndHold; SetThreadClock (Some SessionClock)]
             ++ trace (user_callback c s' (callback_state c s'))
             ++ [SetThreadClock None; ReleaseFromSuspension] /\
         out (w s') = Returned tt /\
         final (w s') = handed_back (final (user_callback c s' (callback_state c s')))
     | Raised e =>
         trace (w s') =
           [RouseAndHold; SetThreadClock (Some SessionClock)]
             ++ trace (user_callback c s' (callback_state c s')) /\
         out (w s') = Raised e /\
         final (w s') = final (user_callback c s' (callback_state c s'))
     end).
Proof.
  split; [|split].
  - intros Hok c Hgiven. destruct r as [p f|port pattern f ip|kp kr sup|m p rl sc sup rel].
    + destruct c; contradiction.
    + destruct c; try contradiction. cbn in Hgiven. subst.
      cbn in Hok. destruct (pythonosc deps) eqn:Hdep; [|discriminate].
      destruct (register_osc_trace deps port pattern f ip s Hdep)
        as (_ & before & d & _ & Htrace).
      eexists _, _. cbn [register]. rewrite Htrace. split; [|split].
      * apply elem_of_app. right. by left.
      * apply (osc_message d pattern (callback_wrapper f) args kwargs).
      * reflexivity.
    + cbn in Hok. destruct (pynput deps) eqn:Hdep; [|discriminate].
      destruct (register_keyboard_trace deps kp kr sup s Hdep) as [_ Htrace].
      cbn [register]. rewrite Htrace.
      destruct c; try (destruct kp, kr; contradiction).
      * destruct kp as [f|]; [|destruct kr; contradiction].
        assert (on_press = f) as -> by (by destruct kr).
        eexists _, _. split; [|split].
        -- apply elem_of_app. right. by left.
        -- apply (key_pressed _ _ _ _ key_argument).
        -- reflexivity.
      * destruct kr as [f|]; [|destruct kp; contradiction].
        assert (on_release = f) as -> by (by destruct kp).
        eexists _, _. split; [|split].
        -- apply elem_of_app. right. by left.
        -- apply (key_released _ _ _ _ key_argument).
        -- reflexivity.
    + destruct (register_mouse_trace deps m p rl sc sup rel s Hok)
        as (_ & Htrace).
      cbn [register]. rewrite Htrace.
      destruct c; try (destruct m, sc; contradiction).
      * destruct m as [f|]; [|destruct sc; contradiction].
        assert (on_move = f /\ (x_scale, y_scale) = scale deps rel)
          as [-> Hscale] by (destruct p, rl, sc; exact Hgiven).
        rewrite <- Hscale. cbn [fst snd].
        eexists _, _. split; [|split].
        -- apply elem_of_app. right. by left.
        -- apply (mouse_moved _ _ _ _ _ x y).
        -- reflexivity.
      * destruct sc as [f|]; [|destruct m; contradiction].
        assert (on_scroll = f /\ (x_scale, y_scale) = scale deps rel)
          as [-> Hscale] by (destruct m, p, rl; exact Hgiven).
        rewrite <- Hscale. cbn [fst snd].
        eexists _, _. split; [|split].
        -- apply elem_of_app. right. by left.
        -- apply (mouse_scrolled _ _ _ _ _ x y dx dy).
        -- reflexivity.
      * assert (on_press = p /\ on_release = rl /\
                is_not_None p || is_not_None rl = true /\
                (x_scale, y_scale) = scale deps rel)
          as (-> & -> & Hsome & Hscale) by (destruct m, p, rl, sc; exact Hgiven).
        rewrite <- Hscale. cbn [fst snd].
        unfold wrapper_of, on_click_wrapper. rewrite Hsome.
        eexists _, _. split; [|split].
        -- apply elem_of_app. right. by left.
        -- apply (mouse_clicked _ _ _ _ _ x y button_name pressed).
        -- reflexivity.
  - intros e w He Hd.
    destruct r as [p f|port pattern f ip|kp kr sup|m p rl sc sup rel]; cbn [register] in He.
    + by apply register_midi_trace with (w := w) in He.
    + destruct (pythonosc deps) eqn:Hdep.
      * destruct (register_osc_trace deps port pattern f ip s Hdep)
          as (_ & before & d & Hbefore & Htrace).
        rewrite Htrace in He. apply elem_of_app in He as [He|He].
        { by apply Hbefore with (w := w) in He. }
        apply list_elem_of_singleton in He as ->.
        apply delivers_osc in Hd as (args & kwargs & ->).
        left. exists (OscMessage f args kwargs). split; reflexivity.
      * unfold register_osc_listener in He. rewrite Hdep in He.
        by apply elem_of_nil in He.
    + destruct (pynput deps) eqn:Hdep.
      * destruct (register_keyboard_trace deps kp kr sup s Hdep) as [_ Htrace].
        rewrite Htrace in He. apply elem_of_app in He as [He|He].
        { unfold remove_keyboard_listener, bind in He. cbn in He.
          destruct (keyboard (_listeners s)); cbn in He.
          - apply list_elem_of_singleton in He as ->. inversion Hd.
          - by apply elem_of_nil in He. }
        apply list_elem_of_singleton in He as ->.
        apply delivers_keyboard in Hd as [(h & key & Hh & ->)|(h & key & Hh & ->)].
        -- destruct kp as [f|]; [|discriminate]. left.
           exists (KeyPress f key). split; [by destruct kr|].
           unfold wrapper_of. rewrite Hh. reflexivity.
        -- injection Hh as <-. destruct kr as [f|].
           ++ left. exists (KeyRelease f key). split; [by destruct kp|]. reflexivity.
           ++ right. exists kp, sup, key. split; reflexivity.
      * unfold register_keyboard_listener in He. rewrite Hdep in He.
        by apply elem_of_nil in He.
    + destruct (setup_failure deps (MouseListener m p rl sc sup rel)) as [[ex late]|] eqn:Hfail.
      * exfalso. revert He Hfail.
        unfold setup_failure, register_mouse_listener, remove_mouse_listener, bind.
        destruct (pynput deps); cbn; [|by intros He%elem_of_nil].
        destruct rel, (tkinter deps) as [[width height]|]; cbn; try discriminate.
        destruct (mouse (_listeners s)); cbn; intros He _.
        -- apply list_elem_of_singleton in He as ->. inversion Hd.
        -- by apply elem_of_nil in He.
      * destruct (register_mouse_trace deps m p rl sc sup rel s Hfail)
          as (_ & Htrace).
        rewrite Htrace in He. apply elem_of_app in He as [He|He].
        { by apply mouse_preamble_delivers_nothing with (w := w) in He. }
        apply list_elem_of_singleton in He as ->.
        apply delivers_mouse in Hd
          as [(h & x & y & Hh & ->)
             |[(h & x & y & button & pressed & Hh & ->)
              |(h & x & y & dx & dy & Hh & ->)]].
        -- destruct m as [f|]; [|discriminate]. left.
           exists (MouseMove f (scale deps rel).1 (scale deps rel).2 x y).
           split; [destruct p, rl, sc; cbn; by destruct (scale deps rel)|].
           unfold wrapper_of. rewrite Hh. reflexivity.
        -- left.
           exists (MouseClick p rl (scale deps rel).1 (scale deps rel).2 x y button pressed).
           assert (Hsome : is_not_None p || is_not_None rl = true).
           { unfold on_click_wrapper in Hh.
             by destruct (is_not_None p || is_not_None rl). }
           split.
           ++ destruct m, p, rl, sc; cbn in *; try discriminate;
                by destruct (scale deps rel).
           ++ unfold wrapper_of. rewrite Hh. reflexivity.
        -- destruct sc as [f|]; [|discriminate]. left.
           exists (MouseScroll f (scale deps rel).1 (scale deps rel).2 x y dx dy).
           split; [destruct m, p, rl; cbn; by destruct (scale deps rel)|].
           unfold wrapper_of. rewrite Hh. reflexivity.
  - intros c w s' Hw. rewrite (wrapper_run c w s' Hw).
    assert (Hclock : thread_clock (callback_state c s') = Some SessionClock).
    { destruct c; cbn; try reflexivity;
        destruct (_name_and_number_from_key key_argument); cbn;
        case_bool_decide; reflexivity. }
    split; [exact Hclock|]. split; [|split].
    + destruct c; cbn; try reflexivity;
        destruct (_name_and_number_from_key key_argument); cbn;
        case_bool_decide; reflexivity.
    + intros A code Hkeeps. by rewrite Hkeeps.
    + unfold bracketed.
      destruct (out (user_callback c s' (callback_state c s'))); cbn; auto.
Qed.

Lemma listener_callback_runs_inside_bracket_witness :
  let f : OscCallback := fun _ _ => emit (UserCode "play_note") in
  let r := OscListener 5005 "/note" f "127.0.0.1" in
  let c := OscMessage f [PInt 60] [] in
  let s := new_session 60 in
  setup_failure studio_machine r = None /\
  given studio_machine r c /\
  exists e w,
    e ∈ trace (register studio_machine r s) /\ delivers e w /\
    wrapper_of c = Some w /\
    trace (w s) =
      [RouseAndHold; SetThreadClock (Some SessionClock); UserCode "play_note";
       SetThreadClock None; ReleaseFromSuspension].
Proof.
  intros f r c s. split; [reflexivity|]. split; [reflexivity|].
  destruct (listener_callback_runs_inside_bracket studio_machine r s)
    as (Hgiven & _ & Hrun).
  destruct (Hgiven eq_refl c eq_refl) as (e & w & He & Hd & Hw).
  exists e, w. split; [exact He|]. split; [exact Hd|]. split; [exact Hw|].
  destruct (Hrun c w s Hw) as (_ & _ & _ & Hreturned).
  exact (proj1 Hreturned).
Defined.

(** C2, counterexample: a key-release callback that raises.  The wrapper
    the keyboard listener was given has called [rouse_and_hold] and set
    the thread's clock; the clock is not cleared afterwards and
    [release_from_suspension] is not called. *)
Lemma raising_release_callback_skips_closing_half :
  let f : KeyCallback := fun _ _ => raise (UserException "boom") in
  let key := KeyCode (Some "a") (Some 97) in
  let r := register_keyboard_listener studio_machine None (Some f) false
             (new_session 60) in
  let w := on_release_wrapper (Some f) key in
  trace r = [StartKeyboardListener 0 None (Some (on_release_wrapper (Some f))) false] /\
  wrapper_of (KeyRelease f key) = Some w /\
  out (w (final r)) = Raised (UserException "boom") /\
  trace (w (final r)) = [RouseAndHold; SetThreadClock (Some SessionClock)] /\
  (SetThreadClock None ∉ trace (w (final r))) /\
  (ReleaseFromSuspension ∉ trace (w (final r))) /\
  thread_clock (final (w (final r))) = Some SessionClock.
Proof.
  cbn. repeat split; try reflexivity;
    intros Hin; repeat (apply elem_of_cons in Hin as [Hin|Hin]; [discriminate|]);
    by apply elem_of_nil in Hin.
Qed.

(** C1, as the code has it: the wrappers hold no exception handling.
    When the user callback returns, the wrapper ends by clearing the
    thread's current clock and calling [release_from_suspension], which
    takes back the level of hold it added.  When the callback raises, the
    exception leaves the wrapper at once: nothing is logged after the
    callback's own calls and the state is the one the callback left, hold
    and current clock included. *)
Theorem wrapper_releases_when_callback_returns c w s :
  wrapper_of c = Some w ->
  match out (user_callback c s (callback_state c s)) with
  | Returned _ =>
      out (w s) = Returned tt /\
      trace (w s) =
        [RouseAndHold; SetThreadClock (Some SessionClock)]
          ++ trace (user_callback c s (callback_state c s))
          ++ [SetThreadClock None; ReleaseFromSuspension] /\
      thread_clock (final (w s)) = None /\
      suspension_depth (final (w s)) =
        Nat.pred (suspension_depth (final (user_callback c s (callback_state c s))))
  | Raised e =>
      out (w s) = Raised e /\
      trace (w s) =
        [RouseAndHold; SetThreadClock (Some SessionClock)]
          ++ trace (user_callback c s (callback_state c s)) /\
      final (w s) = final (user_callback c s (callback_state c s))
  end.
Proof.
  intros Hw. rewrite (wrapper_run c w s Hw). unfold bracketed.
  destruct (out (user_callback c s (callback_state c s))); cbn; auto.
Qed.

Lemma wrapper_releases_when_callback_returns_witness :
  let f : KeyCallback := fun name number => emit (UserCode "key_up") in
  let c := KeyRelease f (KeyCode (Some "a") (Some 97)) in
  let w := on_release_wrapper (Some f) (KeyCode (Some "a") (Some 97)) in
  let s := with_keys_down [Some "a"] (new_session 60) in
  wrapper_of c = Some w /\
  out (w s) = Returned tt /\
  trace (w s) =
    [RouseAndHold; SetThreadClock (Some SessionClock); UserCode "key_up";
     SetThreadClock None; ReleaseFromSuspension] /\
  thread_clock (final (w s)) = None /\
  suspension_depth (final (w s)) = 0%nat.
Proof.
  intros f c w s. split; [reflexivity|].
  apply (wrapper_releases_when_callback_returns c w s). reflexivity.
Defined.

(** C1, counterexample: an OSC callback that raises.  The wrapper has
    called [rouse_and_hold] and never calls [release_from_suspension];
    the session stays held and the thread's current clock stays set. *)
Lemma failing_callback_leaves_clock_held :
  let r := callback_wrapper failing_callback [] [] (new_session 60) in
  out r = Raised (UserException "boom") /\
  trace r = [RouseAndHold; SetThreadClock (Some SessionClock)] /\
  (ReleaseFromSuspension ∉ trace r) /\
  suspension_depth (new_session 60) = 0%nat /\
  suspension_depth (final r) = 1%nat /\
  thread_clock (final r) = Some SessionClock.
Proof.
  cbn. repeat split; try reflexivity.
  intros Hin. repeat (apply elem_of_cons in Hin as [Hin|Hin]; [discriminate|]).
  by apply elem_of_nil in Hin.
Qed.

(** A key that is already down: the wrapper still runs its bracket but
    does not call [on_press] again. *)
Example repeated_key_press_skips_callback :
  let c := KeyPress (fun _ _ => emit (UserCode "key_down")) (KeyCode (Some "a") (Some 97)) in
  (fun w => trace (w (with_keys_down [Some "a"] (new_session 60)))) <$> wrapper_of c
  = Some [RouseAndHold; SetThreadClock (Some SessionClock);
          SetThreadClock None; ReleaseFromSuspension].
Proof. reflexivity. Qed.

(** A mouse listener registered with [on_press] only: a button release
    makes the click wrapper call [on_release], which is [None]. *)
Example click_without_callback_raises :
  let c := MouseClick (Some (fun _ _ _ => emit (UserCode "click"))) None
             1 1 10 20 "left" false in
  (fun w => (trace (w (new_session 60)), out (w (new_session 60)),
             suspension_depth (final (w (new_session 60))))) <$> wrapper_of c
  = Some ([RouseAndHold; SetThreadClock (Some SessionClock)],
          Raised TypeError, 1%nat).
Proof. reflexivity. Qed.

(** C4: a [rouse_and_hold] followed by a [release_from_suspension]
    leaves the suspension depth as it was, from every starting depth;
    and so does user code that re-enters wrapped callbacks, nested to any
    depth and in any sequence. *)
Theorem rouse_then_release_keeps_depth :
  (forall s,
     suspension_depth (final ((rouse_and_hold ;; release_from_suspension)%py s))
     = suspension_depth s) /\
  (forall p s,
     out (perform p s) = Returned tt /\
     suspension_depth (final (perform p s)) = suspension_depth s).
Proof.
  split; [reflexivity|].
  induction p as [tag|a IHa b IHb|body IH]; intros s.
  - split; reflexivity.
  - cbn [perform]. destruct (IHa s) as [Ha Hda].
    rewrite (bind_returned _ _ _ _ Ha). cbn.
    destruct (IHb (final (perform a s))) as [Hb Hdb].
    split; [assumption|]. by rewrite Hdb.
  - cbn [perform]. unfold callback_wrapper. rewrite bracket_run.
    destruct (IH (entered s)) as [Hr Hd].
    unfold bracketed. rewrite Hr. cbn. split; [reflexivity|].
    rewrite Hd. reflexivity.
Qed.
End Listeners.

Section SessionState.
Import Session.



(** Registration order on a port already taken: the old listener's port
    is closed before the new listener starts. *)
Example register_midi_twice :
  let register := register_midi_listener studio_machine (PortNumber 1) (fun _ => ret tt) in
  trace ((register ;; register)%py (new_session 60))
  = [StartMidiListener 1 0; ClosePort 0; StartMidiListener 1 1].
Proof. by vm_compute. Qed.

(** C8: [start_transcribing] with no instruments given and an empty
    ensemble raises [ValueError]; in every other case it is the
    transcriber's [start_transcribing], on the given instruments or else
    all the session's, and on the given clock or else the session. *)
Theorem start_transcribing_defaults
    (transcriber : InstrumentsArg -> ClockRef -> string -> M nat)
    instrument_or_instruments clock units s :
  start_transcribing transcriber instrument_or_instruments clock units s =
    match instrument_or_instruments, instruments (ensemble s) with
    | None, [] => Run [] s (Raised ValueError)
    | _, _ =>
        transcriber
          (default (InstrumentList (instruments (ensemble s)))
             instrument_or_instruments)
          (default SessionClock clock)
          units s
    end.
Proof.
  unfold start_transcribing, bind; cbn.
  destruct instrument_or_instruments as [given|],
           (instruments (ensemble s)) as [|i rest] eqn:Hi; cbn;
    rewrite ?Hi; try reflexivity;
    destruct clock; cbn; apply run_eta.
Qed.


End SessionState.

(** ** Loops that do not end *)

Section Forever.
(** A [while True] loop whose body always asks for another round has no
    result. *)
Lemma iter_again_no_result {E J R} (body : J -> itree E (J + R)) :
  (forall i x, Leaf x (body i) -> exists i', x = inl i') ->
  forall entry r, Leaf r (ITree.iter body entry) -> False.
Proof.
  intros Hbody entry r Hleaf.
  apply (Leaf_iter_inv body entry (fun _ => True) (fun _ => False)) in Hleaf;
    [assumption| |exact I].
  intros i x _ Hx. destruct (Hbody i x Hx) as [i' ->]. constructor.
Qed.

End Forever.

(** ** The MIDI listener registry *)

Section MidiRegistry.
Import Session.
Variable deps : Dependencies.

Lemma handle_holds_one_port (open : list (nat * Z)) h p q :
  NoDup open.*1 -> (h, p) ∈ open -> (h, q) ∈ open -> p = q.
Proof.
  induction open as [|[h' p'] open IH]; cbn; intros Hnd Hp Hq.
  - by apply elem_of_nil in Hp.
  - apply NoDup_cons in Hnd as [Hnew Hnd].
    apply elem_of_cons in Hp as [Hp|Hp], Hq as [Hq|Hq].
    + congruence.
    + inversion Hp; subst. destruct Hnew. by apply (list_elem_of_fmap_2 fst) in Hq.
    + inversion Hq; subst. destruct Hnew. by apply (list_elem_of_fmap_2 fst) in Hp.
    + by apply IH.
Qed.

Lemma consistent_closed open registry next p old :
  consistent open registry next ->
  registry !! p = Some old ->
  consistent (filter (fun hp => hp.1 ≠ old) open) (delete p registry) next.
Proof.
  intros (Hiff & Hnd & Hlt) Hold. split; [|split].
  - intros h q. rewrite list_elem_of_filter, Hiff, lookup_delete. cbn.
    case_decide as Hq; [subst q|].
    + split; [|discriminate]. intros [Hne Hh]. congruence.
    + split; [tauto|]. intros Hq'. split; [|assumption].
      intros ->. apply Hq.
      apply Hiff in Hq', Hold. eapply handle_holds_one_port; eassumption.
  - apply (NoDup_fmap_2_strong fst).
    + intros [h1 p1] [h2 p2] H1 H2 Heq. cbn in Heq. subst h2.
      apply list_elem_of_filter in H1 as [_ H1], H2 as [_ H2].
      f_equal. eapply handle_holds_one_port; eassumption.
    + apply NoDup_filter. by apply NoDup_fmap_1 in Hnd.
  - intros h Hh. apply Hlt.
    apply list_elem_of_fmap in Hh as ([h' q] & -> & Hin).
    apply list_elem_of_filter in Hin as [_ Hin].
    by apply (list_elem_of_fmap_2 fst) in Hin.
Qed.

Lemma consistent_opened open registry next p :
  consistent open registry next ->
  registry !! p = None ->
  consistent (open ++ [(next, p)]) (<[p := next]> registry) (S next).
Proof.
  intros (Hiff & Hnd & Hlt) Hfree. split; [|split].
  - intros h q. rewrite elem_of_app, list_elem_of_singleton, Hiff, lookup_insert.
    case_decide as Hq; [subst q|].
    + split; [|intros [= ->]; by right].
      intros [Hh|[= -> ]]; [congruence|reflexivity].
    + split; [|tauto]. intros [Hh|[= _ ->]]; [assumption|done].
  - rewrite fmap_app. apply NoDup_app. split; [assumption|]. split.
    + intros h Hh Hnew. apply list_elem_of_singleton in Hnew. cbn in Hnew. subst h.
      apply Hlt in Hh. lia.
    + apply NoDup_singleton.
  - intros h. rewrite fmap_app, elem_of_app. intros [Hh|Hh].
    + apply Hlt in Hh. lia.
    + apply list_elem_of_singleton in Hh. cbn in Hh. lia.
Qed.

Lemma remove_keeps_consistent arg s :
  midi_consistent s -> midi_consistent (final (remove_midi_listener deps arg s)).
Proof.
  intros Hs. unfold remove_midi_listener.
  destruct (match arg with
            | DeviceName name => get_port_number_of_midi_device deps name
            | PortNumber n => Some n
            end) as [p|]; cbn; [|assumption].
  unfold bind; cbn.
  destruct (midi (_listeners s) !! p) as [old|] eqn:Hold; cbn; [|assumption].
  by apply consistent_closed.
Qed.

Lemma register_keeps_consistent arg f s :
  midi_consistent s -> midi_consistent (final (register_midi_listener deps arg f s)).
Proof.
  intros Hs. unfold register_midi_listener.
  destruct (match arg with
            | DeviceName name => get_port_number_of_midi_device deps name
            | PortNumber n => Some n
            end) as [p|]; cbn; [|assumption].
  case_bool_decide; cbn; [|assumption].
  unfold bind; cbn.
  destruct (midi (_listeners s) !! p) as [old|] eqn:Hold; cbn.
  - rewrite Hold; cbn.
    apply consistent_opened; [by apply consistent_closed|apply lookup_delete_eq].
  - by apply consistent_opened.
Qed.

Lemma calls_keep_consistent calls s :
  midi_consistent s -> midi_consistent (after_calls deps calls s).
Proof.
  revert s. induction calls as [|c calls IH]; intros s Hs; [assumption|].
  cbn. apply IH. destruct c; cbn.
  - by apply register_keeps_consistent.
  - by apply remove_keeps_consistent.
Qed.

Lemma consistent_one_listener_per_port s p :
  midi_consistent s -> (length (listeners_on p s) <= 1)%nat.
Proof.
  intros (Hiff & Hnd & _). unfold listeners_on.
  assert (Hsame : forall x y, x ∈ filter (fun hp => hp.2 = p) (open_ports s) ->
                   y ∈ filter (fun hp => hp.2 = p) (open_ports s) -> x = y).
  { intros [h1 p1] [h2 p2] [H1 Hx]%list_elem_of_filter [H2 Hy]%list_elem_of_filter.
    cbn in H1, H2. subst p1 p2. apply Hiff in Hx, Hy. congruence. }
  assert (Hnd' : NoDup (filter (fun hp => hp.2 = p) (open_ports s))).
  { apply NoDup_filter. by apply NoDup_fmap_1 in Hnd. }
  destruct (filter (fun hp => hp.2 = p) (open_ports s)) as [|x [|y rest]];
    cbn; [lia|lia|].
  apply NoDup_cons in Hnd' as [Hx _]. destruct Hx.
  rewrite (Hsame x y); [left|left|right; left].
Qed.

(** C9: after any sequence of [register_midi_listener] and
    [remove_midi_listener] calls, failed ones included, the registry and
    the open ports agree, so each port has at most one listener.
    Registering on a port that has a listener closes that listener's
    port first, then starts the new listener, which takes the port's
    place in the registry.  Removing a port with no registered listener
    raises [ValueError] and changes nothing. *)
Theorem midi_registry_one_listener_per_port calls s0 :
  midi_consistent s0 ->
  (midi_consistent (after_calls deps calls s0) /\
   forall p, (length (listeners_on p (after_calls deps calls s0)) <= 1)%nat) /\
  (forall s p f old,
     midi (_listeners s) !! p = Some old ->
     p ∈ (get_available_midi_input_devices deps).*1 ->
     out (register_midi_listener deps (PortNumber p) f s) = Returned tt /\
     trace (register_midi_listener deps (PortNumber p) f s)
       = [ClosePort old; StartMidiListener p (next_handle s)] /\
     midi (_listeners (final (register_midi_listener deps (PortNumber p) f s)))
       = <[p := next_handle s]> (midi (_listeners s))) /\
  (forall s p,
     midi (_listeners s) !! p = None ->
     remove_midi_listener deps (PortNumber p) s = Run [] s (Raised ValueError)).
Proof.
  intros Hs0. split; [|split].
  - pose proof (calls_keep_consistent calls s0 Hs0) as Hs.
    split; [assumption|]. intros p. by apply consistent_one_listener_per_port.
  - intros s p f old Hold Hav. unfold register_midi_listener.
    rewrite bool_decide_eq_true_2 by assumption.
    unfold bind; cbn. rewrite Hold; cbn. rewrite Hold; cbn.
    repeat split. apply insert_delete_eq.
  - intros s p Hfree. unfold remove_midi_listener, bind; cbn.
    by rewrite Hfree.
Qed.
End MidiRegistry.

Lemma midi_registry_one_listener_per_port_witness :
  let deps := Session.studio_machine in
  let calls := [Session.Register (Session.DeviceName "Launchpad") (fun _ => ret tt);
                Session.Register (Session.PortNumber 1) (fun _ => ret tt);
                Session.Remove (Session.PortNumber 0)] in
  let s := Session.after_calls deps calls (Session.new_session 60) in
  Session.midi_consistent (Session.new_session 60) /\
  Session.midi (Session._listeners s) = {[ 1 := 1%nat ]} /\
  Session.open_ports s = [(1%nat, 1)] /\
  (forall p, (length (Session.listeners_on p s) <= 1)%nat) /\
  trace (Session.register_midi_listener deps (Session.PortNumber 1) (fun _ => ret tt) s)
    = [Session.ClosePort 1; Session.StartMidiListener 1 2] /\
  Session.remove_midi_listener deps (Session.PortNumber 0) s
    = Run [] s (Raised ValueError).
Proof.
  intros deps calls s.
  assert (H0 : Session.midi_consistent (Session.new_session 60)).
  { split; [|split]; cbn.
    - intros h p. rewrite lookup_empty. split; [|discriminate].
      intros H. by apply elem_of_nil in H.
    - constructor.
    - intros h H. by apply elem_of_nil in H. }
  destruct (midi_registry_one_listener_per_port deps calls _ H0)
    as ((_ & Hone) & Hreg & Hrem).
  split; [exact H0|]. split; [by vm_compute|]. split; [by vm_compute|].
  split; [exact Hone|]. split.
  - apply (Hreg s 1 (fun _ => ret tt) 1%nat); [by vm_compute|].
    cbn. right. left.
  - apply (Hrem s 0). by vm_compute.
Defined.

(** ** The Playcorder *)

Section PlaycorderFacts.
Import Playcorder.

(** C3, as the code has it: [fork] looks at how many parameters the
    action takes.  With none it logs a warning and returns [None]; the
    playcorder is unchanged and nothing is scheduled.  With one or more
    it returns the child clock that the master clock's [fork] creates,
    named and rated as asked, added to the master clock's children, with
    the action scheduled on that child; with more than one a warning is
    logged first. *)
Theorem fork_returns_child_unless_no_parameter process_function name initial_rate s :
  let r := fork process_function name initial_rate s in
  let child := MkClock name initial_rate 0 0 [] in
  match parameters process_function with
  | O =>
      out r = Returned None /\
      final r = s /\
      trace r = [Warning no_parameter]
  | S n =>
      out r = Returned (Some child) /\
      clock_children (master_clock (final r))
        = clock_children (master_clock s) ++ [child] /\
      trace r = (if n is O then [] else [Warning more_than_one_parameter])
                  ++ [Scheduled process_function child]
  end.
Proof.
  unfold fork.
  destruct (parameters process_function) as [|[|n]]; cbn; repeat split.
Qed.

(** C3, counterexample: an action that takes no parameter.  [fork]
    returns [None], not a clock; the master clock has no child and the
    action is not scheduled. *)
Lemma fork_without_parameter_returns_none :
  let action := {| action_name := "melody"; parameters := 0 |} in
  let r := fork action "" 1 (new_playcorder []) in
  out r = Returned None /\
  clock_children (master_clock (final r)) = [] /\
  trace r = [Warning no_parameter].
Proof. repeat split. Qed.

(** *** Recording *)

Lemma give_part_run i s perf :
  performance s = Some perf ->
  out (give_part i s) = Returned tt /\
  performance (final (give_part i s))
    = Some {| performance_id := performance_id perf;
              parts := parts perf ++ [{| part_id := next_object s; instrument := i |}] |} /\
  _recording_start_time (final (give_part i s)) = _recording_start_time s.
Proof.
  intros Hperf. unfold give_part, new_part, bind; cbn.
  rewrite Hperf; cbn. repeat split.
Qed.

Lemma give_parts_run which_parts : forall s perf,
  performance s = Some perf ->
  out (for_each which_parts give_part s) = Returned tt /\
  _recording_start_time (final (for_each which_parts give_part s))
    = _recording_start_time s /\
  exists perf',
    performance (final (for_each which_parts give_part s)) = Some perf' /\
    performance_id perf' = performance_id perf /\
    instrument <$> parts perf' = (instrument <$> parts perf) ++ which_parts.
Proof.
  induction which_parts as [|i rest IH]; intros s perf Hperf.
  - cbn. repeat split. exists perf. by rewrite app_nil_r.
  - destruct (give_part_run i s perf Hperf) as (Hout & Hnext & Htime).
    cbn [for_each]. rewrite (bind_returned _ _ _ _ Hout). cbn [out final].
    destruct (IH _ _ Hnext) as (Hout' & Htime' & perf' & Hperf' & Hid & Hparts).
    split; [assumption|]. split; [congruence|].
    exists perf'. split; [assumption|]. split; [assumption|].
    rewrite Hparts. cbn. rewrite fmap_app, <- app_assoc. reflexivity.
Qed.

Lemma take_part_instruments part s k :
  instruments (final (take_part part s)) !! k =
    if decide (instrument part = k)
    then (fun x => {| sounding := []; _performance_part := None |})
           <$> instruments s !! k
    else instruments s !! k.
Proof.
  unfold take_part, bind; cbn. rewrite !lookup_alter.
  repeat case_decide; subst; try congruence.
  by destruct (instruments s !! instrument part).
Qed.

Lemma take_part_run part s :
  out (take_part part s) = Returned tt /\
  performance (final (take_part part s)) = performance s /\
  _recording_start_time (final (take_part part s)) = _recording_start_time s /\
  cleared (instrument part) (final (take_part part s)) /\
  (forall k, cleared k s -> cleared k (final (take_part part s))).
Proof.
  split; [reflexivity|]. split; [reflexivity|]. split; [reflexivity|].
  split.
  - intros x. rewrite take_part_instruments, decide_True by reflexivity.
    destruct (instruments s !! instrument part); cbn; [|discriminate].
    by intros [= <-].
  - intros k Hk x. rewrite take_part_instruments.
    case_decide; [|apply Hk].
    destruct (instruments s !! k); cbn; [|discriminate]. by intros [= <-].
Qed.

Lemma take_parts_run recorded : forall s,
  out (for_each recorded take_part s) = Returned tt /\
  performance (final (for_each recorded take_part s)) = performance s /\
  _recording_start_time (final (for_each recorded take_part s))
    = _recording_start_time s /\
  (forall k, cleared k s -> cleared k (final (for_each recorded take_part s))) /\
  (forall part, part ∈ recorded ->
     cleared (instrument part) (final (for_each recorded take_part s))).
Proof.
  induction recorded as [|part rest IH]; intros s.
  - cbn. repeat split; [auto|]. intros part H. by apply elem_of_nil in H.
  - destruct (take_part_run part s) as (Hout & Hperf & Htime & Hdone & Hkeep).
    cbn [for_each]. rewrite (bind_returned _ _ _ _ Hout). cbn [out final].
    destruct (IH (final (take_part part s)))
      as (Hout' & Hperf' & Htime' & Hkeep' & Hdone').
    split; [assumption|]. split; [congruence|]. split; [congruence|].
    split; [auto|].
    intros q [->|Hq]%elem_of_cons; auto.
Qed.

Lemma stop_recording_run s perf :
  performance s = Some perf ->
  out (stop_recording s) = Returned perf /\
  is_recording (final (stop_recording s)) = false /\
  forall part, part ∈ parts perf -> cleared (instrument part) (final (stop_recording s)).
Proof.
  intros Hperf.
  destruct (take_parts_run (parts perf) s) as (Hout & Hsame & _ & _ & Hdone).
  unfold stop_recording, bind at 1. cbn. rewrite Hperf.
  change (for_each (parts perf) _) with (for_each (parts perf) take_part).
  rewrite (bind_returned _ _ _ _ Hout). unfold bind; cbn.
  rewrite Hsame, Hperf; cbn. repeat split. exact Hdone.
Qed.

(** C10: once [start_recording] has returned, [is_recording] is true and
    the playcorder holds a new performance with one part per instrument
    asked for.  [stop_recording], called while the playcorder still holds
    that performance, returns it; afterwards [is_recording] is false and
    the instrument of every part of the performance has no performance
    part. *)
Theorem recording_lifecycle which_parts clock s :
  out (start_recording which_parts clock s) = Returned tt ->
  is_recording (final (start_recording which_parts clock s)) = true /\
  exists perf,
    performance (final (start_recording which_parts clock s)) = Some perf /\
    performance_id perf = next_object s /\
    instrument <$> parts perf = default (ensemble_instruments s) which_parts /\
    forall s',
      performance s' = Some perf ->
      out (stop_recording s') = Returned perf /\
      is_recording (final (stop_recording s')) = false /\
      forall part, part ∈ parts perf ->
        cleared (instrument part) (final (stop_recording s')).
Proof.
  intros Hstart.
  assert (Hrun : exists s1 t,
    start_recording which_parts clock s
      = (for_each (default (ensemble_instruments s) which_parts) give_part) s1 /\
    performance s1 = Some {| performance_id := next_object s; parts := [] |} /\
    _recording_start_time s1 = Some t).
  { revert Hstart. unfold start_recording, bind at 1 2 3 4 5 6 7. cbn.
    destruct clock as [str|c]; cbn.
    - destruct (String.eqb str "master"); cbn.
      + intros _.
        exists (about_to_record (ClockObj (master_clock s))
                  (clock_beats (master_clock s)) s), (clock_beats (master_clock s)).
        split; [|split; reflexivity].
        rewrite <- run_eta. destruct which_parts; reflexivity.
      + destruct (String.eqb str "absolute"); cbn; [|discriminate].
        intros _.
        exists (about_to_record (ClockStr str) (clock_time (master_clock s)) s),
               (clock_time (master_clock s)).
        split; [|split; reflexivity].
        rewrite <- run_eta. destruct which_parts; reflexivity.
    - intros _.
      exists (about_to_record (ClockObj c) (clock_beats c) s), (clock_beats c).
      split; [|split; reflexivity].
      rewrite <- run_eta. destruct which_parts; reflexivity. }
  destruct Hrun as (s1 & t & -> & Hperf & Htime).
  destruct (give_parts_run (default (ensemble_instruments s) which_parts) s1 _ Hperf)
    as (_ & Htime' & perf & Hperf' & Hid & Hparts).
  split; [unfold is_recording; by rewrite Htime', Htime|].
  exists perf. split; [assumption|]. split; [assumption|]. split; [assumption|].
  intros s' Hs'. by apply stop_recording_run.
Qed.

Lemma recording_lifecycle_witness :
  let s := new_playcorder [7; 9]%nat in
  let started := start_recording None (ClockStr "absolute") s in
  let stopped := stop_recording (final started) in
  out started = Returned tt /\
  (_performance_part <$> instruments (final started) !! 7%nat
     = Some (Some {| part_id := 1; instrument := 7 |}) /\
   _performance_part <$> instruments (final stopped) !! 7%nat = Some None /\
   _performance_part <$> instruments (final stopped) !! 9%nat = Some None) /\
  is_recording (final started) = true /\
  exists perf,
    performance (final started) = Some perf /\
    performance_id perf = 0%nat /\
    instrument <$> parts perf = [7; 9]%nat /\
    forall s',
      performance s' = Some perf ->
      out (stop_recording s') = Returned perf /\
      is_recording (final (stop_recording s')) = false /\
      forall part, part ∈ parts perf ->
        cleared (instrument part) (final (stop_recording s')).
Proof.
  intros s started stopped. split; [reflexivity|].
  split; [repeat split; by vm_compute|].
  apply (recording_lifecycle None (ClockStr "absolute") s). reflexivity.
Defined.
End PlaycorderFacts.

(** ** Further properties of the session *)

Section KeyTracking.
Import Session.

Lemma list_remove_subset name l x : x ∈ list_remove name l -> x ∈ l.
Proof.
  induction l as [|y l IH]; cbn; [done|].
  case_decide; rewrite !elem_of_cons; [tauto|].
  intros [->|Hx]; [by left|right; by apply IH].
Qed.

Lemma list_remove_NoDup name l :
  NoDup l -> NoDup (list_remove name l) /\ name ∉ list_remove name l.
Proof.
  induction l as [|y l IH]; cbn; intros Hnd.
  - split; [constructor|]. apply not_elem_of_nil.
  - apply NoDup_cons in Hnd as [Hy Hnd]. case_decide as Heq.
    + subst y. done.
    + destruct (IH Hnd) as [IH1 IH2]. split.
      * apply NoDup_cons. split; [|assumption].
        intros Hin. by apply list_remove_subset in Hin.
      * rewrite elem_of_cons. intros [->|Hin]; [done|by apply IH2].
Qed.

(** The wrapper leaves [keys_down] as it was when the user callback was
    entered. *)
Lemma key_wrapper_keys_down c w s :
  wrapper_of c = Some w ->
  match c with
  | KeyPress f _ | KeyRelease f _ => keeps_keys_down f
  | _ => False
  end ->
  keys_down (final (w s)) = keys_down (callback_state c s).
Proof.
  intros Hw Hkeep. rewrite (wrapper_run c w s Hw). unfold bracketed.
  assert (Huser : keys_down (final (user_callback c s (callback_state c s)))
                  = keys_down (callback_state c s)).
  { destruct c; try done; cbn;
      destruct (_name_and_number_from_key key_argument) as [name number]; cbn.
    - case_bool_decide; [reflexivity|apply Hkeep].
    - apply Hkeep. }
  destruct (out (user_callback c s (callback_state c s))); cbn; exact Huser.
Qed.

(** X1: [keys_down] follows the keys that are held.  Whatever the
    callbacks do short of touching [keys_down], after the press wrapper has
    run the key's name is in [keys_down], after either release wrapper has
    run it is not, and the list never holds a name twice. *)
Theorem keys_down_tracks_held_keys (on_press on_release : KeyCallback) key s w :
  keeps_keys_down on_press ->
  keeps_keys_down on_release ->
  NoDup (keys_down s) ->
  on_press_wrapper (Some on_press) = Some w ->
  ((_name_and_number_from_key key).1 ∈ keys_down (final (w key s)) /\
   NoDup (keys_down (final (w key s)))) /\
  (((_name_and_number_from_key key).1
      ∉ keys_down (final (on_release_wrapper (Some on_release) key s))) /\
   NoDup (keys_down (final (on_release_wrapper (Some on_release) key s)))) /\
  (((_name_and_number_from_key key).1
      ∉ keys_down (final (on_release_wrapper None key s))) /\
   NoDup (keys_down (final (on_release_wrapper None key s)))).
Proof.
  intros Hp Hr Hnd Hw.
  assert (Hpress : wrapper_of (KeyPress on_press key) = Some (w key)).
  { cbn in *. by inversion Hw. }
  assert (Hrelease : wrapper_of (KeyRelease on_release key)
                     = Some (on_release_wrapper (Some on_release) key)) by reflexivity.
  rewrite (key_wrapper_keys_down _ _ s Hpress Hp).
  rewrite (key_wrapper_keys_down _ _ s Hrelease Hr).
  cbn [callback_state].
  destruct (list_remove_NoDup (_name_and_number_from_key key).1 _ Hnd) as [Hnd' Hout].
  split; [|split].
  - case_bool_decide as Hin; cbn; [done|].
    split; [apply elem_of_app; right; by left|].
    apply NoDup_app. split; [assumption|]. split; [|apply NoDup_singleton].
    intros x Hx ->%list_elem_of_singleton. done.
  - case_bool_decide as Hin; cbn; done.
  - unfold on_release_wrapper, bind; cbn.
    destruct (_name_and_number_from_key key) as [name number]; cbn in *.
    case_bool_decide as Hin; cbn; done.
Qed.

Lemma keys_down_tracks_held_keys_witness :
  let f : KeyCallback := fun _ _ => emit (UserCode "key") in
  let key := KeyCode (Some "a") (Some 97) in
  let s := new_session 60 in
  match on_press_wrapper (Some f) with
  | Some w =>
      keys_down (final (w key s)) = [Some "a"] /\
      Some "a" ∈ keys_down (final (w key s)) /\
      (Some "a" ∉ keys_down (final (on_release_wrapper (Some f) key (final (w key s)))))
  | None => False
  end.
Proof.
  intros f key s.
  assert (Hf : keeps_keys_down f) by (intros ? ? ?; reflexivity).
  destruct (on_press_wrapper (Some f)) as [w|] eqn:Hw; [|discriminate].
  split; [by inversion Hw|]. split.
  - apply (keys_down_tracks_held_keys f f key s w Hf Hf); [constructor|exact Hw].
  - apply (keys_down_tracks_held_keys f f key (final (w key s)) w Hf Hf);
      [|exact Hw].
    inversion Hw. cbn. apply NoDup_singleton.
Defined.

(** X2: a key that is held calls [on_press] once.  After the press wrapper
    has run for a key, running it again for the same key, with no release
    in between, logs the bare bracket and nothing of the user's. *)
Theorem held_key_calls_on_press_once (on_press : KeyCallback) key s w :
  keeps_keys_down on_press ->
  on_press_wrapper (Some on_press) = Some w ->
  trace (w key (final (w key s))) = bare_bracket /\
  out (w key (final (w key s))) = Returned tt.
Proof.
  intros Hp Hw.
  assert (Hpress : wrapper_of (KeyPress on_press key) = Some (w key)).
  { cbn in *. by inversion Hw. }
  assert (Hdown : (_name_and_number_from_key key).1 ∈ keys_down (final (w key s))).
  { rewrite (key_wrapper_keys_down _ _ s Hpress Hp). cbn.
    case_bool_decide; cbn; [done|]. apply elem_of_app; right; by left. }
  rewrite (wrapper_run _ _ (final (w key s)) Hpress).
  unfold bracketed, user_callback.
  destruct (_name_and_number_from_key key) as [name number]; cbn in *.
  by rewrite bool_decide_eq_true_2.
Qed.

Lemma held_key_calls_on_press_once_witness :
  let f : KeyCallback := fun _ _ => emit (UserCode "key") in
  let key := Key "space" (Some 32) in
  match on_press_wrapper (Some f) with
  | Some w =>
      trace (w key (new_session 60)) =
        [RouseAndHold; SetThreadClock (Some SessionClock); UserCode "key";
         SetThreadClock None; ReleaseFromSuspension] /\
      trace (w key (final (w key (new_session 60)))) = bare_bracket
  | None => False
  end.
Proof.
  intros f key.
  destruct (on_press_wrapper (Some f)) as [w|] eqn:Hw; [|discriminate].
  split; [by inversion Hw|].
  apply (held_key_calls_on_press_once f key (new_session 60) w); [|exact Hw].
  intros ? ? ?; reflexivity.
Defined.
End KeyTracking.

Section RegistryRoundTrips.
Import Session.
Variable deps : Dependencies.

Lemma filter_keeps_all {A} (P : A -> Prop) `{forall x, Decision (P x)} (l : list A) :
  (forall x, x ∈ l -> P x) -> filter P l = l.
Proof.
  induction l as [|x l IH]; intros Hall; [reflexivity|].
  rewrite filter_cons, decide_True by (apply Hall; by left).
  f_equal. apply IH. intros y Hy. apply Hall. by right.
Qed.

Lemma register_osc_known port pattern f ip s entry :
  pythonosc deps = true ->
  osc (_listeners s) !! (ip, port) = Some entry ->
  register_osc_listener deps port pattern f ip s
  = Run [OscMap (dispatcher entry) pattern (callback_wrapper f)] s (Returned tt).
Proof.
  intros Hdep Hentry. unfold register_osc_listener, bind. rewrite Hdep. cbn.
  rewrite Hentry. cbn. by rewrite Hentry.
Qed.

Lemma register_osc_new port pattern f ip s :
  pythonosc deps = true ->
  osc (_listeners s) !! (ip, port) = None ->
  out (register_osc_listener deps port pattern f ip s) = Returned tt /\
  trace (register_osc_listener deps port pattern f ip s)
    = [NewDispatcher (next_handle s); NewOscServer ip port (S (next_handle s));
       ForkUnsynchronized "serve_forever";
       OscMap (next_handle s) pattern (callback_wrapper f)] /\
  _listeners (final (register_osc_listener deps port pattern f ip s))
    = with_osc
        (<[(ip, port) := {| server := S (next_handle s); dispatcher := next_handle s |}]>
           (osc (_listeners s)))
        (_listeners s).
Proof.
  intros Hdep Hentry. unfold register_osc_listener, bind. rewrite Hdep. cbn.
  rewrite Hentry. cbn. rewrite lookup_insert_eq. cbn. done.
Qed.

(** X3: one server per OSC address.  Whatever the registry held before, a
    registration on an address already registered starts nothing new: it
    maps the new pattern, with the wrapper of the new callback, on the
    dispatcher that is there and leaves the session as it was. *)
Theorem osc_address_shares_one_server port ip pattern1 f1 pattern2 f2 s :
  pythonosc deps = true ->
  exists entry,
    osc (_listeners (final (register_osc_listener deps port pattern1 f1 ip s)))
      !! (ip, port) = Some entry /\
    register_osc_listener deps port pattern2 f2 ip
      (final (register_osc_listener deps port pattern1 f1 ip s))
    = Run [OscMap (dispatcher entry) pattern2 (callback_wrapper f2)]
          (final (register_osc_listener deps port pattern1 f1 ip s))
          (Returned tt).
Proof.
  intros Hdep.
  destruct (osc (_listeners s) !! (ip, port)) as [entry|] eqn:Hentry.
  - exists entry. rewrite (register_osc_known port pattern1 f1 ip s entry Hdep Hentry).
    cbn. split; [assumption|]. by apply register_osc_known.
  - destruct (register_osc_new port pattern1 f1 ip s Hdep Hentry) as (_ & _ & Hosc).
    eexists. split; [rewrite Hosc; apply lookup_insert_eq|].
    apply register_osc_known; [assumption|].
    rewrite Hosc. apply lookup_insert_eq.
Qed.

(** X4: registering an OSC listener on a free address and removing it
    again: the removal shuts down the server the registration made, and
    the listener registry is back as it was. *)
Theorem osc_register_then_remove port ip pattern f s :
  pythonosc deps = true ->
  osc (_listeners s) !! (ip, port) = None ->
  out (remove_osc_listener port ip
         (final (register_osc_listener deps port pattern f ip s))) = Returned tt /\
  trace (register_osc_listener deps port pattern f ip s)
    ++ trace (remove_osc_listener port ip
                (final (register_osc_listener deps port pattern f ip s)))
    = [NewDispatcher (next_handle s); NewOscServer ip port (S (next_handle s));
       ForkUnsynchronized "serve_forever";
       OscMap (next_handle s) pattern (callback_wrapper f);
       OscShutdown (S (next_handle s))] /\
  _listeners (final (remove_osc_listener port ip
         (final (register_osc_listener deps port pattern f ip s))))
    = _listeners s.
Proof.
  intros Hdep Hentry.
  destruct (register_osc_new port pattern f ip s Hdep Hentry) as (_ & Htrace & Hosc).
  rewrite Htrace. clear Htrace.
  remember (final (register_osc_listener deps port pattern f ip s)) as s1.
  unfold remove_osc_listener, bind; cbn.
  rewrite Hosc; cbn. rewrite lookup_insert_eq; cbn. repeat split.
  rewrite delete_insert_eq, (delete_id _ _ Hentry). rewrite ?Hosc.
  destruct (_listeners s); reflexivity.
Qed.

(** X5: registering a MIDI listener on a free, available port and removing
    it again gives back the registry and the open ports as they were. *)
Theorem midi_register_then_remove p f s :
  midi_consistent s ->
  midi (_listeners s) !! p = None ->
  p ∈ (get_available_midi_input_devices deps).*1 ->
  out (remove_midi_listener deps (PortNumber p)
         (final (register_midi_listener deps (PortNumber p) f s))) = Returned tt /\
  trace (register_midi_listener deps (PortNumber p) f s)
    ++ trace (remove_midi_listener deps (PortNumber p)
                (final (register_midi_listener deps (PortNumber p) f s)))
    = [StartMidiListener p (next_handle s); ClosePort (next_handle s)] /\
  midi (_listeners (final (remove_midi_listener deps (PortNumber p)
          (final (register_midi_listener deps (PortNumber p) f s)))))
    = midi (_listeners s) /\
  open_ports (final (remove_midi_listener deps (PortNumber p)
          (final (register_midi_listener deps (PortNumber p) f s))))
    = open_ports s.
Proof.
  intros (_ & _ & Hlt) Hfree Hav.
  unfold register_midi_listener. rewrite bool_decide_eq_true_2 by assumption.
  unfold remove_midi_listener, bind; cbn. rewrite Hfree; cbn.
  rewrite lookup_insert_eq; cbn. repeat split.
  - rewrite delete_insert_eq. by apply delete_id.
  - rewrite filter_app. cbn. rewrite decide_False by (intros H; by apply H).
    rewrite app_nil_r. apply filter_keeps_all.
    intros [h q] Hin. cbn. intros ->.
    apply (list_elem_of_fmap_2 fst) in Hin. apply Hlt in Hin. cbn in Hin. lia.
Qed.
End RegistryRoundTrips.

Lemma osc_address_shares_one_server_witness :
  let deps := Session.studio_machine in
  let once := Session.register_osc_listener deps 5005 "/gesture/start" (fun _ _ => ret tt)
                "127.0.0.1" (Session.new_session 60) in
  Session.pythonosc deps = true /\
  trace once = [Session.NewDispatcher 0; Session.NewOscServer "127.0.0.1" 5005 1;
                Session.ForkUnsynchronized "serve_forever";
                Session.OscMap 0 "/gesture/start"
                  (Session.callback_wrapper (fun _ _ => ret tt))] /\
  exists entry,
    Session.osc (Session._listeners (final once)) !! ("127.0.0.1", 5005) = Some entry /\
    Session.register_osc_listener deps 5005 "/gesture/stop" (fun _ _ => ret tt)
      "127.0.0.1" (final once)
    = Run [Session.OscMap (Session.dispatcher entry) "/gesture/stop"
             (Session.callback_wrapper (fun _ _ => ret tt))] (final once)
        (Returned tt).
Proof.
  intros deps once. split; [reflexivity|]. split; [reflexivity|].
  apply (osc_address_shares_one_server deps 5005 "127.0.0.1"). reflexivity.
Defined.

Lemma osc_register_then_remove_witness :
  let deps := Session.studio_machine in
  let s := Session.new_session 60 in
  let registered := final (Session.register_osc_listener deps 5005 "/note"
                             (fun _ _ => ret tt) "127.0.0.1" s) in
  Session.osc (Session._listeners registered) !! ("127.0.0.1", 5005)
    = Some {| Session.server := 1; Session.dispatcher := 0 |} /\
  trace (Session.remove_osc_listener 5005 "127.0.0.1" registered)
    = [Session.OscShutdown 1] /\
  Session._listeners
     (final (Session.remove_osc_listener 5005 "127.0.0.1" registered))
    = Session._listeners s.
Proof.
  intros deps s registered.
  destruct (osc_register_then_remove deps 5005 "127.0.0.1" "/note"
              (fun _ _ => ret tt) s) as (_ & _ & Hosc);
    [reflexivity|reflexivity|].
  split; [reflexivity|]. split; [reflexivity|exact Hosc].
Defined.

Lemma midi_register_then_remove_witness :
  let deps := Session.studio_machine in
  let s := Session.new_session 60 in
  let registered := final (Session.register_midi_listener deps (Session.PortNumber 1)
                             (fun _ => ret tt) s) in
  Session.midi (Session._listeners registered) = {[ 1 := 0%nat ]} /\
  Session.midi (Session._listeners
     (final (Session.remove_midi_listener deps (Session.PortNumber 1) registered))) = ∅ /\
  Session.open_ports
     (final (Session.remove_midi_listener deps (Session.PortNumber 1) registered)) = [].
Proof.
  intros deps s registered. split; [by vm_compute|].
  destruct (midi_register_then_remove deps 1 (fun _ => ret tt) s)
    as (_ & _ & Hmidi & Hopen).
  - split; [|split]; cbn.
    + intros h p. rewrite lookup_empty. split; [|discriminate].
      intros H. by apply elem_of_nil in H.
    + constructor.
    + intros h H. by apply elem_of_nil in H.
  - reflexivity.
  - cbn. right. left.
  - split; [exact Hmidi|exact Hopen].
Defined.

Section InputListeners.
Import Session.
Variable deps : Dependencies.

Lemma started_snoc log e :
  started (log ++ [e]) = started log ++ started [e].
Proof. unfold started. by rewrite omap_app. Qed.

Lemma stopped_snoc log e :
  stopped (log ++ [e]) = stopped log ++ stopped [e].
Proof. unfold stopped. by rewrite omap_app. Qed.

Lemma accounted_tk log kb ms next :
  accounted log kb ms next -> accounted (log ++ [TkRoot]) kb ms next.
Proof.
  unfold accounted. rewrite started_snoc, stopped_snoc. cbn.
  by rewrite !app_nil_r.
Qed.

Lemma accounted_stop_keyboard log h ms next :
  accounted log (Some h) ms next ->
  accounted (log ++ [StopListener h]) None ms next.
Proof.
  intros (Hiff & Hlt & Hne). unfold accounted.
  rewrite started_snoc, stopped_snoc. cbn. rewrite app_nil_r.
  split; [|split].
  - intros h'. rewrite not_elem_of_app, list_elem_of_singleton. split.
    + intros (Hs & Hn & Hh). right.
      destruct (proj1 (Hiff h') (conj Hs Hn)) as [[= Heq]|Hm]; [by subst|done].
    + intros [[=]|Hm]. destruct (proj2 (Hiff h') (or_intror Hm)) as [Hs Hn].
      repeat split; try done. intros ->. by specialize (Hne (eq_sym Hm)).
  - intros h'. rewrite elem_of_app, list_elem_of_singleton.
    intros [Hs|[Hn| ->]]; [apply Hlt; by left|apply Hlt; by right|].
    apply Hlt. left. by apply (Hiff h); left.
  - done.
Qed.

Lemma accounted_stop_mouse log kb h next :
  accounted log kb (Some h) next ->
  accounted (log ++ [StopListener h]) kb None next.
Proof.
  intros (Hiff & Hlt & Hne). unfold accounted.
  rewrite started_snoc, stopped_snoc. cbn. rewrite app_nil_r.
  split; [|split].
  - intros h'. rewrite not_elem_of_app, list_elem_of_singleton. split.
    + intros (Hs & Hn & Hh). left.
      destruct (proj1 (Hiff h') (conj Hs Hn)) as [Hk|[= Heq]]; [done|by subst].
    + intros [Hk|[=]]. destruct (proj2 (Hiff h') (or_introl Hk)) as [Hs Hn].
      repeat split; try done. intros ->. specialize (Hne Hk). congruence.
  - intros h'. rewrite elem_of_app, list_elem_of_singleton.
    intros [Hs|[Hn| ->]]; [apply Hlt; by left|apply Hlt; by right|].
    apply Hlt. left. by apply (Hiff h); right.
  - intros ->. reflexivity.
Qed.

Lemma accounted_start log kb ms next e :
  started [e] = [next] -> stopped [e] = [] ->
  (accounted log None ms next -> accounted (log ++ [e]) (Some next) ms (S next)) /\
  (accounted log kb None next -> accounted (log ++ [e]) kb (Some next) (S next)).
Proof.
  intros He1 He2.
  assert (Hstep : forall a b, accounted log a b next -> (a = None \/ b = None) ->
            forall a' b', (forall h, (a' = Some h \/ b' = Some h)
                                      <-> (h = next \/ a = Some h \/ b = Some h)) ->
                          (a' = b' -> a' = None) ->
                          accounted (log ++ [e]) a' b' (S next)).
  { intros a b (Hiff & Hlt & Hne) Hnone a' b' Hnew Hne'. unfold accounted.
    rewrite started_snoc, stopped_snoc, He1, He2, app_nil_r.
    split; [|split; [|assumption]].
    - intros h. rewrite elem_of_app, list_elem_of_singleton, Hnew, <- Hiff. split.
      + intros [[Hs| ->] Hn]; [right|left]; done.
      + intros [->|[Hs Hn]]; [|split; [by left|done]].
        split; [by right|]. intros Hn.
        assert (next < next)%nat by (apply Hlt; by right). lia.
    - intros h. rewrite elem_of_app, list_elem_of_singleton.
      intros [[Hs| ->]|Hn]; [| lia |].
      + assert (h < next)%nat by (apply Hlt; by left). lia.
      + assert (h < next)%nat by (apply Hlt; by right). lia. }
  split; intros Hacc.
  - apply (Hstep None ms Hacc); [by left| |].
    + intros h. split; [intros [[= ->]|Hm]; auto|].
      intros [->|[[=]|Hm]]; auto.
    + intros Heq. destruct Hacc as (Hiff & Hlt & _).
      assert (next < next)%nat; [|lia].
      apply Hlt. left. apply (Hiff next). by right.
  - apply (Hstep kb None Hacc); [by right| |].
    + intros h. split; [intros [Hk|[= ->]]; auto|].
      intros [->|[Hk|[=]]]; auto.
    + intros Heq. destruct Hacc as (Hiff & Hlt & _).
      assert (next < next)%nat; [|lia].
      apply Hlt. left. apply (Hiff next). by left.
Qed.

Lemma accounted_start_keyboard log ms next e :
  started [e] = [next] -> stopped [e] = [] ->
  accounted log None ms next -> accounted (log ++ [e]) (Some next) ms (S next).
Proof. intros H1 H2. by apply (accounted_start log None ms next e). Qed.

Lemma accounted_start_mouse log kb next e :
  started [e] = [next] -> stopped [e] = [] ->
  accounted log kb None next -> accounted (log ++ [e]) kb (Some next) (S next).
Proof. intros H1 H2. by apply (accounted_start log kb None next e). Qed.

Lemma input_call_accounted c log s :
  inputs_accounted log s ->
  inputs_accounted (log ++ trace (input_call deps c s)) (final (input_call deps c s)).
Proof.
  unfold inputs_accounted. intros Hacc.
  assert (Hrk : let r := remove_keyboard_listener s in
                accounted (log ++ trace r) (keyboard (_listeners (final r)))
                  (mouse (_listeners (final r))) (next_handle (final r)) /\
                keyboard (_listeners (final r)) = None /\ out r = Returned tt).
  { unfold remove_keyboard_listener, bind; cbn.
    destruct (keyboard (_listeners s)) as [h|] eqn:Hk; cbn.
    - split; [by apply accounted_stop_keyboard|done].
    - rewrite app_nil_r, Hk. done. }
  assert (Hrm : let r := remove_mouse_listener s in
                accounted (log ++ trace r) (keyboard (_listeners (final r)))
                  (mouse (_listeners (final r))) (next_handle (final r)) /\
                mouse (_listeners (final r)) = None /\ out r = Returned tt).
  { unfold remove_mouse_listener, bind; cbn.
    destruct (mouse (_listeners s)) as [h|] eqn:Hm; cbn.
    - split; [by apply accounted_stop_mouse|done].
    - rewrite app_nil_r, Hm. done. }
  destruct c as [p r sup| |mv p r sc sup rel|]; cbn [input_call].
  - unfold register_keyboard_listener.
    destruct (pynput deps); [|cbn; by rewrite app_nil_r].
    destruct Hrk as (Hacc' & Hnone & Hout).
    rewrite (bind_returned _ _ _ _ Hout).
    remember (remove_keyboard_listener s) as r0. clear Heqr0.
    unfold bind; cbn. rewrite app_assoc.
    rewrite Hnone in Hacc'.
    by apply accounted_start_keyboard.
  - apply Hrk.
  - unfold register_mouse_listener.
    destruct (pynput deps); [|cbn; by rewrite app_nil_r].
    destruct Hrm as (Hacc' & Hnone & Hout).
    rewrite (bind_returned _ _ _ _ Hout).
    remember (remove_mouse_listener s) as r0. clear Heqr0.
    rewrite Hnone in Hacc'.
    unfold bind; cbn. destruct rel; cbn.
    + destruct (tkinter deps) as [[wd ht]|]; cbn.
      * match goal with
        | |- context [ [TkRoot; ?e] ] => change [TkRoot; e] with ([TkRoot] ++ [e])
        end.
        rewrite !app_assoc.
        apply accounted_start_mouse; [done|done|].
        by apply accounted_tk.
      * rewrite app_nil_r, Hnone. exact Hacc'.
    + rewrite app_assoc.
      by apply accounted_start_mouse.
  - apply Hrm.
Qed.

(** X6: no keyboard or mouse listener is left running behind the
    registry's back.  After any sequence of keyboard and mouse
    registrations and removals, failed ones included, the listeners that
    were started and not stopped are exactly the ones the registry holds
    (at most one for the keyboard and one for the mouse). *)
Theorem input_listeners_accounted calls log s :
  inputs_accounted log s ->
  inputs_accounted (after_input_calls deps calls log s).1
                   (after_input_calls deps calls log s).2.
Proof.
  revert log s. induction calls as [|c calls IH]; intros log s Hacc; [assumption|].
  cbn. apply IH. by apply input_call_accounted.
Qed.
End InputListeners.

Section MouseRegistration.
Import Session.
Variable deps : Dependencies.

(** X7: a mouse registration that asks for relative coordinates on a
    machine without tkinter raises [ImportError] only after it has stopped
    and dropped the mouse listener that was running; the rest of the
    registry is as before. *)
Theorem mouse_registration_without_tkinter_drops_listener
    on_move on_press on_release on_scroll suppress s :
  pynput deps = true ->
  tkinter deps = None ->
  out (register_mouse_listener deps on_move on_press on_release on_scroll suppress true s)
    = Raised ImportError /\
  trace (register_mouse_listener deps on_move on_press on_release on_scroll suppress true s)
    = match mouse (_listeners s) with
      | Some running => [StopListener running]
      | None => []
      end /\
  _listeners (final (register_mouse_listener deps on_move on_press on_release
                       on_scroll suppress true s))
    = with_mouse None (_listeners s).
Proof.
  intros Hpynput Htk. unfold register_mouse_listener, remove_mouse_listener, bind.
  rewrite Hpynput, Htk; cbn.
  destruct (mouse (_listeners s)) as [h|] eqn:Hm; cbn; repeat split.
  destruct s as [? ? ? ? ? [? ? ? ?] ? ? ? ?]; cbn in *. by subst.
Qed.
End MouseRegistration.

Lemma mouse_registration_without_tkinter_drops_listener_witness :
  let deps := {| Session.pythonosc := true; Session.pynput := true;
                 Session.tkinter := None;
                 Session.get_available_midi_input_devices := [];
                 Session.get_port_number_of_midi_device := fun _ => None |} in
  let s := Session.with_listeners
             {| Session.midi := ∅; Session.osc := ∅; Session.keyboard := Some 3%nat;
                Session.mouse := Some 5%nat |}
             (Session.new_session 60) in
  let r := Session.register_mouse_listener deps None None None None false true s in
  out r = Raised ImportError /\
  trace r = [Session.StopListener 5] /\
  Session._listeners (final r)
    = {| Session.midi := ∅; Session.osc := ∅; Session.keyboard := Some 3%nat;
         Session.mouse := None |}.
Proof.
  intros deps s r.
  apply (mouse_registration_without_tkinter_drops_listener deps None None None None
           false s); reflexivity.
Defined.

Lemma input_listeners_accounted_witness :
  let deps := Session.studio_machine in
  let calls := [Session.RegisterKeyboard None None false;
                Session.RegisterMouse None None None None false true;
                Session.RegisterKeyboard None None true;
                Session.RemoveMouse] in
  let after := Session.after_input_calls deps calls [] (Session.new_session 60) in
  Session.inputs_accounted [] (Session.new_session 60) /\
  Session.started after.1 = [0; 1; 2]%nat /\
  Session.stopped after.1 = [0; 1]%nat /\
  Session.keyboard (Session._listeners after.2) = Some 2%nat /\
  Session.mouse (Session._listeners after.2) = None /\
  Session.inputs_accounted after.1 after.2.
Proof.
  intros deps calls after.
  assert (H0 : Session.inputs_accounted [] (Session.new_session 60)).
  { split; [|split]; cbn; [|intros h [H|H]; by apply elem_of_nil in H|done].
    intros h. split; [intros [H _]; by apply elem_of_nil in H|intros [|]; discriminate]. }
  split; [exact H0|]. repeat (split; [reflexivity|]).
  apply (input_listeners_accounted deps calls [] _ H0).
Defined.

(** ** Further properties of the Playcorder *)

Section Recording.
Import Playcorder.

(** [start_recording] on an accepted clock is its loop run from the state
    in which everything but the parts is in place. *)
Lemma start_recording_accepted which_parts clock s :
  accepted_clock clock = true ->
  exists recording_clock start,
    readable (Some recording_clock) /\
    start_recording which_parts clock s
      = for_each (default (ensemble_instruments s) which_parts) give_part
          (about_to_record recording_clock start s).
Proof.
  intros Hok. unfold start_recording, bind at 1 2 3 4 5 6 7. cbn.
  destruct clock as [str|c]; cbn in *.
  - destruct (String.eqb str "master"); cbn in *.
    + exists (ClockObj (master_clock s)), (clock_beats (master_clock s)).
      split; [exact I|].
      rewrite <- run_eta. destruct which_parts; reflexivity.
    + rewrite Hok; cbn.
      exists (ClockStr str), (clock_time (master_clock s)).
      split; [exact Hok|].
      rewrite <- run_eta. destruct which_parts; reflexivity.
  - exists (ClockObj c), (clock_beats c). split; [exact I|].
    rewrite <- run_eta. destruct which_parts; reflexivity.
Qed.

Lemma start_recording_rejected which_parts clock s :
  accepted_clock clock = false ->
  start_recording which_parts clock s = Run [] s (Raised AssertionError).
Proof.
  intros Hok. destruct clock as [str|c]; [|discriminate]. cbn in Hok.
  apply orb_false_iff in Hok as [Hm Ha].
  unfold start_recording, bind; cbn. by rewrite Hm, Ha.
Qed.

(** X8: [start_recording] checks its clock before it touches anything.  It
    returns exactly for ["absolute"], ["master"] and clock objects; for any
    other string it raises [AssertionError] and the playcorder, recording
    clock, start time, performance and instruments, is as before. *)
Theorem start_recording_checks_clock_first which_parts clock s :
  if accepted_clock clock
  then out (start_recording which_parts clock s) = Returned tt
  else start_recording which_parts clock s = Run [] s (Raised AssertionError).
Proof.
  destruct (accepted_clock clock) eqn:Hok.
  - destruct (start_recording_accepted which_parts clock s Hok) as (rc & t & _ & ->).
    eapply give_parts_run. reflexivity.
  - by apply start_recording_rejected.
Qed.

(** X9: [stop_recording] before any recording has no performance to go
    through: it raises [AttributeError] and changes nothing.  Once a
    performance is there it can be stopped again and again: every call
    returns that same performance and leaves the playcorder not
    recording. *)
Theorem stop_recording_without_and_again s :
  match performance s with
  | None => stop_recording s = Run [] s (Raised AttributeError)
  | Some perf =>
      out (stop_recording s) = Returned perf /\
      out (stop_recording (final (stop_recording s))) = Returned perf /\
      is_recording (final (stop_recording (final (stop_recording s)))) = false
  end.
Proof.
  destruct (performance s) as [perf|] eqn:Hperf.
  - destruct (stop_recording_run s perf Hperf) as (Hout & _ & _).
    assert (Hsame : performance (final (stop_recording s)) = Some perf).
    { destruct (take_parts_run (parts perf) s) as (Ho & Hsame & _).
      unfold stop_recording, bind at 1. cbn. rewrite Hperf.
      change (for_each (parts perf) _) with (for_each (parts perf) take_part).
      rewrite (bind_returned _ _ _ _ Ho). unfold bind; cbn.
      rewrite Hsame, Hperf; cbn. by rewrite Hsame. }
    destruct (stop_recording_run _ perf Hsame) as (Hout' & Hrec' & _).
    done.
  - unfold stop_recording, bind; cbn. by rewrite Hperf.
Qed.

Lemma give_part_store i s perf k :
  performance s = Some perf ->
  instruments (final (give_part i s)) !! k =
    if decide (i = k)
    then with_part (Some {| part_id := next_object s; instrument := i |})
           <$> instruments s !! k
    else instruments s !! k.
Proof.
  intros Hperf. unfold give_part, new_part, bind; cbn. rewrite Hperf; cbn.
  rewrite lookup_alter. by case_decide; subst.
Qed.

Lemma with_part_twice p q (x : option Instrument) :
  with_part p <$> (with_part q <$> x) = with_part p <$> x.
Proof. by destruct x. Qed.

Lemma give_parts_store which_parts : forall s perf,
  performance s = Some perf ->
  exists added,
    performance (final (for_each which_parts give_part s))
      = Some {| performance_id := performance_id perf; parts := parts perf ++ added |} /\
    forall k,
      if decide (k ∈ which_parts)
      then exists part, part ∈ added /\ instrument part = k /\
             instruments (final (for_each which_parts give_part s)) !! k
               = with_part (Some part) <$> instruments s !! k
      else instruments (final (for_each which_parts give_part s)) !! k
             = instruments s !! k.
Proof.
  induction which_parts as [|i rest IH]; intros s perf Hperf.
  - exists []. cbn. rewrite app_nil_r. split; [by destruct perf|].
    intros k. rewrite decide_False by apply not_elem_of_nil. reflexivity.
  - destruct (give_part_run i s perf Hperf) as (Hout & Hnext & _).
    cbn [for_each]. rewrite (bind_returned _ _ _ _ Hout). cbn [out final].
    destruct (IH _ _ Hnext) as (added & Hperf' & Hstore). cbn in Hperf'.
    exists ({| part_id := next_object s; instrument := i |} :: added).
    split; [by rewrite Hperf', <- app_assoc|].
    intros k. specialize (Hstore k).
    rewrite (give_part_store i s perf k Hperf) in Hstore.
    destruct (decide (k ∈ rest)) as [Hin|Hout'].
    + rewrite decide_True by (by right).
      destruct Hstore as (part & Hpart & Hinst & Hlook).
      exists part. split; [by right|]. split; [assumption|].
      rewrite Hlook. case_decide; [apply with_part_twice|reflexivity].
    + destruct (decide (i = k)) as [->|Hne].
      * rewrite decide_True by (by left).
        eexists. split; [by left|]. split; [reflexivity|]. exact Hstore.
      * rewrite decide_False; [exact Hstore|].
        intros [->|Hin]%elem_of_cons; done.
Qed.

(** X10: [start_recording] hands every instrument it is asked to record a
    part of the new performance, a part that names that instrument, and
    changes nothing else about it; instruments it was not asked to record
    are left exactly as they were, a part from an earlier recording
    included. *)
Theorem start_recording_hands_out_parts which_parts clock s :
  out (start_recording which_parts clock s) = Returned tt ->
  exists perf,
    performance (final (start_recording which_parts clock s)) = Some perf /\
    forall k,
      if decide (k ∈ default (ensemble_instruments s) which_parts)
      then exists part, part ∈ parts perf /\ instrument part = k /\
             instruments (final (start_recording which_parts clock s)) !! k
               = with_part (Some part) <$> instruments s !! k
      else instruments (final (start_recording which_parts clock s)) !! k
             = instruments s !! k.
Proof.
  intros Hout.
  destruct (accepted_clock clock) eqn:Hok;
    [|rewrite (start_recording_rejected _ _ _ Hok) in Hout; discriminate].
  destruct (start_recording_accepted which_parts clock s Hok) as (rc & t & _ & ->).
  destruct (give_parts_store (default (ensemble_instruments s) which_parts)
              (about_to_record rc t s) _ eq_refl) as (added & Hperf & Hstore).
  eexists. split; [exact Hperf|]. exact Hstore.
Qed.

Lemma for_each_keeps {A B} (view : Playcorder -> B) (body : A -> M unit) xs :
  (forall x s, view (final (body x s)) = view s) ->
  forall s, view (final (for_each xs body s)) = view s.
Proof.
  intros Hbody. induction xs as [|x xs IH]; intros s; [reflexivity|].
  cbn [for_each]. unfold bind. specialize (Hbody x s).
  destruct (body x s) as [tr s1 [[]|e]]; cbn in *; [|assumption].
  by rewrite IH.
Qed.

Lemma give_part_keeps_clock i s :
  _recording_clock (final (give_part i s)) = _recording_clock s.
Proof.
  unfold give_part, new_part, bind; cbn.
  by destruct (performance s).
Qed.

Lemma stop_recording_keeps_clock s :
  _recording_clock (final (stop_recording s)) = _recording_clock s.
Proof.
  unfold stop_recording, bind at 1. cbn.
  destruct (performance s) as [perf|] eqn:Hperf; [|reflexivity].
  change (for_each (parts perf) _) with (for_each (parts perf) take_part).
  pose proof (for_each_keeps _recording_clock take_part (parts perf)
                (fun _ _ => eq_refl) s) as Hkeep.
  unfold bind at 1.
  destruct (for_each (parts perf) take_part s) as [tr s1 [[]|e]]; cbn in *;
    [|assumption].
  unfold bind; cbn. by destruct (performance s1).
Qed.

Lemma get_recording_beat_run s :
  readable (_recording_clock s) ->
  match _recording_start_time s with
  | Some start => exists beat, get_recording_beat s = Run [] s (Returned beat)
  | None => get_recording_beat s = Run [] s (Raised TypeError)
  end.
Proof.
  unfold readable, get_recording_beat, bind; cbn.
  destruct (_recording_clock s) as [[str|c]|]; [| |done]; cbn.
  - intros ->; cbn. destruct (_recording_start_time s); cbn; eauto.
  - intros _. destruct (_recording_start_time s); cbn; eauto.
Qed.

(** X11: [get_recording_beat] gives a beat only while recording.  Between
    a [start_recording] that returned and the next [stop_recording] it
    returns a number and changes nothing; after the [stop_recording] the
    start time is gone while the recording clock is still set, and it
    raises [TypeError]. *)
Theorem get_recording_beat_only_while_recording which_parts clock s :
  out (start_recording which_parts clock s) = Returned tt ->
  (exists beat,
     get_recording_beat (final (start_recording which_parts clock s))
     = Run [] (final (start_recording which_parts clock s)) (Returned beat)) /\
  get_recording_beat (final (stop_recording (final (start_recording which_parts clock s))))
  = Run [] (final (stop_recording (final (start_recording which_parts clock s))))
      (Raised TypeError).
Proof.
  intros Hout.
  destruct (accepted_clock clock) eqn:Hok;
    [|rewrite (start_recording_rejected _ _ _ Hok) in Hout; discriminate].
  destruct (start_recording_accepted which_parts clock s Hok) as (rc & t & Hrc & Hrun).
  remember (final (start_recording which_parts clock s)) as s1.
  assert (Hclock : _recording_clock s1 = Some rc).
  { subst s1. rewrite Hrun.
    apply (for_each_keeps _recording_clock give_part _ give_part_keeps_clock). }
  destruct (give_parts_run (default (ensemble_instruments s) which_parts)
              (about_to_record rc t s) _ eq_refl) as (_ & Htime & perf & Hperf & _).
  rewrite <- Hrun, <- Heqs1 in Htime, Hperf. cbn in Htime.
  split.
  - pose proof (get_recording_beat_run s1) as Hbeat.
    rewrite Hclock, Htime in Hbeat. by apply Hbeat.
  - destruct (stop_recording_run s1 perf Hperf) as (_ & Hstopped & _).
    pose proof (get_recording_beat_run (final (stop_recording s1))) as Hbeat.
    rewrite stop_recording_keeps_clock, Hclock in Hbeat.
    unfold is_recording in Hstopped.
    destruct (_recording_start_time (final (stop_recording s1)));
      [discriminate|by apply Hbeat].
Qed.

Lemma start_recording_hands_out_parts_witness :
  let s := new_playcorder [7; 9]%nat in
  let started := start_recording (Some [7]%nat) (ClockStr "master") s in
  out started = Returned tt /\
  exists perf,
    performance (final started) = Some perf /\
    forall k,
      if decide (k ∈ [7]%nat)
      then exists part, part ∈ parts perf /\ instrument part = k /\
             instruments (final started) !! k
               = with_part (Some part) <$> instruments s !! k
      else instruments (final started) !! k = instruments s !! k.
Proof.
  intros s started. split; [reflexivity|].
  apply (start_recording_hands_out_parts (Some [7]%nat) (ClockStr "master") s).
  reflexivity.
Defined.

Lemma get_recording_beat_only_while_recording_witness :
  let s := new_playcorder [7]%nat in
  let started := final (start_recording None (ClockStr "absolute") s) in
  out (start_recording None (ClockStr "absolute") s) = Returned tt /\
  (exists beat, get_recording_beat started = Run [] started (Returned beat)) /\
  get_recording_beat (final (stop_recording started))
  = Run [] (final (stop_recording started)) (Raised TypeError).
Proof.
  intros s started. split; [reflexivity|].
  apply (get_recording_beat_only_while_recording None (ClockStr "absolute") s).
  reflexivity.
Defined.
End Recording.

(** ** Properties of the MusicXML components *)

Section LeastCommonMultiple.
Import MusicXML.

Lemma lcm_of_two_positive a b :
  0 < a -> 0 < b -> lcm_of_two a b = Ok (Z.lcm a b).
Proof.
  intros Ha Hb. unfold lcm_of_two.
  assert (Hg : 0 < Z.gcd a b).
  { pose proof (Z.gcd_nonneg a b).
    destruct (Z.eq_dec (Z.gcd a b) 0) as [H0|]; [|lia].
    apply Z.gcd_eq_0_l in H0. lia. }
  rewrite (proj2 (Z.eqb_neq _ _)) by lia. f_equal.
  unfold Z.lcm. rewrite Z.abs_eq.
  - rewrite Z.divide_div_mul_exact; [reflexivity|lia|apply Z.gcd_divide_r].
  - apply Z.mul_nonneg_nonneg; [lia|]. apply Z.div_pos; lia.
Qed.

Lemma least_common_multiple_cons a b rest :
  least_common_multiple (a :: b :: rest) =
    match least_common_multiple (b :: rest) with
    | Ok m => lcm_of_two a m
    | Err e => Err e
    end.
Proof. destruct rest; reflexivity. Qed.

(** X12: for positive integers [least_common_multiple] returns their least
    common multiple: a positive number that every argument divides and
    that divides every common multiple of the arguments.  With no argument
    that number is 1. *)
Theorem least_common_multiple_is_least args :
  Forall (fun a => 0 < a) args ->
  exists m,
    least_common_multiple args = Ok m /\
    0 < m /\
    Forall (fun a => (a | m)) args /\
    forall c, Forall (fun a => (a | c)) args -> (m | c).
Proof.
  induction args as [|a [|b rest] IH]; intros Hpos.
  - exists 1. split; [reflexivity|]. split; [lia|]. split; [constructor|].
    intros c _. apply Z.divide_1_l.
  - apply Forall_cons in Hpos as [Ha _]. exists a.
    split; [reflexivity|]. split; [assumption|]. split; [by repeat constructor|].
    intros c Hc. by apply Forall_cons in Hc as [Hc _].
  - apply Forall_cons in Hpos as [Ha Hpos].
    destruct (IH Hpos) as (m & Hm & Hmpos & Hdiv & Hleast).
    exists (Z.lcm a m). rewrite least_common_multiple_cons, Hm.
    split; [by apply lcm_of_two_positive|]. split; [|split].
    + pose proof (Z.lcm_nonneg a m).
      destruct (Z.eq_dec (Z.lcm a m) 0) as [H0|]; [|lia].
      apply Z.lcm_eq_0 in H0. lia.
    + apply Forall_cons. split; [apply Z.divide_lcm_l|].
      eapply Forall_impl; [exact Hdiv|]. cbn. intros x Hx.
      etransitivity; [exact Hx|apply Z.divide_lcm_r].
    + intros c Hc. apply Forall_cons in Hc as [Hac Hc].
      apply Z.lcm_least; [assumption|by apply Hleast].
Qed.

Lemma least_common_multiple_is_least_witness :
  least_common_multiple [4; 6; 10] = Ok 60 /\
  exists m,
    least_common_multiple [4; 6; 10] = Ok m /\
    0 < m /\
    Forall (fun a => (a | m)) [4; 6; 10] /\
    forall c, Forall (fun a => (a | c)) [4; 6; 10] -> (m | c).
Proof.
  split; [reflexivity|].
  apply (least_common_multiple_is_least [4; 6; 10]).
  repeat constructor.
Defined.

Lemma lcm_of_two_cases a b :
  (lcm_of_two a b =
     if decide (a = 0 /\ b = 0) then Err ZeroDivisionError
     else if decide (a = 0 \/ b = 0) then Ok 0
     else Ok (a * b / Z.gcd a b)) /\
  (a <> 0 -> b <> 0 -> a * b / Z.gcd a b <> 0).
Proof.
  split.
  - unfold lcm_of_two. destruct (Z.eqb_spec (Z.gcd a b) 0) as [Hg|Hg].
    + apply Z.gcd_eq_0 in Hg. by rewrite decide_True.
    + rewrite decide_False.
      * case_decide as H0; [|reflexivity]. f_equal.
        destruct H0 as [->| ->]; [reflexivity|]. by rewrite Z.mul_0_r.
      * intros [-> ->]. by apply Hg.
  - intros Ha Hb.
    assert (Hg : Z.gcd a b <> 0) by (intros Hg; apply Z.gcd_eq_0 in Hg; tauto).
    rewrite Z.divide_div_mul_exact; [|assumption|apply Z.gcd_divide_r].
    destruct (Z.gcd_divide_r a b) as [k Hk].
    assert (Hq : b / Z.gcd a b = k).
    { rewrite Hk at 1. by apply Z.div_mul. }
    rewrite Hq. intros Hz. apply Z.mul_eq_0 in Hz as [?|Hk0]; [done|].
    subst k. lia.
Qed.

(** X13: zeros among the arguments.  With two or more arguments,
    [least_common_multiple] raises [ZeroDivisionError] exactly when at
    least two of them are zero; with exactly one zero it returns 0, and
    with none it returns a number that is not zero. *)
Theorem least_common_multiple_zeros a b rest :
  match length (filter (fun x => x = 0) (a :: b :: rest)) with
  | O => exists m, least_common_multiple (a :: b :: rest) = Ok m /\ m <> 0
  | 1%nat => least_common_multiple (a :: b :: rest) = Ok 0
  | _ => least_common_multiple (a :: b :: rest) = Err ZeroDivisionError
  end.
Proof.
  revert a b. induction rest as [|c rest IH]; intros a b.
  - destruct (lcm_of_two_cases a b) as [Hcase Hnz]. cbn [least_common_multiple].
    rewrite Hcase. rewrite !filter_cons, filter_nil.
    repeat case_decide; cbn; try tauto; try lia; eauto.
  - specialize (IH b c). rewrite least_common_multiple_cons, (filter_cons _ a).
    destruct (decide (a = 0)) as [->|Ha]; cbn [length];
      destruct (length (filter (fun x => x = 0) (b :: c :: rest))) as [|[|n]].
    + destruct IH as (m & -> & Hm).
      destruct (lcm_of_two_cases 0 m) as [-> _].
      rewrite decide_False by tauto. by rewrite decide_True by tauto.
    + rewrite IH. destruct (lcm_of_two_cases 0 0) as [-> _].
      by rewrite decide_True.
    + by rewrite IH.
    + destruct IH as (m & -> & Hm).
      destruct (lcm_of_two_cases a m) as [-> Hnz].
      rewrite decide_False by tauto. rewrite decide_False by tauto.
      eexists. split; [reflexivity|]. by apply Hnz.
    + rewrite IH. destruct (lcm_of_two_cases a 0) as [-> _].
      rewrite decide_False by tauto. by rewrite decide_True by tauto.
    + by rewrite IH.
Qed.
End LeastCommonMultiple.

Section Beams.
Import MusicXML.

(** X14: the beam table against the note lengths.  For a note whose
    duration has one of the accepted note types, [num_beams] is the number
    of times the quarter is halved to get the note's length, and none for a
    quarter or longer, with one exception: the table has no entry for
    ["32nd"], so a pitched 32nd note raises [KeyError].  A rest has no
    beams whatever its note type. *)
Theorem num_beams_follows_length note d len :
  duration note = ADuration d ->
  (len, note_type d) ∈ length_to_note_type ->
  match pitch note with
  | NoPitch => XMLNote_num_beams note = Ok 0%nat
  | _ =>
      if String.eqb (note_type d) "32nd"
      then XMLNote_num_beams note = Err XKeyError
      else exists n,
             XMLNote_num_beams note = Ok n /\
             ((n = 0%nat /\ (1 <= len)%Q) \/ (len * inject_Z (2 ^ Z.of_nat n) == 1)%Q)
  end.
Proof.
  intros Hd Hin. unfold XMLNote_num_beams, Duration_num_beams. rewrite Hd.
  assert (Htable :
    if String.eqb (note_type d) "32nd"
    then note_type_to_num_beams !! note_type d = None
    else exists n, note_type_to_num_beams !! note_type d = Some n /\
           ((n = 0%nat /\ (1 <= len)%Q) \/ (len * inject_Z (2 ^ Z.of_nat n) == 1)%Q)).
  { unfold length_to_note_type in Hin.
    repeat (apply elem_of_cons in Hin as [Hin|Hin];
            [injection Hin as -> ->; cbn;
             first [ reflexivity
                   | eexists; split; [reflexivity|];
                     first [ left; split; [reflexivity|by vm_compute]
                           | right; by vm_compute ] ] |]).
    by apply elem_of_nil in Hin. }
  destruct (pitch note); [reflexivity| |];
    (destruct (String.eqb (note_type d) "32nd");
     [by rewrite Htable
     |destruct Htable as (n & -> & Hn); by exists n]).
Qed.

Lemma num_beams_follows_length_witness :
  let d := {| note_type := "16th"; num_dots := 0; tuplet_ratio := None;
              duration_divisions := 4 |} in
  let note := {| pitch := APitch {| step := "C"; octave := 5; alteration := 0 |};
                 duration := ADuration d; divisions := 4; ties := None;
                 notations := []; articulations := []; tuplet_bracket := None;
                 notehead := None; beams := ∅; is_chord_member := false;
                 voice := None; staff := None |} in
  XMLNote_num_beams note = Ok 2%nat /\
  exists n,
    XMLNote_num_beams note = Ok n /\
    ((n = 0%nat /\ (1 <= 1 # 4)%Q) \/ ((1 # 4) * inject_Z (2 ^ Z.of_nat n) == 1)%Q).
Proof.
  intros d note. split; [reflexivity|].
  apply (num_beams_follows_length note d (1 # 4)%Q); [reflexivity|].
  unfold length_to_note_type. do 5 right. left.
Defined.
End Beams.

Section Chords.
Import MusicXML.

Lemma ties_with_ties t n : ties (with_ties t n) = t.
Proof. reflexivity. Qed.

Lemma ties_zip_with l : forall ns,
  length l = length ns -> ties <$> zip_with with_ties l ns = l.
Proof.
  induction l as [|t l IH]; intros [|n ns] Hlen; try done.
  cbn. f_equal. apply IH. by injection Hlen.
Qed.

Lemma forget_zip_with l : forall ns,
  length l = length ns ->
  with_ties None <$> zip_with with_ties l ns = with_ties None <$> ns.
Proof.
  induction l as [|t l IH]; intros [|n ns] Hlen; try done.
  cbn. f_equal. apply IH. by injection Hlen.
Qed.

(** X15: setting a chord's ties and reading them back.  The setter takes
    one of the four tie states for all notes, or a list with one entry per
    note, and refuses anything else with [AssertionError]; it changes the
    notes' ties and nothing else.  The getter then returns what was set,
    except that a list with the same state throughout comes back as that
    single state. *)
Theorem chord_ties_set_then_get self value :
  notes self <> [] ->
  match Chord_set_ties self value with
  | Ok chord =>
      accepted_ties (length (notes self)) value /\
      Chord_ties chord = Ok (read_back value) /\
      with_ties None <$> notes chord = with_ties None <$> notes self
  | Err e =>
      e = XAssertionError /\ ~ accepted_ties (length (notes self)) value
  end.
Proof.
  intros Hnotes. unfold Chord_set_ties, accepted_ties.
  destruct value as [t|l].
  - case_bool_decide as Ht; [|done]. split; [assumption|].
    destruct (notes self) as [|first rest] eqn:Hn; [done|].
    unfold Chord_ties; cbn. split.
    + replace (forallb _ (with_ties t <$> rest)) with true; [reflexivity|].
      symmetry. apply forallb_forall. intros x Hx. apply bool_decide_eq_true.
      apply list_elem_of_In, list_elem_of_fmap in Hx as (y & -> & _). reflexivity.
    + f_equal. rewrite <- list_fmap_compose. by apply list_fmap_ext.
  - destruct (Nat.eqb_spec (length l) (length (notes self))) as [Hlen|Hlen]; [|done].
    split; [assumption|].
    destruct (notes self) as [|first rest] eqn:Hn; [done|].
    destruct l as [|t l]; [done|]. cbn in Hlen. injection Hlen as Hlen.
    unfold Chord_ties; cbn. split.
    + assert (Hall : forallb (fun note => bool_decide (ties note = t))
                       (zip_with with_ties l rest)
                     = forallb (fun x => bool_decide (x = t)) l).
      { rewrite <- (ties_zip_with l rest Hlen) at 2.
        generalize (zip_with with_ties l rest). intros ns.
        induction ns as [|n ns IH]; [reflexivity|]. cbn. by rewrite IH. }
      rewrite Hall. destruct (forallb _ l); [reflexivity|].
      by rewrite ties_zip_with.
    + f_equal. by apply forget_zip_with.
Qed.

Lemma chord_ties_set_then_get_witness :
  let note := fun st =>
    {| pitch := APitch {| step := st; octave := 4; alteration := 0 |};
       duration := ADuration {| note_type := "quarter"; num_dots := 0;
                                tuplet_ratio := None; duration_divisions := 1 |};
       divisions := 1; ties := None; notations := []; articulations := [];
       tuplet_bracket := None; notehead := None; beams := ∅;
       is_chord_member := false; voice := None; staff := None |} in
  let chord := {| notes := [note "C"; note "E"]; chord_tuplet_bracket := None |} in
  notes chord <> [] /\
  match Chord_set_ties chord (TiesPerNote [Some "start"; Some "start"]) with
  | Ok tied => Chord_ties tied = Ok (OneTie (Some "start"))
  | Err _ => False
  end.
Proof.
  intros note chord. split; [done|].
  pose proof (chord_ties_set_then_get chord
                (TiesPerNote [Some "start"; Some "start"])) as H.
  destruct (Chord_set_ties chord (TiesPerNote [Some "start"; Some "start"]));
    [by apply H|].
  destruct H as [_ Hno]; [done|]. by apply Hno.
Defined.
End Chords.

Section PartNumbers.
Import MusicXML.

Lemma number_group_app a : forall b next store,
  number_group (a ++ b) next store =
    number_group b (number_group a next store).1 (number_group a next store).2.
Proof.
  induction a as [|r a IH]; intros b next store; [reflexivity|].
  cbn. apply IH.
Qed.

Lemma number_parts_in_order parts : forall next store,
  number_parts parts next store = number_group (parts_in_order parts) next store.
Proof.
  unfold parts_in_order.
  induction parts as [|[r|refs hb hg] parts IH]; intros next store; [reflexivity| |].
  - rewrite bind_cons. cbn. apply IH.
  - rewrite bind_cons, number_group_app. cbn.
    destruct (number_group refs next store) as [n st]. apply IH.
Qed.

Lemma number_group_lookup refs : forall next store r,
  (r ∉ refs -> (number_group refs next store).2 !! r = store !! r) /\
  (forall i, refs !! i = Some r -> r ∉ drop (S i) refs ->
     (number_group refs next store).2 !! r
       = with_part_id (next + Z.of_nat i) <$> store !! r).
Proof.
  induction refs as [|p refs IH]; intros next store r; cbn.
  - split; [done|]. intros i Hi. done.
  - destruct (IH (next + 1) (alter (with_part_id next) p store) r) as [IHout IHin].
    split.
    + intros Hr. apply not_elem_of_cons in Hr as [Hne Hr].
      rewrite (IHout Hr). by rewrite lookup_alter_ne.
    + intros [|i] Hi Hlast; cbn in *.
      * injection Hi as ->. rewrite (IHout Hlast), lookup_alter_eq.
        by rewrite Z.add_0_r.
      * rewrite (IHin i Hi Hlast).
        replace (next + 1 + Z.of_nat i) with (next + Z.of_nat (S i)) by lia.
        rewrite lookup_alter. case_decide as Hp; [subst p|reflexivity].
        by destruct (store !! r).
Qed.

(** X16: [set_part_numbers] numbers the parts 1, 2, 3, ... in the order
    the score lists them, the parts of a group in their place.  A part
    object takes the number of its last position in that order; parts the
    score does not list keep their number, and no name or measure is
    touched. *)
Theorem set_part_numbers_counts_in_order parts store r :
  (forall i,
     parts_in_order parts !! i = Some r ->
     r ∉ drop (S i) (parts_in_order parts) ->
     set_part_numbers parts store !! r
       = with_part_id (Z.of_nat i + 1) <$> store !! r) /\
  (r ∉ parts_in_order parts -> set_part_numbers parts store !! r = store !! r).
Proof.
  unfold set_part_numbers. rewrite number_parts_in_order.
  destruct (number_group_lookup (parts_in_order parts) 1 store r) as [Hout Hin].
  split; [|assumption].
  intros i Hi Hlast. rewrite (Hin i Hi Hlast). by rewrite Z.add_comm.
Qed.

Lemma set_part_numbers_counts_in_order_witness :
  let part := fun name => {| part_id := 1; part_name := name; measures := [] |} in
  let store : gmap nat Part :=
    {[ 10%nat := part "Oboe"; 11%nat := part "Clarinet"; 12%nat := part "Bassoon" ]} in
  let parts := [PartGroup [10; 11]%nat true true; SinglePart 12%nat] in
  parts_in_order parts = [10; 11; 12]%nat /\
  set_part_numbers parts store !! 12%nat
    = Some {| part_id := 3; part_name := "Bassoon"; measures := [] |}.
Proof.
  intros part store parts. split; [reflexivity|].
  destruct (set_part_numbers_counts_in_order parts store 12%nat) as [Hin _].
  rewrite (Hin 2%nat); [by vm_compute|reflexivity|].
  cbn. apply not_elem_of_nil.
Defined.
End PartNumbers.

Section Tuplets.
Import MusicXML.

Lemma map_result_lookup {A B} (f : A -> result B) l : forall l',
  map_result f l = Ok l' ->
  length l' = length l /\
  forall i x, l !! i = Some x -> exists y, l' !! i = Some y /\ f x = Ok y.
Proof.
  induction l as [|a l IH]; intros l'; cbn.
  - intros [= <-]. split; [reflexivity|]. intros i x Hx. done.
  - destruct (f a) as [b|e] eqn:Hfa; [|discriminate].
    destruct (map_result f l) as [ys|e]; [|discriminate].
    intros [= <-]. destruct (IH ys eq_refl) as [Hlen Hlook].
    split; [cbn; by rewrite Hlen|].
    intros [|i] x Hx; cbn in *.
    + injection Hx as <-. eauto.
    + by apply Hlook.
Qed.

Lemma element_with_ratio_bracket ratio e e' :
  element_with_ratio ratio e = Ok e' -> bracket_of e' = bracket_of e.
Proof.
  destruct e as [n|c]; cbn.
  - unfold with_ratio. destruct (duration n); [|discriminate]. by intros [= <-].
  - destruct (map_result _ _); [|discriminate]. by intros [= <-].
Qed.

Lemma map_result_forallb {A B} (p : A -> bool) (f : A -> result B) err l :
  (forall x, if p x then exists y, f x = Ok y else f x = Err err) ->
  if forallb p l then exists ys, map_result f l = Ok ys
  else map_result f l = Err err.
Proof.
  intros Hf. induction l as [|a l IH]; cbn; [eauto|].
  specialize (Hf a). destruct (p a); cbn.
  - destruct Hf as [y ->]. destruct (forallb p l).
    + destruct IH as [ys ->]. eauto.
    + by rewrite IH.
  - by rewrite Hf.
Qed.

Lemma forallb_alter {A} (p : A -> bool) (g : A -> A) i l :
  (forall x, p (g x) = p x) -> forallb p (alter g i l) = forallb p l.
Proof.
  intros Hg. revert i. induction l as [|a l IH]; intros [|i]; cbn;
    rewrite ?Hg, ?IH; reflexivity.
Qed.

Lemma element_with_ratio_cases ratio e :
  if has_duration e then exists e', element_with_ratio ratio e = Ok e'
  else element_with_ratio ratio e = Err XAttributeError.
Proof.
  destruct e as [n|c]; cbn.
  - unfold with_ratio. destruct (duration n); cbn; eauto.
  - pose proof (map_result_forallb
      (fun n => match duration n with ADuration _ => true | ALength _ => false end)
      (with_ratio ratio) XAttributeError (notes c)) as H.
    destruct (forallb _ (notes c)).
    + destruct H as [ys ->]; [|eauto].
      intros n. unfold with_ratio. destruct (duration n); eauto.
    + rewrite H; [reflexivity|].
      intros n. unfold with_ratio. destruct (duration n); eauto.
Qed.

Lemma has_duration_with_bracket b e :
  has_duration (with_bracket b e) = has_duration e.
Proof. by destruct e. Qed.

(** X17: the brackets [set_tuplet_info_for_contents] hands out.  On empty
    contents it raises [IndexError].  On contents in which every note is
    timed by a [Duration] it returns: the last element ends up with the
    bracket ["stop"], the first, when it is not also the last, with
    ["start"], and every element in between keeps the bracket it had;
    ["both"] is never given, so the one element of a one-element tuplet
    gets ["stop"] alone.  On other contents, where some note is timed by
    a plain length, it raises [AttributeError]. *)
Theorem tuplet_brackets contents ratio :
  match contents with
  | [] => set_tuplet_info_for_contents contents ratio = Err IndexError
  | _ =>
      if forallb has_duration contents then
        exists marked,
          set_tuplet_info_for_contents contents ratio = Ok marked /\
          length marked = length contents /\
          forall i e,
            marked !! i = Some e ->
            if decide (i = (length contents - 1)%nat)
            then bracket_of e = Some "stop"
            else if decide (i = 0%nat) then bracket_of e = Some "start"
            else bracket_of <$> contents !! i = Some (bracket_of e)
      else set_tuplet_info_for_contents contents ratio = Err XAttributeError
  end.
Proof.
  unfold set_tuplet_info_for_contents.
  destruct contents as [|first rest]; [done|].
  set (contents := first :: rest).
  pose proof (map_result_forallb has_duration (element_with_ratio ratio)
                XAttributeError
                (alter (with_bracket
                          (Some (if (0 <? length (alter (with_bracket (Some "start"))
                                                   0%nat contents))%nat
                                 then "stop" else "both")))
                   (length (alter (with_bracket (Some "start")) 0%nat contents) - 1)%nat
                   (alter (with_bracket (Some "start")) 0%nat contents))
                (element_with_ratio_cases ratio)) as Hcases.
  rewrite !forallb_alter in Hcases by apply has_duration_with_bracket.
  destruct (forallb has_duration contents); [|exact Hcases].
  destruct Hcases as [marked Hmap]. exists marked. split; [exact Hmap|].
  apply map_result_lookup in Hmap as [Hlen Hlook].
  rewrite !length_alter in Hlen. split; [assumption|].
  intros i e Hi.
  assert (Hsome : is_Some (contents !! i)).
  { apply lookup_lt_is_Some. rewrite <- Hlen. by eapply lookup_lt_Some. }
  destruct Hsome as [x Hx].
  rewrite length_alter in Hlook.
  replace (0 <? length contents)%nat with true in Hlook by reflexivity.
  case_decide as Hlast.
  - subst i.
    destruct (Hlook (length contents - 1)%nat (with_bracket (Some "stop")
                (default x (alter (with_bracket (Some "start")) 0%nat contents
                              !! (length contents - 1)%nat))))
      as (y & Hy & Hfy).
    { rewrite list_lookup_alter_eq.
      destruct (alter _ 0%nat contents !! _) eqn:Ha; [reflexivity|].
      apply lookup_ge_None in Ha. rewrite length_alter in Ha. cbn in Ha. lia. }
    rewrite Hi in Hy. injection Hy as <-.
    rewrite (element_with_ratio_bracket _ _ _ Hfy).
    by destruct (default _ _).
  - case_decide as Hfirst.
    + subst i.
      destruct (Hlook 0%nat (with_bracket (Some "start") first)) as (y & Hy & Hfy).
      { rewrite list_lookup_alter_ne by (cbn in *; lia). reflexivity. }
      rewrite Hi in Hy. injection Hy as <-.
      rewrite (element_with_ratio_bracket _ _ _ Hfy). by destruct first.
    + destruct (Hlook i x) as (y & Hy & Hfy).
      { rewrite list_lookup_alter_ne by lia.
        by rewrite list_lookup_alter_ne by lia. }
      rewrite Hi in Hy. injection Hy as <-.
      rewrite (element_with_ratio_bracket _ _ _ Hfy). by rewrite Hx.
Qed.
End Tuplets.

Section PitchStrings.
Import MusicXML.
Variable int : string -> option Z.

Lemma letter_step c :
  c ∈ note_letters ->
  String (upper_char c) EmptyString ∈ ["C"; "D"; "E"; "F"; "G"; "A"; "B"].
Proof.
  unfold note_letters. intros H.
  repeat (apply elem_of_cons in H as [->|H]; [cbn; by repeat constructor|]).
  by apply elem_of_nil in H.
Qed.

(** X18: the outcomes of [Pitch.from_string], by its argument.  On the
    empty string it raises [IndexError].  On a string whose first
    character, lower-cased, is none of c, d, e, f, g, a, b it raises
    [AssertionError].  On any other string it either returns a pitch,
    whose step is then the first character as a capital letter and whose
    alteration is among -1, -1/2, 0, 1/2, 1, or raises [ValueError]. *)
Theorem pitch_from_string_outcomes pitch_string :
  match pitch_string with
  | EmptyString => Pitch_from_string int pitch_string = Err IndexError
  | String first _ =>
      if bool_decide (lower_char first ∈ note_letters) then
        (exists p,
           Pitch_from_string int pitch_string = Ok p /\
           step p = String (upper_char (lower_char first)) EmptyString /\
           step p ∈ ["C"; "D"; "E"; "F"; "G"; "A"; "B"] /\
           alteration p ∈ [(-1)%Q; (-1 # 2)%Q; 0%Q; (1 # 2)%Q; 1%Q]) \/
        Pitch_from_string int pitch_string = Err XValueError
      else Pitch_from_string int pitch_string = Err XAssertionError
  end.
Proof.
  unfold Pitch_from_string.
  destruct pitch_string as [|c0 rest0]; [reflexivity|]. cbn [lower].
  case_bool_decide as Hletter; [|reflexivity].
  pose proof (letter_step _ Hletter) as Hstep.
  remember (String (lower_char c0) (lower rest0)) as low.
  destruct (startswith (slice_from 1 low) ["b"; "f"; "#"; "s"]);
    [destruct (startswith (slice_from 1 low) ["b"; "f"])
    |destruct (startswith (slice_from 1 low) ["qb"; "qf"; "q#"; "qs"]);
       [destruct (startswith (slice_from 1 low) ["qb"; "qf"])|]];
    (match goal with
     | |- context [int ?o] =>
         destruct (int o); [|destruct (all_chars "'" o); [|destruct (all_chars "," o)]]
     end; cbn; first [by right | left; eexists; split; [reflexivity|];
                      split; [reflexivity|]; split; [exact Hstep|by repeat constructor]]).
Qed.

Lemma append_empty s : String.append EmptyString s = s.
Proof. reflexivity. Qed.

Lemma append_char c a s : String.append (String c a) s = String c (String.append a s).
Proof. reflexivity. Qed.

Lemma lower_marks mark n :
  mark = "'"%char \/ mark = ","%char -> lower (marks mark n) = marks mark n.
Proof.
  intros Hmark. induction n as [|n IH]; [reflexivity|]. cbn. rewrite IH.
  by destruct Hmark as [-> | ->].
Qed.

Lemma length_marks mark n : String.length (marks mark n) = n.
Proof. induction n as [|n IH]; [reflexivity|]. cbn. by rewrite IH. Qed.

Lemma all_chars_marks mark n : all_chars mark (marks mark n) = true.
Proof.
  induction n as [|n IH]; [reflexivity|]. cbn.
  by rewrite bool_decide_eq_true_2, IH.
Qed.

Lemma lower_accidental accidental alter s :
  (accidental, alter) ∈ accidentals ->
  lower (String.append accidental s) = String.append accidental (lower s).
Proof.
  unfold accidentals. intros H.
  repeat (apply elem_of_cons in H as [H|H]; [injection H as -> _; reflexivity|]).
  by apply elem_of_nil in H.
Qed.

Lemma prefix_empty s : String.prefix EmptyString s = true.
Proof. by destruct s. Qed.

Lemma prefix_marks c rest mark n :
  mark = "'"%char \/ mark = ","%char ->
  c <> "'"%char -> c <> ","%char ->
  String.prefix (String c rest) (marks mark n) = false.
Proof.
  intros Hmark Hq Hc. destruct n as [|n]; [reflexivity|]. cbn.
  destruct (ascii_dec c mark) as [->|Hne]; [|reflexivity].
  destruct Hmark; congruence.
Qed.

(** X19: octave marks in the lilypond style.  After a note letter, in
    either case, and one of the accidentals [from_string] knows, [n]
    apostrophes give octave [3 + n] and [n] commas octave [3 - n], with the
    letter's step and the accidental's alteration; no mark at all is
    octave 3. *)
Theorem pitch_from_string_octave_marks letter accidental alter mark n :
  lower_char letter ∈ note_letters ->
  (accidental, alter) ∈ accidentals ->
  mark = "'"%char \/ mark = ","%char ->
  int (marks mark n) = None ->
  Pitch_from_string int (String letter (accidental ++ marks mark n))
  = Ok {| step := String (upper_char (lower_char letter)) EmptyString;
          octave := if bool_decide (mark = "'"%char)
                    then 3 + Z.of_nat n else 3 - Z.of_nat n;
          alteration := alter |}.
Proof.
  intros Hletter Hacc Hmark Hint.
  assert (Hoct :
    (if all_chars "'" (marks mark n)
     then Ok {| step := String (upper_char (lower_char letter)) EmptyString;
                octave := 3 + Z.of_nat (String.length (marks mark n));
                alteration := alter |}
     else if all_chars "," (marks mark n)
          then Ok {| step := String (upper_char (lower_char letter)) EmptyString;
                     octave := 3 - Z.of_nat (String.length (marks mark n));
                     alteration := alter |}
          else Err XValueError)
    = Ok {| step := String (upper_char (lower_char letter)) EmptyString;
            octave := if bool_decide (mark = "'"%char)
                      then 3 + Z.of_nat n else 3 - Z.of_nat n;
            alteration := alter |}).
  { destruct Hmark as [-> | ->].
    - by rewrite all_chars_marks, length_marks.
    - destruct n as [|n]; [reflexivity|].
      rewrite all_chars_marks, length_marks. reflexivity. }
  unfold Pitch_from_string. cbn [lower].
  rewrite (lower_accidental _ _ _ Hacc), (lower_marks mark n Hmark).
  rewrite bool_decide_eq_true_2 by assumption.
  unfold accidentals in Hacc.
  apply elem_of_cons in Hacc as [Hacc|Hacc].
  { injection Hacc as -> ->. rewrite append_empty. cbn.
    rewrite !(prefix_marks _ _ mark n Hmark) by discriminate. cbn.
    rewrite Hint. exact Hoct. }
  repeat (apply elem_of_cons in Hacc as [Hacc|Hacc];
          [injection Hacc as -> ->;
           rewrite ?append_char, ?append_empty; cbn;
           rewrite ?prefix_empty; cbn;
           rewrite Hint; exact Hoct |]).
  by apply elem_of_nil in Hacc.
Qed.

End PitchStrings.

Lemma pitch_from_string_octave_marks_witness :
  MusicXML.decimal_int (MusicXML.marks "'" 2) = None /\
  MusicXML.Pitch_from_string MusicXML.decimal_int "Cs''"
  = MusicXML.Ok {| MusicXML.step := "C"; MusicXML.octave := 5;
                   MusicXML.alteration := 1 |}.
Proof.
  split; [reflexivity|].
  exact (pitch_from_string_octave_marks MusicXML.decimal_int "C" "s" 1%Q "'" 2
           ltac:(by repeat constructor) ltac:(by repeat constructor)
           (or_introl eq_refl) eq_refl).
Defined.

(** Octaves by number: the pitches of the file's own example score. *)
Example pitch_strings_with_numbers :
  MusicXML.Pitch_from_string MusicXML.decimal_int "f#4"
    = MusicXML.Ok {| MusicXML.step := "F"; MusicXML.octave := 4;
                     MusicXML.alteration := 1 |} /\
  MusicXML.Pitch_from_string MusicXML.decimal_int "Ab4"
    = MusicXML.Ok {| MusicXML.step := "A"; MusicXML.octave := 4;
                     MusicXML.alteration := -1 |} /\
  MusicXML.Pitch_from_string MusicXML.decimal_int "bb4"
    = MusicXML.Ok {| MusicXML.step := "B"; MusicXML.octave := 4;
                     MusicXML.alteration := -1 |} /\
  MusicXML.Pitch_from_string MusicXML.decimal_int "h4"
    = MusicXML.Err MusicXML.XAssertionError.
Proof. repeat split. Qed.

(** ** Dotted lengths *)

Section DottedLengths.
Import MusicXML.
Import PrimFloat.

Lemma more_dots_eq room length dots m :
  more_dots room length dots m =
    match truediv length m with
    | Err e => Err e
    | Ok q =>
        match note_type_of_length q with
        | Some t => Ok (t, dots)
        | None =>
            match _dot_multiplier (S dots) with
            | Err e => Err e
            | Ok dm =>
                match room with
                | O => Err XValueError
                | S room => more_dots room length (S dots) dm
                end
            end
        end
    end.
Proof. destruct room; reflexivity. Qed.

Lemma more_dots_found room extra length dots m x :
  more_dots room length dots m = Ok x ->
  more_dots (room + extra) length dots m = Ok x.
Proof.
  revert dots m. induction room as [|room IH]; intros dots m;
    rewrite !(more_dots_eq _ length dots m);
    destruct (truediv length m) as [q|]; try done;
    destruct (note_type_of_length q); try done;
    destruct (_dot_multiplier (S dots)); try done.
  apply IH.
Qed.

Lemma more_dots_gives_up room fewer length dots m :
  more_dots (fewer + room) length dots m = Err XValueError ->
  more_dots fewer length dots m = Err XValueError.
Proof.
  revert dots m. induction fewer as [|fewer IH]; intros dots m;
    rewrite !(more_dots_eq _ length dots m);
    destruct (truediv length m) as [q|]; try done;
    destruct (note_type_of_length q); try done;
    destruct (_dot_multiplier (S dots)); try done.
  apply IH.
Qed.

Lemma reads_back_dots_all :
  forallb (fun t => forallb (reads_back_dots t) (seq 0 53))
    Duration_length_to_note_type.*2 = true.
Proof. vm_compute. reflexivity. Qed.

(** X20: a dotted length reads back.  For a duration of an accepted note
    type with up to 52 dots, [written_length] is defined, and
    [get_note_type_and_number_of_dots] on it gives back the note type and
    the number of dots whenever that number is within [max_dots_allowed].
    One dot is found whatever [max_dots_allowed] is, since the limit is
    only looked at when a second dot is tried; past the limit the call
    raises [ValueError]. *)
Theorem dotted_length_reads_back (d : Duration) (max_dots_allowed : Z) :
  valid_note_type (note_type d) = true ->
  (num_dots d <= 52)%nat ->
  exists w,
    Duration_written_length d = Ok w /\
    get_note_type_and_number_of_dots w max_dots_allowed =
      if (num_dots d <=? 1)%nat || (Z.of_nat (num_dots d) <=? max_dots_allowed)
      then Ok (note_type d, num_dots d)
      else Err XValueError.
Proof.
  intros Ht Hn.
  assert (Hin : note_type d ∈ Duration_length_to_note_type.*2).
  { apply bool_decide_eq_true_1 in Ht. revert Ht. generalize (note_type d).
    intros t Ht. vm_compute in Ht. vm_compute. exact Ht. }
  pose proof reads_back_dots_all as Hall.
  rewrite forallb_forall in Hall.
  apply list_elem_of_In in Hin. specialize (Hall _ Hin).
  rewrite forallb_forall in Hall.
  specialize (Hall (num_dots d)).
  assert (Hseq : In (num_dots d) (seq 0 53)) by (apply in_seq; lia).
  specialize (Hall Hseq). unfold reads_back_dots in Hall.
  replace (Duration_written_length d) with
    (Duration_written_length {| note_type := note_type d; num_dots := num_dots d;
                                tuplet_ratio := None; duration_divisions := 0 |})
    by (by destruct d).
  destruct (Duration_written_length _) as [w|]; [|done].
  exists w. split; [done|]. unfold get_note_type_and_number_of_dots.
  destruct (num_dots d) as [|k] eqn:Hk.
  - apply bool_decide_eq_true_1 in Hall. by rewrite Hall.
  - apply andb_prop in Hall as [Hall Hshort]. apply andb_prop in Hall as [Hnone Hfound].
    apply bool_decide_eq_true_1 in Hnone, Hfound. rewrite Hnone.
    destruct k as [|j].
    + cbn [Nat.leb orb].
      replace (Z.to_nat (max_dots_allowed - 1)) with (0 + Z.to_nat (max_dots_allowed - 1))%nat by lia.
      by apply more_dots_found.
    + apply bool_decide_eq_true_1 in Hshort. cbn [Nat.leb orb].
      destruct (Z.leb_spec (Z.of_nat (S (S j))) max_dots_allowed) as [Hle|Hlt].
      * replace (Z.to_nat (max_dots_allowed - 1))
          with (S j + (Z.to_nat (max_dots_allowed - 1) - S j))%nat by lia.
        by apply more_dots_found.
      * apply (more_dots_gives_up (j - Z.to_nat (max_dots_allowed - 1))).
        replace (Z.to_nat (max_dots_allowed - 1) + (j - Z.to_nat (max_dots_allowed - 1)))%nat
          with j by lia.
        done.
Qed.
End DottedLengths.

Lemma dotted_length_reads_back_witness :
  let d := {| MusicXML.note_type := "eighth"; MusicXML.num_dots := 1;
              MusicXML.tuplet_ratio := None; MusicXML.duration_divisions := 1 |} in
  exists w,
    MusicXML.Duration_written_length d = MusicXML.Ok w /\
    MusicXML.get_note_type_and_number_of_dots w 4
    = MusicXML.Ok ("eighth"%string, 1%nat).
Proof.
  intros d.
  exact (dotted_length_reads_back d 4 ltac:(vm_compute; reflexivity)
           ltac:(cbn; lia)).
Defined.

(** ** Beaming *)

Section Beaming.
Import MusicXML.
Import PrimFloat.
Variable plain_length : num -> float.

Lemma map_result_Forall2 {A B} (f : A -> result B) l ys :
  map_result f l = Ok ys -> Forall2 (fun x y => f x = Ok y) l ys.
Proof.
  revert ys. induction l as [|x l IH]; intros ys; cbn.
  - intros [= <-]. constructor.
  - destruct (f x) eqn:Hx; [|done]. destruct (map_result f l); [|done].
    intros [= <-]. constructor; [done|]. by apply IH.
Qed.

Lemma for_result_seq {S} (Inv : nat -> S -> Prop) (body : nat -> S -> result S) m :
  forall k s s',
    for_result body (seq k m) s = Ok s' ->
    Inv k s ->
    (forall i s s', (k <= i < k + m)%nat -> Inv i s -> body i s = Ok s' -> Inv (Datatypes.S i) s') ->
    Inv (k + m)%nat s'.
Proof.
  induction m as [|m IH]; intros k s s'; cbn.
  - intros [= <-] H _. by rewrite Nat.add_0_r.
  - destruct (body k s) as [s1|] eqn:Hb; cbn; [|done].
    intros Hrest Hk Hstep.
    replace (k + Datatypes.S m)%nat with (Datatypes.S k + m)%nat by lia.
    apply (IH _ s1); [done| |].
    + apply (Hstep k s); [lia|done|done].
    + intros i t t' Hi. apply Hstep. lia.
Qed.

Lemma bind_Ok {A B} (r : result A) (k : A -> result B) y :
  (r ≫= k) = Ok y -> exists x, r = Ok x /\ k x = Ok y.
Proof. destruct r as [x|]; cbn; [eauto|done]. Qed.

Lemma num_beams_without_beams leaf :
  leaf_num_beams (without_beams leaf) = leaf_num_beams leaf.
Proof. destruct leaf as [n|[[|first rest] b]]; reflexivity. Qed.

Lemma written_length_without_beams leaf :
  leaf_written_length plain_length (without_beams leaf) =
  leaf_written_length plain_length leaf.
Proof. destruct leaf as [n|[[|first rest] b]]; reflexivity. Qed.

Lemma leaf_beams_Ok leaf b : leaf_beams leaf = Ok b -> b = beams_of leaf.
Proof. destruct leaf as [n|[[|first rest] br]]; cbn; congruence. Qed.

Lemma leaf_set_beams_Ok b leaf leaf' :
  leaf_set_beams b leaf = Ok leaf' ->
  without_beams leaf' = without_beams leaf /\ beams_of leaf' = b.
Proof.
  destruct leaf as [n|[[|first rest] br]]; cbn; [|done|]; intros [= <-]; done.
Qed.

Lemma active_beamed cur counts j d :
  counted cur counts -> (j < length cur)%nat ->
  active cur j d = Ok (beamed counts j d).
Proof.
  intros Hc Hj. apply lookup_lt_is_Some_2 in Hj as [l Hl].
  destruct (Forall2_lookup_l _ _ _ _ _ Hc Hl) as (n & Hn & Hnb).
  unfold active, beamed. rewrite Hl, Hn, Hnb. reflexivity.
Qed.

Lemma counted_related cur0 cur counts :
  counted cur0 counts ->
  related (fun _ l0 l => without_beams l = without_beams l0) cur0 cur ->
  counted cur counts.
Proof.
  intros Hc [Hlen Hrel]. apply Forall2_same_length_lookup.
  apply Forall2_same_length_lookup in Hc as [Hlen0 Hc].
  split; [congruence|]. intros j l n Hl Hn.
  assert (Hj : (j < length cur0)%nat) by (rewrite <- Hlen; by eapply lookup_lt_Some).
  apply lookup_lt_is_Some_2 in Hj as [l0 Hl0].
  rewrite <- num_beams_without_beams, (Hrel _ _ _ Hl0 Hl), num_beams_without_beams.
  by apply (Hc j).
Qed.

Lemma related_weaken (R R' : nat -> Element -> Element -> Prop) cur0 cur :
  related R cur0 cur ->
  (forall j l0 l, cur0 !! j = Some l0 -> cur !! j = Some l -> R j l0 l -> R' j l0 l) ->
  related R' cur0 cur.
Proof. intros [Hlen Hrel] Himp. split; [done|]. intros j l0 l H0 H1. eauto. Qed.

Lemma step_ok_same counts d j l0 l :
  step_ok counts d j l0 l -> without_beams l = without_beams l0.
Proof. by intros [? _]. Qed.

Lemma hook_is_hook t d v : hook t d = Ok v -> is_hook (Some v).
Proof.
  unfold hook. intros H.
  apply bind_Ok in H as (p & _ & H). apply bind_Ok in H as (q & _ & H).
  apply bind_Ok in H as (r & _ & H). injection H as <-.
  destruct (Z.even r); [by left|by right].
Qed.

Lemma beam_leaf_step counts d k cur0 cur t cur2 t2 :
  counted cur0 counts ->
  related (fun j l0 l => if (j <? k)%nat then step_ok counts d j l0 l else l = l0)
    cur0 cur ->
  (k < length cur0)%nat ->
  beam_leaf plain_length d k (cur, t) = Ok (cur2, t2) ->
  related (fun j l0 l => if (j <? S k)%nat then step_ok counts d j l0 l else l = l0)
    cur0 cur2.
Proof.
  intros Hc Hrel Hk Hrun.
  assert (Hcur : counted cur counts).
  { apply (counted_related cur0); [done|]. eapply related_weaken; [exact Hrel|].
    intros j l0 l _ _ H. cbv beta in H |- *.
    destruct (j <? k)%nat; [by apply step_ok_same in H|congruence]. }
  destruct Hrel as [Hlen Hrel].
  destruct (lookup_lt_is_Some_2 cur0 k Hk) as [l0 Hl0].
  assert (Hkc : (k < length cur)%nat) by lia.
  destruct (lookup_lt_is_Some_2 cur k Hkc) as [leaf Hleaf].
  assert (leaf = l0) as ->.
  { specialize (Hrel _ _ _ Hl0 Hleaf). by rewrite Nat.ltb_irrefl in Hrel. }
  unfold beam_leaf in Hrun. rewrite Hleaf in Hrun.
  assert (Hlast : (if (0 <? k)%nat then active cur (k - 1) d else Ok false) =
                  Ok ((0 <? k)%nat && beamed counts (k - 1) d)).
  { destruct (0 <? k)%nat eqn:H0k; [|done]. cbn.
    apply active_beamed; [done|lia]. }
  assert (Hnext : (if (k <? length cur - 1)%nat then active cur (k + 1) d else Ok false) =
                  Ok (beamed counts (k + 1) d)).
  { destruct (k <? length cur - 1)%nat eqn:Hk1.
    - apply Nat.ltb_lt in Hk1. apply active_beamed; [done|lia].
    - apply Nat.ltb_ge in Hk1. unfold beamed.
      rewrite (lookup_ge_None_2 counts (k + 1)); [done|].
      rewrite <- (Forall2_length _ _ _ Hcur). lia. }
  rewrite Hlast, Hnext, (active_beamed _ _ _ _ Hcur Hkc) in Hrun.
  remember ((0 <? k)%nat && beamed counts (k - 1) d) as last eqn:Hlast_eq.
  remember (beamed counts (k + 1) d) as next eqn:Hnext_eq.
  clear Hlast Hnext. cbn in Hrun.
  apply bind_Ok in Hrun as (leaf' & Hleaf' & Hrun).
  apply bind_Ok in Hrun as (len & _ & Hrun). injection Hrun as <- _.
  split; [by rewrite length_insert|].
  intros j l0' l Hj0 Hj.
  destruct (decide (j = k)) as [->|Hne].
  - rewrite list_lookup_insert_eq in Hj by done. injection Hj as <-.
    rewrite Hl0 in Hj0. injection Hj0 as <-.
    rewrite (proj2 (Nat.ltb_lt k (S k))) by lia.
    unfold step_ok, entry_ok. unfold joined. rewrite <- Hlast_eq, <- Hnext_eq.
    destruct (beamed counts k d) eqn:Hthis.
    + apply bind_Ok in Hleaf' as (value & Hvalue & Hleaf').
      apply bind_Ok in Hleaf' as (b & Hb & Hleaf').
      apply leaf_beams_Ok in Hb as ->.
      apply leaf_set_beams_Ok in Hleaf' as [Hsame Hbeams].
      split; [done|]. rewrite Hbeams. split.
      * intros d' Hd'. by rewrite lookup_insert_ne.
      * rewrite lookup_insert_eq.
        destruct last; destruct next; cbn in Hvalue |- *;
          try (by injection Hvalue as <-).
        by apply hook_is_hook in Hvalue.
    + injection Hleaf' as <-. done.
  - rewrite list_lookup_insert_ne in Hj by done.
    specialize (Hrel _ _ _ Hj0 Hj).
    destruct (j <? k)%nat eqn:Hjk.
    + rewrite (proj2 (Nat.ltb_lt j (S k))); [done|]. apply Nat.ltb_lt in Hjk. lia.
    + rewrite (proj2 (Nat.ltb_ge j (S k))); [done|]. apply Nat.ltb_ge in Hjk. lia.
Qed.

Lemma related_refl (R : nat -> Element -> Element -> Prop) cur :
  (forall j l, cur !! j = Some l -> R j l l) -> related R cur cur.
Proof. intros HR. split; [done|]. intros j l0 l H0 H1. simplify_eq. by apply HR. Qed.

Lemma related_trans (R R' R'' : nat -> Element -> Element -> Prop) a b c :
  related R a b -> related R' b c ->
  (forall j x y z, R j x y -> R' j y z -> R'' j x z) ->
  related R'' a c.
Proof.
  intros [Hlen Hab] [Hlen' Hbc] Hcomp. split; [congruence|].
  intros j x z Hx Hz.
  assert (Hj : (j < length b)%nat) by (rewrite Hlen; by eapply lookup_lt_Some).
  apply lookup_lt_is_Some_2 in Hj as [y Hy]. eauto.
Qed.

Lemma beam_at_depth_ok counts d cur0 cur1 :
  counted cur0 counts ->
  beam_at_depth plain_length d cur0 = Ok cur1 ->
  related (step_ok counts d) cur0 cur1.
Proof.
  intros Hc Hrun. unfold beam_at_depth in Hrun.
  apply bind_Ok in Hrun as (state & Hloop & Hrun). injection Hrun as <-.
  pose proof (for_result_seq
    (fun k s => related (fun j l0 l => if (j <? k)%nat then step_ok counts d j l0 l
                                       else l = l0) cur0 s.1)
    (beam_leaf plain_length d) (length cur0) 0%nat _ _ Hloop) as Hinv.
  cbv beta in Hinv.
  eapply related_weaken; [apply Hinv|].
  - apply related_refl. intros j l _. by destruct (j <? 0)%nat eqn:E.
  - intros i [cur t] [cur2 t2] Hi Hrel Hstep. cbn [fst] in *.
    eapply beam_leaf_step; [done|done|lia|done].
  - intros j l0 l Hj _ H. cbv beta in H.
    change (0 + length cur0)%nat with (length cur0) in H.
    apply lookup_lt_Some in Hj. by rewrite (proj2 (Nat.ltb_lt _ _) Hj) in H.
Qed.

Lemma depth_ok_same counts upto j l0 l :
  depth_ok counts upto j l0 l -> without_beams l = without_beams l0.
Proof. by intros [? _]. Qed.

Lemma beam_depths_ok counts m cur0 cur :
  counted cur0 counts ->
  for_result (beam_at_depth plain_length) (seq 1 m) cur0 = Ok cur ->
  related (depth_ok counts (1 + m)) cur0 cur.
Proof.
  intros Hc Hrun.
  apply (for_result_seq (fun k s => related (depth_ok counts k) cur0 s)
           (beam_at_depth plain_length) m 1%nat _ _ Hrun).
  - apply related_refl. intros j l _. split; [done|]. intros d.
    by destruct (1 <=? d)%nat eqn:E1; destruct (d <? 1)%nat eqn:E2;
      try done; apply Nat.leb_le in E1; apply Nat.ltb_lt in E2; lia.
  - intros k s s' Hk Hrel Hstep.
    assert (Hs : counted s counts).
    { apply (counted_related cur0); [done|]. eapply related_weaken; [exact Hrel|].
      intros j l0 l _ _ H. by apply depth_ok_same in H. }
    pose proof (beam_at_depth_ok _ _ _ _ Hs Hstep) as Hone.
    eapply related_trans; [exact Hrel|exact Hone|].
    intros j x y z [Hxy Hdx] (Hyz & Hother & Hentry). split; [congruence|].
    intros d. specialize (Hdx d).
    destruct (decide (d = k)) as [->|Hne].
    + rewrite (proj2 (Nat.leb_le 1 k)), (proj2 (Nat.ltb_lt k (S k))) by lia.
      rewrite (proj2 (Nat.ltb_ge k k)), andb_false_r in Hdx by lia.
      cbn [andb]. by rewrite <- Hdx.
    + rewrite (Hother d Hne).
      destruct (1 <=? d)%nat eqn:E1; cbn [andb] in *; [|done].
      destruct (d <? k)%nat eqn:E2.
      * rewrite (proj2 (Nat.ltb_lt d (S k))); [done|]. apply Nat.ltb_lt in E2. lia.
      * rewrite (proj2 (Nat.ltb_ge d (S k))); [done|]. apply Nat.ltb_ge in E2. lia.
Qed.

Lemma clear_hooks_Ok leaf leaf' :
  clear_hooks leaf = Ok leaf' ->
  without_beams leaf' = without_beams leaf /\
  beams_of leaf' =
    if forallb (contains "hook") (map_to_list (beams_of leaf)).*2
    then ∅ else beams_of leaf.
Proof.
  unfold clear_hooks. intros H. apply bind_Ok in H as (b & Hb & H).
  apply leaf_beams_Ok in Hb as ->.
  destruct (forallb _ _).
  - by apply leaf_set_beams_Ok in H.
  - by injection H as <-.
Qed.

Lemma joined_no_hook counts j d v :
  joined counts j d = Some v -> contains "hook" v = false.
Proof.
  unfold joined.
  destruct ((0 <? j)%nat && beamed counts (j - 1) d); destruct (beamed counts (j + 1) d);
    cbn; intros [= <-]; reflexivity.
Qed.

Lemma hook_has_hook v : is_hook (Some v) -> contains "hook" v = true.
Proof. intros [[= ->]|[= ->]]; reflexivity. Qed.

Lemma beamed_at_1 counts j d :
  beamed counts j d = true -> (1 <= d)%nat -> beamed counts j 1 = true.
Proof.
  unfold beamed. destruct (counts !! j); [|done].
  intros H%Nat.leb_le Hd. apply Nat.leb_le. lia.
Qed.

Lemma joined_at_1 counts j d v :
  joined counts j d = Some v -> (1 <= d)%nat -> is_Some (joined counts j 1).
Proof.
  unfold joined. intros H Hd.
  destruct (beamed counts (j - 1) d) eqn:Hl; destruct (beamed counts (j + 1) d) eqn:Hn;
    try rewrite (beamed_at_1 _ _ _ Hl Hd); try rewrite (beamed_at_1 _ _ _ Hn Hd);
    destruct (0 <? j)%nat; cbn in *; try done;
    destruct (beamed counts (j - 1) 1); destruct (beamed counts (j + 1) 1); cbn; eauto.
Qed.

Lemma beamed_le_max counts j d :
  beamed counts j d = true -> (d <= max_list counts)%nat.
Proof.
  unfold beamed. destruct (counts !! j) as [n|] eqn:Hn; [|done].
  intros H%Nat.leb_le. apply list_elem_of_lookup_2 in Hn.
  apply max_list_elem_of_le in Hn. lia.
Qed.

Lemma cleared_final counts j x y z :
  beams_of x = ∅ ->
  depth_ok counts (1 + max_list counts) j x y ->
  clear_hooks y = Ok z ->
  final_ok counts j x z.
Proof.
  intros Hfresh [Hxy Hdepth] Hclear.
  apply clear_hooks_Ok in Hclear as [Hyz Hbeams].
  split; [congruence|].
  assert (G : forall d,
    if (1 <=? d)%nat && beamed counts j d
    then match joined counts j d with
         | Some v => beams_of y !! d = Some v
         | None => is_hook (beams_of y !! d)
         end
    else beams_of y !! d = None).
  { intros d. specialize (Hdepth d). rewrite Hfresh, lookup_empty in Hdepth.
    unfold entry_ok in Hdepth.
    change (1 + max_list counts)%nat with (S (max_list counts)) in Hdepth.
    destruct (1 <=? d)%nat eqn:E1; cbn [andb] in *; [|done].
    destruct (beamed counts j d) eqn:Hb.
    - apply beamed_le_max in Hb.
      rewrite (proj2 (Nat.ltb_lt d (S (max_list counts)))) in Hdepth by lia. done.
    - by destruct (d <? S (max_list counts))%nat. }
  rewrite Hbeams. clear Hbeams Hdepth.
  destruct (forallb _ _) eqn:Hall.
  - intros d. unfold final_entry. rewrite lookup_empty.
    destruct (1 <=? d)%nat eqn:E1; cbn [andb]; [|done].
    destruct (beamed counts j d) eqn:Hb; cbn [andb]; [|done].
    case_bool_decide as Hsome; [|done]. exfalso.
    destruct Hsome as [v1 Hv1].
    apply Nat.leb_le in E1. pose proof (beamed_at_1 _ _ _ Hb E1) as Hb1.
    specialize (G 1%nat). rewrite Hb1, Hv1 in G. cbn in G.
    rewrite forallb_forall in Hall.
    assert (Hin : In v1 (map_to_list (beams_of y)).*2).
    { apply list_elem_of_In. apply (list_elem_of_fmap_2' snd _ (1%nat, v1)); [|done].
      by apply elem_of_map_to_list. }
    apply Hall in Hin. apply joined_no_hook in Hv1. congruence.
  - assert (Hex : exists d v, beams_of y !! d = Some v /\ contains "hook" v = false).
    { destruct (Forall_Exists_dec (fun v => contains "hook" v = true)
                  (fun v => contains "hook" v <> true)
                  (fun v => decide (contains "hook" v = true))
                  (map_to_list (beams_of y)).*2) as [Hf|He].
      - rewrite Forall_forall in Hf.
        assert (forallb (contains "hook") (map_to_list (beams_of y)).*2 = true).
        { apply forallb_forall. intros v Hv. apply Hf. by apply list_elem_of_In. }
        congruence.
      - apply Exists_exists in He as (v & Hv & Hno).
        apply list_elem_of_fmap in Hv as ([d v'] & -> & Hin).
        apply elem_of_map_to_list in Hin. exists d, v'. split; [done|].
        cbn in Hno. by destruct (contains "hook" v'). }
    destruct Hex as (d & v & Hd & Hv).
    assert (Hone : is_Some (joined counts j 1)).
    { specialize (G d). rewrite Hd in G.
      destruct (1 <=? d)%nat eqn:E1; cbn [andb] in G; [|done].
      destruct (beamed counts j d); [|done].
      destruct (joined counts j d) as [v'|] eqn:Hj.
      - apply Nat.leb_le in E1. by eapply joined_at_1.
      - apply hook_has_hook in G. congruence. }
    intros d'. unfold final_entry. rewrite (bool_decide_eq_true_2 _ Hone), andb_true_r.
    apply G.
Qed.

Lemma render_final contents contents' :
  Forall (fun leaf => beams_of leaf = ∅) contents ->
  render_contents_beaming plain_length contents = Ok contents' ->
  exists counts,
    counted contents counts /\ related (final_ok counts) contents contents'.
Proof.
  intros Hfresh Hrun. unfold render_contents_beaming in Hrun.
  apply bind_Ok in Hrun as (counts & Hcounts & Hrun).
  apply map_result_Forall2 in Hcounts. exists counts. split; [done|].
  assert (Hrun' :
    (for_result (beam_at_depth plain_length) (seq 1 (max_list counts)) contents
       ≫= map_result clear_hooks) = Ok contents') by (by destruct counts).
  clear Hrun. apply bind_Ok in Hrun' as (cur & Hloops & Hclear).
  pose proof (beam_depths_ok _ _ _ _ Hcounts Hloops) as Hdepth.
  apply map_result_Forall2 in Hclear.
  apply Forall2_same_length_lookup in Hclear as [Hlen Hclear].
  eapply (related_trans
            (fun j x y => beams_of x = ∅ /\ depth_ok counts (1 + max_list counts) j x y)
            (fun _ y z => clear_hooks y = Ok z)).
  - eapply related_weaken; [exact Hdepth|]. intros j l0 l Hl0 _ H. split; [|done].
    rewrite Forall_forall in Hfresh. apply Hfresh. by eapply list_elem_of_lookup_2.
  - split; [done|]. intros j y z Hy Hz. by apply (Hclear j).
  - intros j x y z [Hx Hd] Hc. by eapply cleared_final.
Qed.

Lemma joined_next counts i d :
  joined counts i d = Some "begin" \/ joined counts i d = Some "continue" ->
  beamed counts (i + 1) d = true.
Proof.
  unfold joined.
  destruct ((0 <? i)%nat && beamed counts (i - 1) d); destruct (beamed counts (i + 1) d);
    cbn; intros [[=]|[=]]; done.
Qed.

Lemma joined_prev counts i d :
  joined counts i d = Some "end" \/ joined counts i d = Some "continue" ->
  exists j, i = S j /\ beamed counts j d = true.
Proof.
  unfold joined. intros H.
  destruct ((0 <? i)%nat && beamed counts (i - 1) d) eqn:Hlast.
  - apply andb_prop in Hlast as [Hi Hb]. apply Nat.ltb_lt in Hi.
    exists (i - 1)%nat. split; [lia|done].
  - exfalso. destruct (beamed counts (i + 1) d); cbn in H; by destruct H.
Qed.

Lemma joined_after counts j d :
  beamed counts j d = true ->
  joined counts (S j) d = Some "continue" \/ joined counts (S j) d = Some "end".
Proof.
  intros H. unfold joined. replace (S j - 1)%nat with j by lia. rewrite H.
  change (0 <? S j)%nat with true. cbn [andb].
  destruct (beamed counts (S j + 1) d); [by left|by right].
Qed.

Lemma joined_before counts j d :
  beamed counts (S j) d = true ->
  joined counts j d = Some "begin" \/ joined counts j d = Some "continue".
Proof.
  intros H. unfold joined. replace (j + 1)%nat with (S j) by lia. rewrite H.
  destruct ((0 <? j)%nat && beamed counts (j - 1) d); [by right|by left].
Qed.

Lemma final_entry_joined counts i d v :
  final_entry counts i d (Some v) -> contains "hook" v = false ->
  (1 <= d)%nat /\ beamed counts i d = true /\ joined counts i d = Some v.
Proof.
  unfold final_entry. intros H Hv.
  destruct (1 <=? d)%nat eqn:E1; cbn [andb] in H; [|done].
  destruct (beamed counts i d); cbn [andb] in H; [|done].
  case_bool_decide; [|done]. apply Nat.leb_le in E1.
  destruct (joined counts i d).
  - by injection H as <-.
  - apply hook_has_hook in H. congruence.
Qed.

Lemma final_entry_of_joined counts i d v entry :
  (1 <= d)%nat -> beamed counts i d = true -> joined counts i d = Some v ->
  final_entry counts i d entry -> entry = Some v.
Proof.
  unfold final_entry. intros Hd Hb Hj.
  rewrite (proj2 (Nat.leb_le 1 d) Hd), Hb, Hj.
  rewrite bool_decide_eq_true_2 by (by eapply joined_at_1). done.
Qed.

Lemma related_next counts contents contents' i d :
  counted contents counts -> related (final_ok counts) contents contents' ->
  beamed counts i d = true ->
  exists leaf, contents' !! i = Some leaf /\
    final_entry counts i d (beams_of leaf !! d).
Proof.
  intros Hc [Hlen Hrel] Hb. unfold beamed in Hb.
  destruct (counts !! i) as [n|] eqn:Hn; [|done].
  apply lookup_lt_Some in Hn. rewrite <- (Forall2_length _ _ _ Hc) in Hn.
  destruct (lookup_lt_is_Some_2 contents i Hn) as [l0 Hl0].
  rewrite <- Hlen in Hn. destruct (lookup_lt_is_Some_2 contents' i Hn) as [l Hl].
  exists l. split; [done|]. by destruct (Hrel _ _ _ Hl0 Hl) as [_ H].
Qed.

(** X21: beams that begin also end.  On leaves that carry no beams yet,
    when [render_contents_beaming] returns, at every depth a leaf marked
    ["begin"] or ["continue"] is followed by a leaf marked ["continue"] or
    ["end"], and a leaf marked ["end"] or ["continue"] comes after a leaf
    marked ["begin"] or ["continue"]. *)
Theorem beams_begun_are_ended contents contents' :
  Forall (fun leaf => beams_of leaf = ∅) contents ->
  render_contents_beaming plain_length contents = Ok contents' ->
  forall i leaf depth,
    contents' !! i = Some leaf ->
    (beams_of leaf !! depth = Some "begin" \/
     beams_of leaf !! depth = Some "continue" ->
       exists next, contents' !! S i = Some next /\
         (beams_of next !! depth = Some "continue" \/
          beams_of next !! depth = Some "end")) /\
    (beams_of leaf !! depth = Some "end" \/
     beams_of leaf !! depth = Some "continue" ->
       exists j prev, i = S j /\ contents' !! j = Some prev /\
         (beams_of prev !! depth = Some "begin" \/
          beams_of prev !! depth = Some "continue")).
Proof.
  intros Hfresh Hrun i leaf depth Hleaf.
  destruct (render_final _ _ Hfresh Hrun) as (counts & Hc & Hrel).
  assert (Hentry : final_entry counts i depth (beams_of leaf !! depth)).
  { destruct Hrel as [Hlen Hrel].
    assert (Hi : (i < length contents)%nat) by (rewrite <- Hlen; by eapply lookup_lt_Some).
    apply lookup_lt_is_Some_2 in Hi as [l0 Hl0].
    by destruct (Hrel _ _ _ Hl0 Hleaf) as [_ H]. }
  split.
  - intros Hv.
    assert (exists v, beams_of leaf !! depth = Some v /\ contains "hook" v = false /\
                      (v = "begin" \/ v = "continue")) as (v & Hb & Hno & Hcase).
    { destruct Hv as [Hv|Hv]; eexists; (split; [exact Hv|]); split; eauto. }
    rewrite Hb in Hentry.
    apply final_entry_joined in Hentry as (Hd & Hthis & Hj); [|done].
    assert (Hn : beamed counts (S i) depth = true).
    { replace (S i) with (i + 1)%nat by lia. apply joined_next.
      destruct Hcase as [-> | ->]; eauto. }
    destruct (related_next _ _ _ _ _ Hc Hrel Hn) as (next & Hnext & Hfinal).
    exists next. split; [done|].
    destruct (joined_after _ _ _ Hthis) as [H|H]; [left|right];
      eapply final_entry_of_joined; eauto.
  - intros Hv.
    assert (exists v, beams_of leaf !! depth = Some v /\ contains "hook" v = false /\
                      (v = "end" \/ v = "continue")) as (v & Hb & Hno & Hcase).
    { destruct Hv as [Hv|Hv]; eexists; (split; [exact Hv|]); split; eauto. }
    rewrite Hb in Hentry.
    apply final_entry_joined in Hentry as (Hd & Hthis & Hj); [|done].
    assert (exists j, i = S j /\ beamed counts j depth = true) as (j & -> & Hp).
    { apply joined_prev. destruct Hcase as [-> | ->]; eauto. }
    destruct (related_next _ _ _ _ _ Hc Hrel Hp) as (prev & Hprev & Hfinal).
    exists j, prev. split; [done|]. split; [done|].
    destruct (joined_before _ _ _ Hthis) as [H|H]; [left|right];
      eapply final_entry_of_joined; eauto.
Qed.

Lemma set_beams_back l0 l n :
  without_beams l = without_beams l0 -> leaf_num_beams l0 = Ok n ->
  leaf_set_beams (beams_of l) l0 = Ok l.
Proof.
  destruct l0 as [n0|[[|f0 r0] b0]], l as [n1|[[|f1 r1] b1]]; cbn; try done.
  - intros [= H] _. f_equal. f_equal. destruct n0, n1. cbn in *.
    unfold with_beams in *. cbn in *. congruence.
  - intros [= H1 H2 H3] _. f_equal. f_equal. f_equal; [|done]. f_equal; [|done].
    destruct f0, f1. unfold with_beams in *. cbn in *. congruence.
Qed.

Lemma beamed_1_false counts contents j :
  counted contents counts ->
  beamed counts j 1 = false <->
  (forall l, contents !! j = Some l -> leaf_num_beams l = Ok 0%nat).
Proof.
  intros Hc. unfold beamed. split.
  - intros H l Hl. destruct (Forall2_lookup_l _ _ _ _ _ Hc Hl) as (n & Hn & Hnb).
    rewrite Hn in H. apply Nat.leb_gt in H. rewrite Hnb. f_equal. lia.
  - intros H. destruct (counts !! j) as [n|] eqn:Hn; [|done].
    destruct (Forall2_lookup_r _ _ _ _ _ Hc Hn) as (l & Hl & Hnb).
    specialize (H _ Hl). rewrite Hnb in H. injection H as ->. done.
Qed.

Lemma alone_joined counts contents i :
  counted contents counts ->
  stands_alone contents i <-> joined counts i 1 = None.
Proof.
  intros Hc. unfold stands_alone, joined. split.
  - intros H.
    assert (Hn : beamed counts (i + 1) 1 = false).
    { apply (beamed_1_false _ contents); [done|]. intros l Hl.
      apply (H (i + 1)%nat); [right; lia|done]. }
    rewrite Hn.
    destruct i as [|j]; [done|]. replace (S j - 1)%nat with j by lia.
    assert (Hp : beamed counts j 1 = false).
    { apply (beamed_1_false _ contents); [done|]. intros l Hl.
      apply (H j); [by left|done]. }
    by rewrite Hp.
  - intros H j l [<- | ->] Hl.
    + replace (S j - 1)%nat with j in H by lia. cbn [Nat.ltb Nat.leb andb] in H.
      destruct (beamed counts j 1) eqn:Hp.
      * destruct (beamed counts (S j + 1) 1); done.
      * by apply (beamed_1_false _ contents j Hc).
    + replace (i + 1)%nat with (S i) in H by lia.
      destruct (beamed counts (S i) 1) eqn:Hn.
      * destruct ((0 <? i)%nat && beamed counts (i - 1) 1); done.
      * by apply (beamed_1_false _ contents (S i) Hc).
Qed.

(** X22: what rendering the beaming leaves behind.  On leaves that carry
    no beams yet, when [render_contents_beaming] returns, the contents are
    the same leaves with new beams and nothing else changed.  A leaf ends
    with no beams exactly when it has none to show or no neighbour has any
    (its hooks are cleared); otherwise it has one entry for each depth from
    1 to its number of beams and no other. *)
Theorem beams_follow_num_beams contents contents' :
  Forall (fun leaf => beams_of leaf = ∅) contents ->
  render_contents_beaming plain_length contents = Ok contents' ->
  length contents' = length contents /\
  forall i leaf0 leaf,
    contents !! i = Some leaf0 -> contents' !! i = Some leaf ->
    leaf_set_beams (beams_of leaf) leaf0 = Ok leaf /\
    exists n,
      leaf_num_beams leaf0 = Ok n /\
      (beams_of leaf = ∅ <-> n = 0%nat \/ stands_alone contents i) /\
      (beams_of leaf <> ∅ ->
       forall d, is_Some (beams_of leaf !! d) <-> (1 <= d <= n)%nat).
Proof.
  intros Hfresh Hrun.
  destruct (render_final _ _ Hfresh Hrun) as (counts & Hc & [Hlen Hrel]).
  split; [done|]. intros i leaf0 leaf Hl0 Hl.
  destruct (Hrel _ _ _ Hl0 Hl) as [Hsame Hfinal].
  destruct (Forall2_lookup_l _ _ _ _ _ Hc Hl0) as (n & Hn & Hnb).
  split; [by eapply set_beams_back|]. exists n. split; [done|].
  assert (Hbeamed : forall d, beamed counts i d = (d <=? n)%nat).
  { intros d. unfold beamed. by rewrite Hn. }
  unfold final_entry in Hfinal.
  rewrite (alone_joined counts) by done.
  split; [split|].
  - intros Hempty. destruct n as [|n]; [by left|right].
    destruct (joined counts i 1) as [v|] eqn:Hj; [|done]. exfalso.
    specialize (Hfinal 1%nat). rewrite Hbeamed, Hj in Hfinal.
    rewrite bool_decide_eq_true_2 in Hfinal by eauto.
    rewrite Hempty, lookup_empty in Hfinal. done.
  - intros Hcase. apply map_empty. intros d. specialize (Hfinal d).
    rewrite Hbeamed in Hfinal.
    destruct Hcase as [-> | Halone].
    + destruct (1 <=? d)%nat eqn:E1; cbn [andb] in Hfinal; [|done].
      destruct (d <=? 0)%nat eqn:E2; cbn [andb] in Hfinal; [|done].
      apply Nat.leb_le in E1, E2. lia.
    + rewrite Halone in Hfinal. rewrite bool_decide_eq_false_2 in Hfinal.
      * by rewrite andb_false_r in Hfinal.
      * by intros [? ?].
  - intros Hne d.
    assert (Hone : is_Some (joined counts i 1)).
    { destruct (joined counts i 1) eqn:Hj; [eauto|]. exfalso. apply Hne.
      apply map_empty. intros d'. specialize (Hfinal d').
      rewrite bool_decide_eq_false_2 in Hfinal by (by intros [? ?]).
      by rewrite andb_false_r in Hfinal. }
    specialize (Hfinal d).
    rewrite (bool_decide_eq_true_2 _ Hone), andb_true_r, Hbeamed in Hfinal.
    destruct (1 <=? d)%nat eqn:E1; destruct (d <=? n)%nat eqn:E2; cbn [andb] in Hfinal.
    + apply Nat.leb_le in E1, E2. split; [lia|]. intros _.
      destruct (joined counts i d); [by rewrite Hfinal|].
      destruct Hfinal as [-> | ->]; eauto.
    + apply Nat.leb_le in E1. apply Nat.leb_gt in E2. rewrite Hfinal.
      split; [by intros [? ?]|lia].
    + apply Nat.leb_gt in E1. rewrite Hfinal. split; [by intros [? ?]|lia].
    + apply Nat.leb_gt in E1. rewrite Hfinal. split; [by intros [? ?]|lia].
Qed.

End Beaming.

Section BeamingExamples.
Import MusicXML.
Import PrimFloat.

Lemma beams_begun_are_ended_witness :
  let contents := [a_note "eighth" 1; a_note "16th" 0] in
  match render_contents_beaming (fun _ => 0%float) contents with
  | Ok contents' =>
      Forall (fun leaf => beams_of leaf = ∅) contents /\
      forall leaf,
        contents' !! 0%nat = Some leaf ->
        beams_of leaf !! 1%nat = Some "begin"%string ->
        exists next, contents' !! 1%nat = Some next /\
          (beams_of next !! 1%nat = Some "continue"%string \/
           beams_of next !! 1%nat = Some "end"%string)
  | Err _ => False
  end.
Proof.
  intros contents.
  assert (Hfresh : Forall (fun leaf => beams_of leaf = ∅) contents)
    by (by repeat constructor).
  destruct (render_contents_beaming _ contents) as [contents'|e] eqn:Hrun.
  - split; [done|]. intros leaf Hleaf Hbegin.
    exact (proj1 (beams_begun_are_ended _ contents contents' Hfresh Hrun
                    0%nat leaf 1%nat Hleaf) (or_introl Hbegin)).
  - vm_compute in Hrun. discriminate.
Defined.

Lemma beams_follow_num_beams_witness :
  let contents := [a_note "eighth" 1; a_note "16th" 0] in
  match render_contents_beaming (fun _ => 0%float) contents with
  | Ok contents' =>
      Forall (fun leaf => beams_of leaf = ∅) contents /\
      length contents' = 2%nat /\
      forall leaf,
        contents' !! 1%nat = Some leaf ->
        leaf_set_beams (beams_of leaf) (a_note "16th" 0) = Ok leaf
  | Err _ => False
  end.
Proof.
  intros contents.
  assert (Hfresh : Forall (fun leaf => beams_of leaf = ∅) contents)
    by (by repeat constructor).
  destruct (render_contents_beaming _ contents) as [contents'|e] eqn:Hrun.
  - destruct (beams_follow_num_beams _ contents contents' Hfresh Hrun)
      as [Hlen Hleaves].
    split; [done|]. split; [done|]. intros leaf Hleaf.
    by destruct (Hleaves 1%nat (a_note "16th" 0) leaf eq_refl Hleaf) as [Hset _].
  - vm_compute in Hrun. discriminate.
Defined.

End BeamingExamples.
